(** * API Potluck: key admission, bonus ledger and credential reconciliation

    A shallow embedding of the quota bookkeeping of the api-potluck plugin:
    - [KeyManager]       : key-manager.js (key table, daily quota, cached bonus counter);
    - [UserDataManager]  : user-data-manager.js (credentials, bonus grants, reconciliation);
    - [Plugin]           : index.js (the usage hook gluing the two together);
    - [Concurrency]      : SimpleMutex and the interleavings of concurrent consumeBonus calls.

    Conventions of the embedding.
    - JavaScript numbers that hold counters, limits and millisecond timestamps are [Z].
    - A timestamp string (ISO 8601) is represented by the millisecond value that
      [new Date(s).getTime()] yields for it; a calendar date string (YYYY-MM-DD)
      stays a [string].
    - Every reading of the clock is an explicit argument: [today] for
      [getTodayDateString()], [now] for [new Date()] / [Date.now()].
    - A function without [await] in its body runs in one turn of the event
      loop; the clock readings it takes are one value.
    - The module-level stores are explicit state; [ensureLoaded()] has already
      run, so a store is a loaded value and never [null].  Writing the stores
      to disk ([persistIfDirty], the timers, the file watcher) is left out;
      [isDirty] records that [markDirty()] was called.
    - A field that may be [undefined] in stored JSON is an [option]. *)

From Stdlib Require Import ZArith Lia Bool.
From stdpp Require Import base option list gmap strings fin_maps.

Local Open Scope Z_scope.

(** ** key-manager.js *)
Module KeyManager.

Definition KEY_PREFIX : string := "maki_".

(** A stored key record ([keyData]).  [keyId] and [keyName] are the fields
    [id] and [name]. *)
Record ApiKey := mkApiKey {
  keyId : string;
  keyName : string;
  createdAt : Z;
  dailyLimit : Z;
  todayUsage : Z;
  totalUsage : Z;
  lastResetDate : string;
  lastUsedAt : option Z;
  enabled : bool;
  bonusRemaining : option Z
}.

(** The module state: [keyStore.keys] and the [isDirty] flag. *)
Record KeyStore := mkKeyStore {
  keys : gmap string ApiKey;
  isDirty : bool
}.

Definition markDirty (st : KeyStore) : KeyStore :=
  {| keys := keys st; isDirty := true |}.

Definition setKey (apiKey : string) (k : ApiKey) (st : KeyStore) : KeyStore :=
  {| keys := <[apiKey := k]> (keys st); isDirty := isDirty st |}.

(** [checkAndResetDailyCount(keyData)]: the record is mutated in place and
    returned; here the updated record is the result. *)
Definition checkAndResetDailyCount (today : string) (keyData : ApiKey) : ApiKey :=
  if negb (String.eqb (lastResetDate keyData) today) then
    {| keyId := keyId keyData; keyName := keyName keyData;
       createdAt := createdAt keyData; dailyLimit := dailyLimit keyData;
       todayUsage := 0; totalUsage := totalUsage keyData;
       lastResetDate := today; lastUsedAt := lastUsedAt keyData;
       enabled := enabled keyData; bonusRemaining := bonusRemaining keyData |}
  else keyData.

(** [x || 0] on the cached counter: [undefined] and [0] both give [0]. *)
Definition orZero (x : option Z) : Z := default 0 x.

Inductive Reason := invalid_format | not_found | disabled | quota_exceeded.

(** The object returned by [validateKey]:
    [{valid:false, reason, keyData?}] or [{valid:true, keyData, useBonus, bonusRemaining?}]. *)
Inductive Validation :=
| Invalid (reason : Reason) (keyData : option ApiKey)
| Valid (keyData : ApiKey) (useBonus : bool) (cachedBonus : option Z).

(** [validateKey(apiKey)].  The lazy reset writes through to the stored record. *)
Definition validateKey (today : string) (apiKey : string) (st : KeyStore)
  : Validation * KeyStore :=
  if negb (String.prefix KEY_PREFIX apiKey) then (Invalid invalid_format None, st)
  else match keys st !! apiKey with
  | None => (Invalid not_found None, st)
  | Some keyData =>
    if negb (enabled keyData) then (Invalid disabled None, st)
    else
      let keyData := checkAndResetDailyCount today keyData in
      let st := setKey apiKey keyData st in
      if todayUsage keyData <? dailyLimit keyData then (Valid keyData false None, st)
      else
        let bonus := orZero (bonusRemaining keyData) in
        if 0 <? bonus then (Valid keyData true (Some bonus), st)
        else (Invalid quota_exceeded (Some keyData), st)
  end.

(** The object returned by a successful [incrementUsage]: [{...keyData, usedBonus}]. *)
Record UsageResult := mkUsageResult {
  resultKey : ApiKey;
  usedBonus : bool
}.

Definition withTodayUsage (v : Z) (k : ApiKey) : ApiKey :=
  {| keyId := keyId k; keyName := keyName k; createdAt := createdAt k;
     dailyLimit := dailyLimit k; todayUsage := v; totalUsage := totalUsage k;
     lastResetDate := lastResetDate k; lastUsedAt := lastUsedAt k;
     enabled := enabled k; bonusRemaining := bonusRemaining k |}.

Definition withBonusRemaining (v : option Z) (k : ApiKey) : ApiKey :=
  {| keyId := keyId k; keyName := keyName k; createdAt := createdAt k;
     dailyLimit := dailyLimit k; todayUsage := todayUsage k; totalUsage := totalUsage k;
     lastResetDate := lastResetDate k; lastUsedAt := lastUsedAt k;
     enabled := enabled k; bonusRemaining := v |}.

(** [keyData.totalUsage += 1; keyData.lastUsedAt = new Date().toISOString()]. *)
Definition recordUse (now : Z) (k : ApiKey) : ApiKey :=
  {| keyId := keyId k; keyName := keyName k; createdAt := createdAt k;
     dailyLimit := dailyLimit k; todayUsage := todayUsage k;
     totalUsage := totalUsage k + 1;
     lastResetDate := lastResetDate k; lastUsedAt := Some now;
     enabled := enabled k; bonusRemaining := bonusRemaining k |}.

(** [incrementUsage(apiKey, onBonusUsed)].  The callback acts on a state [L]
    of its own (the user-data store for the callback the plugin passes); its
    return value is not inspected by [incrementUsage]. *)
Definition incrementUsage {L : Type} (today : string) (now : Z) (apiKey : string)
    (onBonusUsed : option (string -> L -> L)) (st : KeyStore) (l : L)
  : option UsageResult * KeyStore * L :=
  match keys st !! apiKey with
  | None => (None, st, l)
  | Some keyData =>
    let keyData := checkAndResetDailyCount today keyData in
    if todayUsage keyData <? dailyLimit keyData then
      let keyData := recordUse now (withTodayUsage (todayUsage keyData + 1) keyData) in
      (Some (mkUsageResult keyData false), markDirty (setKey apiKey keyData st), l)
    else
      let bonus := orZero (bonusRemaining keyData) in
      if 0 <? bonus then
        let keyData := withBonusRemaining (Some (bonus - 1)) keyData in
        let l := match onBonusUsed with Some cb => cb apiKey l | None => l end in
        let keyData := recordUse now keyData in
        (Some (mkUsageResult keyData true), markDirty (setKey apiKey keyData st), l)
      else (None, setKey apiKey keyData st, l)
  end.

(** [updateBonusRemaining(keyId, bonusRemaining)]: clamps at 0. *)
Definition updateBonusRemaining (apiKey : string) (n : Z) (st : KeyStore)
  : bool * KeyStore :=
  match keys st !! apiKey with
  | None => (false, st)
  | Some keyData =>
    (true, markDirty (setKey apiKey (withBonusRemaining (Some (Z.max 0 n)) keyData) st))
  end.

End KeyManager.

(** ** user-data-manager.js *)
Module UserDataManager.

(** [userDataStore.config]: every entry may be absent and then falls back to
    [DEFAULT_CONFIG] through [??]. *)
Record Config := mkConfig {
  defaultDailyLimit : option Z;
  bonusPerCredential : option Z;
  bonusValidityDays : option Z;
  persistInterval : option Z
}.

Record FullConfig := mkFullConfig {
  fullDefaultDailyLimit : Z;
  fullBonusPerCredential : Z;
  fullBonusValidityDays : Z;
  fullPersistInterval : Z
}.

Definition DEFAULT_CONFIG : FullConfig :=
  {| fullDefaultDailyLimit := 500; fullBonusPerCredential := 300;
     fullBonusValidityDays := 30; fullPersistInterval := 5000 |}.

(** An element of [userData.credentials]; [credId] is the field [id]. *)
Record Credential := mkCredential {
  credId : string;
  path : string;
  provider : string;
  authMethod : string;
  addedAt : Z
}.

(** A bonus grant: an element of [userData.credentialBonuses]. *)
Record Bonus := mkBonus {
  credentialId : string;
  grantedAt : Z;
  usedCount : Z
}.

(** A value of [userDataStore.users]; [userCreatedAt] is the field [createdAt],
    and [credentialBonuses] is missing in records written by older versions. *)
Record UserData := mkUserData {
  credentials : list Credential;
  credentialBonuses : option (list Bonus);
  userCreatedAt : Z;
  migratedFrom : option string;
  migratedAt : option Z
}.

(** The module state: [userDataStore] and the [isDirty] flag. *)
Record UserDataStore := mkStore {
  config : Config;
  users : gmap string UserData;
  isDirty : bool
}.

#[export] Instance Bonus_eq_dec : EqDecision Bonus.
Proof. solve_decision. Defined.

Definition markDirty (st : UserDataStore) : UserDataStore :=
  {| config := config st; users := users st; isDirty := true |}.

Definition setUser (apiKey : string) (u : UserData) (st : UserDataStore) : UserDataStore :=
  {| config := config st; users := <[apiKey := u]> (users st); isDirty := isDirty st |}.

Definition withCredentials (cs : list Credential) (u : UserData) : UserData :=
  {| credentials := cs; credentialBonuses := credentialBonuses u;
     userCreatedAt := userCreatedAt u; migratedFrom := migratedFrom u;
     migratedAt := migratedAt u |}.

Definition withBonuses (bs : list Bonus) (u : UserData) : UserData :=
  {| credentials := credentials u; credentialBonuses := Some bs;
     userCreatedAt := userCreatedAt u; migratedFrom := migratedFrom u;
     migratedAt := migratedAt u |}.

Definition getFullConfig (st : UserDataStore) : FullConfig :=
  let c := config st in
  {| fullDefaultDailyLimit := default (fullDefaultDailyLimit DEFAULT_CONFIG) (defaultDailyLimit c);
     fullBonusPerCredential := default (fullBonusPerCredential DEFAULT_CONFIG) (bonusPerCredential c);
     fullBonusValidityDays := default (fullBonusValidityDays DEFAULT_CONFIG) (bonusValidityDays c);
     fullPersistInterval := default (fullPersistInterval DEFAULT_CONFIG) (persistInterval c) |}.

(** [getBonusConfig()] projects two fields of [getFullConfig()]; the two
    accessors below are its destructured components. *)
Definition getBonusPerCredential (st : UserDataStore) : Z :=
  fullBonusPerCredential (getFullConfig st).
Definition getBonusValidityDays (st : UserDataStore) : Z :=
  fullBonusValidityDays (getFullConfig st).

(** [ensureUserData(apiKey)]: creates the record when absent and backfills a
    missing [credentialBonuses]; returns the stored record. *)
Definition ensureUserData (now : Z) (apiKey : string) (st : UserDataStore)
  : UserData * UserDataStore :=
  let st1 :=
    match users st !! apiKey with
    | Some _ => st
    | None =>
      markDirty (setUser apiKey
        {| credentials := []; credentialBonuses := Some []; userCreatedAt := now;
           migratedFrom := None; migratedAt := None |} st)
    end in
  match users st1 !! apiKey with
  | Some u =>
    match credentialBonuses u with
    | Some _ => (u, st1)
    | None => let u' := withBonuses [] u in (u', markDirty (setUser apiKey u' st1))
    end
  | None => (* not reached: the record was just stored *)
    ({| credentials := []; credentialBonuses := Some []; userCreatedAt := now;
        migratedFrom := None; migratedAt := None |}, st1)
  end.

(** [Array.prototype.findIndex]: [None] stands for [-1]. *)
Fixpoint findIndex {A : Type} (f : A -> bool) (l : list A) : option nat :=
  match l with
  | [] => None
  | x :: r => if f x then Some 0%nat else S <$> findIndex f r
  end.

(** The argument of [addUserCredential]; [provider] and [authMethod] are optional. *)
Record CredentialInfo := mkCredentialInfo {
  infoPath : string;
  infoProvider : option string;
  infoAuthMethod : option string
}.

(** [s || d] on an optional string: absent and empty both give [d]. *)
Definition strOr (s : option string) (d : string) : string :=
  match s with
  | Some x => if String.eqb x "" then d else x
  | None => d
  end.

(** [addUserCredential(apiKey, credentialInfo)].  [freshId] is the identifier
    the call generates from the clock and the random source. *)
Definition addUserCredential (now : Z) (freshId : string) (apiKey : string)
    (credentialInfo : CredentialInfo) (st : UserDataStore)
  : Credential * UserDataStore :=
  let '(userData, st) := ensureUserData now apiKey st in
  let existingIndex :=
    findIndex (fun c => String.eqb (path c) (infoPath credentialInfo)) (credentials userData) in
  let credential :=
    {| credId := freshId; path := infoPath credentialInfo;
       provider := strOr (infoProvider credentialInfo) "claude-kiro-oauth";
       authMethod := strOr (infoAuthMethod credentialInfo) "unknown";
       addedAt := now |} in
  match existingIndex with
  | Some i =>
    match credentials userData !! i with
    | Some old =>
      let credential :=
        {| credId := credId old; path := path credential; provider := provider credential;
           authMethod := authMethod credential; addedAt := addedAt old |} in
      (credential,
       markDirty (setUser apiKey (withCredentials (<[i := credential]> (credentials userData)) userData) st))
    | None => (credential, markDirty st) (* not reached: the index was just found *)
    end
  | None =>
    (credential,
     markDirty (setUser apiKey (withCredentials (credentials userData ++ [credential]) userData) st))
  end.

(** [removeUserCredential(apiKey, credentialId)]. *)
Definition removeUserCredential (apiKey : string) (credentialId : string) (st : UserDataStore)
  : bool * UserDataStore :=
  match users st !! apiKey with
  | None => (false, st)
  | Some userData =>
    match findIndex (fun c => String.eqb (credId c) credentialId) (credentials userData) with
    | None => (false, st)
    | Some index =>
      (true, markDirty (setUser apiKey (withCredentials (delete index (credentials userData)) userData) st))
    end
  end.

Definition getUserCredentials (apiKey : string) (st : UserDataStore) : list Credential :=
  match users st !! apiKey with
  | Some userData => credentials userData
  | None => []
  end.

(** [isCredentialPathUsed(credPath)]: the owner found, if any.  When several
    users hold the path the source reports the first in insertion order of
    the users object; here it is the first in the enumeration of the map. *)
Definition isCredentialPathUsed (credPath : string) (st : UserDataStore) : option string :=
  fst <$> List.find
    (fun e : string * UserData =>
       existsb (fun c => String.eqb (path c) credPath) (credentials (snd e)))
    (map_to_list (users st)).

(** [migrateUserCredentials(oldApiKey, newApiKey)]. *)
Definition migrateUserCredentials (now : Z) (oldApiKey newApiKey : string) (st : UserDataStore)
  : bool * UserDataStore :=
  match users st !! oldApiKey with
  | None => (false, st)
  | Some oldUserData =>
    let moved :=
      {| credentials := credentials oldUserData;
         credentialBonuses := credentialBonuses oldUserData;
         userCreatedAt := userCreatedAt oldUserData;
         migratedFrom := Some (String.substring 0 12 oldApiKey ++ "...")%string;
         migratedAt := Some now |} in
    (true,
     markDirty {| config := config st;
                  users := delete oldApiKey (<[newApiKey := moved]> (users st));
                  isDirty := isDirty st |})
  end.

(** *** Bonus grants *)

(** [calculateExpiresAt(grantedAt)], in milliseconds. *)
Definition calculateExpiresAt (st : UserDataStore) (granted : Z) : Z :=
  granted + getBonusValidityDays st * 24 * 60 * 60 * 1000.

(** [isBonusExpired(bonus)]: [new Date() > expiresAt]. *)
Definition isBonusExpired (st : UserDataStore) (now : Z) (bonus : Bonus) : bool :=
  calculateExpiresAt st (grantedAt bonus) <? now.

Definition withUsedCount (v : Z) (b : Bonus) : Bonus :=
  {| credentialId := credentialId b; grantedAt := grantedAt b; usedCount := v |}.

(** [addCredentialBonus(apiKey, credentialId)]. *)
Definition addCredentialBonus (now : Z) (apiKey : string) (cid : string) (st : UserDataStore)
  : Bonus * UserDataStore :=
  let '(userData, st) := ensureUserData now apiKey st in
  let bonuses := default [] (credentialBonuses userData) in
  match List.find (fun b => String.eqb (credentialId b) cid) bonuses with
  | Some existing => (existing, st)
  | None =>
    let bonus := {| credentialId := cid; grantedAt := now; usedCount := 0 |} in
    (bonus, markDirty (setUser apiKey (withBonuses (bonuses ++ [bonus]) userData) st))
  end.

(** [removeCredentialBonus(apiKey, credentialId)]. *)
Definition removeCredentialBonus (apiKey : string) (cid : string) (st : UserDataStore)
  : bool * UserDataStore :=
  match users st !! apiKey with
  | None => (false, st)
  | Some userData =>
    match credentialBonuses userData with
    | None => (false, st)
    | Some bonuses =>
      match findIndex (fun b => String.eqb (credentialId b) cid) bonuses with
      | None => (false, st)
      | Some index =>
        (true, markDirty (setUser apiKey (withBonuses (delete index bonuses) userData) st))
      end
    end
  end.

(** *** Consumption

    [filter] and [sort] build a new array that holds the very objects of the
    stored array, so [bonus.usedCount += 1] on an element of the sorted copy
    updates the stored grant.  Each element of the copy is therefore carried
    with its position in the stored array, and the increment is an update of
    the stored array at that position. *)

Fixpoint indexedFrom {A : Type} (i : nat) (l : list A) : list (nat * A) :=
  match l with
  | [] => []
  | x :: r => (i, x) :: indexedFrom (S i) r
  end.

(** One insertion step of a stable ascending sort on [grantedAt]
    (the comparator is [new Date(a.grantedAt) - new Date(b.grantedAt)]). *)
Fixpoint insertByGrantedAt (x : nat * Bonus) (l : list (nat * Bonus)) : list (nat * Bonus) :=
  match l with
  | [] => [x]
  | y :: r =>
    if grantedAt (snd x) <=? grantedAt (snd y) then x :: y :: r
    else y :: insertByGrantedAt x r
  end.

(** [Array.prototype.sort] is stable; so is this insertion sort, and a stable
    sort by a total preorder has a single result. *)
Definition sortByGrantedAt (l : list (nat * Bonus)) : list (nat * Bonus) :=
  foldr insertByGrantedAt [] l.

(** [userData.credentialBonuses.filter(b => !isBonusExpired(b))]. *)
Definition liveGrants (st : UserDataStore) (now : Z) (bonuses : list Bonus)
  : list (nat * Bonus) :=
  List.filter (fun e => negb (isBonusExpired st now (snd e))) (indexedFrom 0 bonuses).

(** [sortedBonuses]: the non-expired grants, oldest first. *)
Definition sortedBonuses (st : UserDataStore) (now : Z) (bonuses : list Bonus)
  : list (nat * Bonus) :=
  sortByGrantedAt (liveGrants st now bonuses).

(** The [for] loop of [consumeBonus]: the first grant with [remaining > 0]. *)
Definition firstWithRemaining (perCredential : Z) (l : list (nat * Bonus)) : option (nat * Bonus) :=
  List.find (fun e => 0 <? perCredential - usedCount (snd e)) l.

(** The function passed to [bonusMutex.runExclusive] by [consumeBonus]. *)
Definition consumeBonusBody (now : Z) (apiKey : string) (st : UserDataStore)
  : bool * UserDataStore :=
  match users st !! apiKey with
  | None => (false, st)
  | Some userData =>
    match credentialBonuses userData with
    | None => (false, st)
    | Some bonuses =>
      match firstWithRemaining (getBonusPerCredential st) (sortedBonuses st now bonuses) with
      | Some (i, bonus) =>
        (true,
         markDirty (setUser apiKey
           (withBonuses (<[i := withUsedCount (usedCount bonus + 1) bonus]> bonuses) userData) st))
      | None => (false, st)
      end
    end
  end.

(** [consumeBonus(apiKey)] run on its own: the mutex is free, so
    [runExclusive] acquires it, runs the body and releases it.  The
    interleaving of several calls is the subject of [Concurrency]. *)
Definition consumeBonus (now : Z) (apiKey : string) (st : UserDataStore)
  : bool * UserDataStore :=
  consumeBonusBody now apiKey st.

(** The loop body of [calculateBonusRemaining], as the amount one grant adds. *)
Definition bonusContribution (st : UserDataStore) (now : Z)
    (healthyCredentialIds : option (gset string)) (bonus : Bonus) : Z :=
  if isBonusExpired st now bonus then 0
  else if match healthyCredentialIds with
          | Some ids => negb (bool_decide (credentialId bonus ∈ ids))
          | None => false
          end then 0
  else
    let remaining := getBonusPerCredential st - usedCount bonus in
    if 0 <? remaining then remaining else 0.

(** [calculateBonusRemaining(apiKey, healthyCredentialIds)]. *)
Definition calculateBonusRemaining (now : Z) (apiKey : string)
    (healthyCredentialIds : option (gset string)) (st : UserDataStore) : Z :=
  match users st !! apiKey with
  | None => 0
  | Some userData =>
    match credentialBonuses userData with
    | None => 0
    | Some bonuses =>
      fold_left (fun total bonus => total + bonusContribution st now healthyCredentialIds bonus)
        bonuses 0
    end
  end.

(** *** Reconciliation *)

(** An element of [credentialsWithHealth]: [isHealthy] is [true], [false] or
    [null]; [addedAt] may be missing. *)
Record CredentialHealth := mkCredentialHealth {
  healthId : string;
  isHealthy : option bool;
  healthAddedAt : option Z
}.

Definition isHealthyTrue (c : CredentialHealth) : bool :=
  match isHealthy c with Some true => true | _ => false end.

Definition healthyIdsOf (credentialsWithHealth : list CredentialHealth) : gset string :=
  list_to_set (map healthId (List.filter isHealthyTrue credentialsWithHealth)).

(** One iteration of the first loop of [syncCredentialBonuses]: a grant for a
    healthy credential that has none; [added] counts them. *)
Definition addMissingStep (now : Z) (acc : list Bonus * Z) (cred : CredentialHealth)
  : list Bonus * Z :=
  let '(bonuses, added) := acc in
  if negb (isHealthyTrue cred) then acc
  else if existsb (fun b => String.eqb (credentialId b) (healthId cred)) bonuses then acc
  else
    (bonuses ++ [{| credentialId := healthId cred;
                    grantedAt := default now (healthAddedAt cred);
                    usedCount := 0 |}],
     added + 1).

Definition addMissingBonuses (now : Z) (credentialsWithHealth : list CredentialHealth)
    (bonuses : list Bonus) : list Bonus * Z :=
  fold_left (addMissingStep now) credentialsWithHealth (bonuses, 0).

(** [Array.prototype.indexOf] on the grants.  The source compares object
    identity; every grant it looks up is an element of the array, and grants
    that are equal field by field are treated alike by the removal test, so
    looking up by value removes the same grants. *)
Fixpoint indexOf (b : Bonus) (l : list Bonus) : option nat :=
  match l with
  | [] => None
  | x :: r => if bool_decide (x = b) then Some 0%nat else S <$> indexOf b r
  end.

(** One iteration of the second loop: [splice(idx, 1)] when the grant is found. *)
Definition removeStep (acc : list Bonus * Z) (bonus : Bonus) : list Bonus * Z :=
  let '(bonuses, removed) := acc in
  match indexOf bonus bonuses with
  | Some idx => (delete idx bonuses, removed + 1)
  | None => acc
  end.

(** The second loop: grants whose credential is not in [healthyIds] are spliced out. *)
Definition removeUnhealthyBonuses (healthyIds : gset string) (bonuses : list Bonus)
  : list Bonus * Z :=
  let toRemove := List.filter (fun b => negb (bool_decide (credentialId b ∈ healthyIds))) bonuses in
  fold_left removeStep toRemove (bonuses, 0).

Record SyncResult := mkSyncResult {
  added : Z;
  removed : Z;
  syncBonusRemaining : Z
}.

(** [syncCredentialBonuses(apiKey, credentialsWithHealth)]. *)
Definition syncCredentialBonuses (now : Z) (apiKey : string)
    (credentialsWithHealth : list CredentialHealth) (st : UserDataStore)
  : SyncResult * UserDataStore :=
  let '(userData, st) := ensureUserData now apiKey st in
  let healthyIds := healthyIdsOf credentialsWithHealth in
  let '(bonuses, added) :=
    addMissingBonuses now credentialsWithHealth (default [] (credentialBonuses userData)) in
  let '(bonuses, removed) := removeUnhealthyBonuses healthyIds bonuses in
  let expiredCount := Z.of_nat (length (List.filter (isBonusExpired st now) bonuses)) in
  let bonuses := List.filter (fun b => negb (isBonusExpired st now b)) bonuses in
  let st := setUser apiKey (withBonuses bonuses userData) st in
  let st := if (0 <? added) || (0 <? removed) || (0 <? expiredCount) then markDirty st else st in
  let bonusRemaining := calculateBonusRemaining now apiKey (Some healthyIds) st in
  ({| added := added; removed := removed; syncBonusRemaining := bonusRemaining |}, st).

End UserDataManager.

(** ** index.js: the usage hook *)
Module Plugin.
Import KeyManager UserDataManager.

(** The callback the hook passes to [incrementUsage]:
    [async (apiKey) => { await consumeBonus(apiKey); }].
    The boolean [consumeBonus] returns is dropped. *)
Definition bonusCallback (now : Z) (apiKey : string) (us : UserDataStore) : UserDataStore :=
  snd (consumeBonus now apiKey us).

(** [recordUsage]: [incrementUsage] invoked with the [consumeBonus] callback. *)
Definition recordUsage (today : string) (now : Z) (apiKey : string)
    (ks : KeyStore) (us : UserDataStore)
  : option UsageResult * KeyStore * UserDataStore :=
  incrementUsage today now apiKey (Some (bonusCallback now)) ks us.

(** [hooks.onContentGenerated(config)]: nothing happens without a
    (non-empty) [config.potluckApiKey]; the result of [incrementUsage] is dropped. *)
Definition onContentGenerated (today : string) (now : Z) (potluckApiKey : option string)
    (ks : KeyStore) (us : UserDataStore) : KeyStore * UserDataStore :=
  match potluckApiKey with
  | Some apiKey =>
    if String.eqb apiKey "" then (ks, us)
    else let '(_, ks', us') := recordUsage today now apiKey ks us in (ks', us')
  | None => (ks, us)
  end.

End Plugin.

(** ** SimpleMutex and concurrent [consumeBonus] calls

    The runtime is a single-threaded event loop: a call runs until its next
    [await], and the continuations that are ready run one at a time in an
    order this model leaves open.  A call of [consumeBonus] goes through
    [bonusMutex.runExclusive], whose text has two suspension points:
    [await this.acquire()] and [await fn()].  The function [fn] passed by
    [consumeBonus] contains no [await], so it runs in one piece. *)
Module Concurrency.
Import UserDataManager.

(** [_waiting] holds the [resolve] functions of pending [acquire()] promises;
    each is named by the call that waits on it. *)
Record SimpleMutex := mkMutex {
  locked : bool;
  waiting : list nat
}.

(** Where a call of [consumeBonus] stands. *)
Inductive Phase :=
| NotStarted                (* not called yet *)
| Waiting                   (* at [await this.acquire()], promise pending *)
| Acquired                  (* at [await this.acquire()], promise resolved *)
| Ran (result : bool)       (* at [await fn()], [fn] has returned [result] *)
| Returned (result : bool). (* [release()] done, the call has returned *)

(** [acquire()], called by task [t]: whether its promise is resolved at once. *)
Definition acquire (t : nat) (m : SimpleMutex) : SimpleMutex * bool :=
  if locked m then ({| locked := locked m; waiting := waiting m ++ [t] |}, false)
  else ({| locked := true; waiting := waiting m |}, true).

(** [release()]: the waiter whose promise gets resolved, if any. *)
Definition release (m : SimpleMutex) : SimpleMutex * option nat :=
  match waiting m with
  | next :: rest => ({| locked := locked m; waiting := rest |}, Some next)
  | [] => ({| locked := false; waiting := [] |}, None)
  end.

Record World := mkWorld {
  store : UserDataStore;
  bonusMutex : SimpleMutex;
  tasks : list Phase
}.

(** One turn of the event loop given to call [t] of [consumeBonus(apiKey)],
    with [now] the clock reading during the turn.  [None]: the call has
    nothing to run (it waits for the mutex, has returned, or does not exist). *)
Definition step (apiKey : string) (t : nat) (now : Z) (w : World) : option World :=
  match tasks w !! t with
  | Some NotStarted =>
    let '(m, resolved) := acquire t (bonusMutex w) in
    Some {| store := store w; bonusMutex := m;
            tasks := <[t := if resolved then Acquired else Waiting]> (tasks w) |}
  | Some Acquired =>
    let '(result, st) := consumeBonusBody now apiKey (store w) in
    Some {| store := st; bonusMutex := bonusMutex w; tasks := <[t := Ran result]> (tasks w) |}
  | Some (Ran result) =>
    let '(m, next) := release (bonusMutex w) in
    let ts := <[t := Returned result]> (tasks w) in
    Some {| store := store w; bonusMutex := m;
            tasks := match next with Some n => <[n := Acquired]> ts | None => ts end |}
  | _ => None
  end.

(** A schedule: which call runs next and what the clock shows.  A turn given
    to a call that cannot run leaves the world as it is. *)
Fixpoint run (apiKey : string) (schedule : list (nat * Z)) (w : World) : World :=
  match schedule with
  | [] => w
  | (t, now) :: rest => run apiKey rest (default w (step apiKey t now w))
  end.

(** [N] calls issued against a free mutex. *)
Definition initial (N : nat) (st : UserDataStore) : World :=
  {| store := st; bonusMutex := {| locked := false; waiting := [] |};
     tasks := replicate N NotStarted |}.

Definition hasReturned (p : Phase) : bool :=
  match p with Returned _ => true | _ => false end.

Definition allReturned (w : World) : bool := forallb hasReturned (tasks w).

Definition returnedTrue (p : Phase) : bool :=
  match p with Returned true => true | _ => false end.

(** The number of calls that returned [true]. *)
Definition successes (w : World) : nat := length (List.filter returnedTrue (tasks w)).

End Concurrency.

(** ** Sample data used by the worked examples *)
Module Samples.
Import KeyManager UserDataManager.

Definition sampleKey (used limit : Z) (date : string) (on : bool) (bonus : option Z) : ApiKey :=
  {| keyId := "maki_0001"; keyName := "Key-1"; createdAt := 0;
     dailyLimit := limit; todayUsage := used; totalUsage := 42;
     lastResetDate := date; lastUsedAt := None; enabled := on;
     bonusRemaining := bonus |}.

Definition otherKey : ApiKey :=
  {| keyId := "maki_0002"; keyName := "Key-2"; createdAt := 0;
     dailyLimit := 500; todayUsage := 7; totalUsage := 40;
     lastResetDate := "2024-05-01"; lastUsedAt := None; enabled := true;
     bonusRemaining := Some 0 |}.

Definition keyStoreOf (k : ApiKey) : KeyStore :=
  {| KeyManager.keys := <["maki_0001" := k]> {["maki_0002" := otherKey]};
     KeyManager.isDirty := false |}.

Definition day : Z := 24 * 60 * 60 * 1000.

Definition sampleConfig (perCredential : Z) : Config :=
  {| defaultDailyLimit := None; bonusPerCredential := Some perCredential;
     bonusValidityDays := Some 30; persistInterval := None |}.

(** A store with the single user [maki_0001], no credentials and the given grants. *)
Definition ledgerOf (perCredential : Z) (bonuses : list Bonus) : UserDataStore :=
  {| config := sampleConfig perCredential;
     users := {["maki_0001" :=
                 {| credentials := []; credentialBonuses := Some bonuses;
                    userCreatedAt := 0; migratedFrom := None; migratedAt := None |}]};
     UserDataManager.isDirty := false |}.

Definition grantOld : Bonus := {| credentialId := "cred_a"; grantedAt := 0; usedCount := 0 |}.
Definition grantG1 : Bonus := {| credentialId := "cred_b"; grantedAt := 40 * day; usedCount := 0 |}.
Definition grantG2 : Bonus := {| credentialId := "cred_c"; grantedAt := 50 * day; usedCount := 0 |}.

End Samples.

(** ** Observations and call sequences used to state the properties *)
Module Scenarios.
Import UserDataManager.

(** The grant stored at position [i] of a user's [credentialBonuses]. *)
Definition grantAt (apiKey : string) (i : nat) (st : UserDataStore) : option Bonus :=
  match users st !! apiKey with
  | Some userData =>
    match credentialBonuses userData with
    | Some bonuses => bonuses !! i
    | None => None
    end
  | None => None
  end.

(** The grants of a user ([[]] when there is none). *)
Definition grantsOf (apiKey : string) (st : UserDataStore) : list Bonus :=
  match users st !! apiKey with
  | Some userData => default [] (credentialBonuses userData)
  | None => []
  end.

(** [consumeBonus(apiKey)] called once per clock reading of [nows], one call
    after the other: the results, in order, and the final store. *)
Fixpoint consumeMany (nows : list Z) (apiKey : string) (st : UserDataStore)
  : list bool * UserDataStore :=
  match nows with
  | [] => ([], st)
  | now :: rest =>
    let '(ok, st1) := consumeBonus now apiKey st in
    let '(oks, st2) := consumeMany rest apiKey st1 in
    (ok :: oks, st2)
  end.

(** A user's ledger in which, at every clock reading in [P], the unexpired
    grants are exactly [G1] at position [i1] and [G2] at position [i2], with
    [u1] and [u2] units used; the configuration is that of [st0]. *)
Definition TwoGrants (st0 : UserDataStore) (apiKey : string) (i1 i2 : nat) (G1 G2 : Bonus)
    (P : Z -> Prop) (u1 u2 : Z) (st : UserDataStore) : Prop :=
  config st = config st0
  /\ exists u bs,
       users st !! apiKey = Some u /\ credentialBonuses u = Some bs
       /\ bs !! i1 = Some (withUsedCount u1 G1)
       /\ bs !! i2 = Some (withUsedCount u2 G2)
       /\ forall now, P now ->
            liveGrants st now bs ≡ₚ [(i1, withUsedCount u1 G1); (i2, withUsedCount u2 G2)].

(** The same with a single unexpired grant [G] at position [i]. *)
Definition OneGrant (st0 : UserDataStore) (apiKey : string) (i : nat) (G : Bonus)
    (P : Z -> Prop) (used : Z) (st : UserDataStore) : Prop :=
  config st = config st0
  /\ exists u bs,
       users st !! apiKey = Some u /\ credentialBonuses u = Some bs
       /\ bs !! i = Some (withUsedCount used G)
       /\ forall now, P now -> liveGrants st now bs = [(i, withUsedCount used G)].

(** Writing a grant that differs from the stored one only in [usedCount]
    changes the indexed array at that position only. *)
Definition bumpAt (i : nat) (v : Z) (e : nat * Bonus) : nat * Bonus :=
  if Nat.eqb (fst e) i then (fst e, withUsedCount v (snd e)) else e.

(** Units used of the older and of the younger of two grants of capacity [C]
    after [t] calls of [consumeBonus]. *)
Definition usedOfFirst (C t : Z) : Z := Z.max 0 (Z.min t C).
Definition usedOfSecond (C t : Z) : Z := Z.max 0 (Z.min (t - C) C).

(** The public credential operations. *)
Inductive CredentialOp :=
| OpAdd (now : Z) (freshId : string) (apiKey : string) (info : CredentialInfo)
| OpRemove (apiKey : string) (credentialId : string)
| OpMigrate (now : Z) (oldApiKey newApiKey : string).

Definition applyOp (op : CredentialOp) (st : UserDataStore) : UserDataStore :=
  match op with
  | OpAdd now freshId apiKey info => snd (addUserCredential now freshId apiKey info st)
  | OpRemove apiKey cid => snd (removeUserCredential apiKey cid st)
  | OpMigrate now old new => snd (migrateUserCredentials now old new st)
  end.

Definition applyOps (ops : list CredentialOp) (st : UserDataStore) : UserDataStore :=
  fold_left (fun s op => applyOp op s) ops st.

(** The store right after loading when no data file exists. *)
Definition emptyStore : UserDataStore :=
  {| config := {| defaultDailyLimit := None; bonusPerCredential := None;
                  bonusValidityDays := None; persistInterval := None |};
     users := ∅; isDirty := false |}.

(** Whether some user other than [apiKey] holds a credential with this path. *)
Definition heldByAnother (apiKey : string) (credPath : string) (st : UserDataStore) : Prop :=
  exists other userData c,
    other <> apiKey /\ users st !! other = Some userData
    /\ c ∈ credentials userData /\ path c = credPath.

(** No two distinct users hold a credential with the same path. *)
Definition pathsGloballyUnique (st : UserDataStore) : Prop :=
  forall a1 a2 u1 u2 c1 c2,
    users st !! a1 = Some u1 -> users st !! a2 = Some u2 ->
    c1 ∈ credentials u1 -> c2 ∈ credentials u2 ->
    path c1 = path c2 -> a1 = a2.

(** The states reached from the empty store by the credential operations,
    when every [addUserCredential] is given a path that no other user holds. *)
Inductive reachableGuarded : UserDataStore -> Prop :=
| reach_empty : reachableGuarded emptyStore
| reach_add st now freshId apiKey info :
    reachableGuarded st ->
    ~ heldByAnother apiKey (infoPath info) st ->
    reachableGuarded (applyOp (OpAdd now freshId apiKey info) st)
| reach_remove st apiKey cid :
    reachableGuarded st ->
    reachableGuarded (applyOp (OpRemove apiKey cid) st)
| reach_migrate st now old new :
    reachableGuarded st ->
    reachableGuarded (applyOp (OpMigrate now old new) st).

End Scenarios.

(** ** Shapes of the worlds reached by concurrent calls *)
Module Interleavings.
Import UserDataManager Scenarios Concurrency.

Definition countIf {A : Type} (f : A -> bool) (l : list A) : nat := length (List.filter f l).

(** [fn] has run for this call. *)
Definition hasRun (p : Phase) : bool :=
  match p with Ran _ | Returned _ => true | _ => false end.

(** [fn] has run for this call and returned [true]. *)
Definition ranTrue (p : Phase) : bool :=
  match p with Ran true | Returned true => true | _ => false end.

(** The call stands between its [acquire()] and its [release()]. *)
Definition holdsLock (p : Phase) : bool :=
  match p with Acquired | Ran _ => true | _ => false end.

(** Turns of the event loop a call may still take or wait for. *)
Definition weight (p : Phase) : nat :=
  match p with
  | NotStarted => 4
  | Waiting => 3
  | Acquired => 2
  | Ran _ => 1
  | Returned _ => 0
  end.

Definition totalWeight (w : World) : nat := foldr (fun p n => (weight p + n)%nat) 0%nat (tasks w).

(** What holds of every world reached by [N] calls against a user whose only
    unexpired grant, at the clock readings in [P], is [G] at position [i]. *)
Record WorldInv (st0 : UserDataStore) (apiKey : string) (i : nat) (G : Bonus)
    (P : Z -> Prop) (N : nat) (w : World) : Prop := mkWorldInv {
  inv_len : length (tasks w) = N;
  inv_grant : OneGrant st0 apiKey i G P (Z.of_nat (countIf ranTrue (tasks w))) (store w);
  inv_count : Z.of_nat (countIf ranTrue (tasks w))
              = Z.min (Z.of_nat (countIf hasRun (tasks w))) (getBonusPerCredential st0);
  inv_queue : forall n, n ∈ waiting (bonusMutex w) <-> tasks w !! n = Some Waiting;
  inv_nodup : NoDup (waiting (bonusMutex w));
  inv_free : locked (bonusMutex w) = false -> waiting (bonusMutex w) = [];
  inv_held : locked (bonusMutex w) = true ->
             exists t p, tasks w !! t = Some p /\ holdsLock p = true
}.

End Interleavings.

From stdpp Require pretty.

(** ** key-manager.js: key lifecycle and statistics *)
Module KeyAdmin.
Import KeyManager.

(** The object [getConfig()] returns to the key manager: the injected getter's
    result, whose fields may be missing. *)
Record KeyConfig := mkKeyConfig {
  cfgDefaultDailyLimit : option Z;
  cfgPersistInterval : option Z
}.

Definition DEFAULT_CONFIG : KeyConfig :=
  {| cfgDefaultDailyLimit := Some 500; cfgPersistInterval := Some 5000 |}.

(** [getConfig()]: [configGetter] is [null] until [setConfigGetter] is called. *)
Definition getConfig (configGetter : option KeyConfig) : KeyConfig :=
  match configGetter with
  | Some c => c
  | None => DEFAULT_CONFIG
  end.

Definition maxAttempts : nat := 10.

(** The [do ... while] loop of [generateApiKey()].  [draws n] is the [n]-th
    value of [crypto.randomBytes(16).toString('hex')]; [None] is the thrown
    error.  The loop ends within [maxAttempts] rounds, which bounds [rounds]. *)
Fixpoint generateLoop (draws : nat -> string) (st : KeyStore) (attempts rounds : nat)
  : option string :=
  match rounds with
  | O => None
  | S rounds =>
    let apiKey := (KEY_PREFIX ++ draws attempts)%string in
    let attempts := S attempts in
    if (maxAttempts <=? attempts)%nat then None
    else match keys st !! apiKey with
         | Some _ => generateLoop draws st attempts rounds
         | None => Some apiKey
         end
  end.

Definition generateApiKey (draws : nat -> string) (st : KeyStore) : option string :=
  generateLoop draws st 0 maxAttempts.

(** [createKey(name, dailyLimit)]; [None] when [generateApiKey] throws. *)
Definition createKey (draws : nat -> string) (today : string) (now : Z)
    (configGetter : option KeyConfig) (name : string) (dailyLimit : option Z)
    (st : KeyStore) : option (ApiKey * KeyStore) :=
  let config := getConfig configGetter in
  let actualDailyLimit :=
    match dailyLimit with
    | Some l => l
    | None => default 500 (cfgDefaultDailyLimit config)
    end in
  match generateApiKey draws st with
  | None => None
  | Some apiKey =>
    let keyData :=
      {| keyId := apiKey;
         keyName := if String.eqb name "" then ("Key-" ++ pretty.pretty (S (size (keys st))))%string
                    else name;
         createdAt := now; dailyLimit := actualDailyLimit;
         todayUsage := 0; totalUsage := 0; lastResetDate := today;
         lastUsedAt := None; enabled := true; bonusRemaining := Some 0 |} in
    Some (keyData, markDirty (setKey apiKey keyData st))
  end.

(** [getKey(keyId)]: the lazy reset is applied to a copy. *)
Definition getKey (today : string) (apiKey : string) (st : KeyStore) : option ApiKey :=
  checkAndResetDailyCount today <$> keys st !! apiKey.


Definition withDailyLimit (v : Z) (k : ApiKey) : ApiKey :=
  {| keyId := keyId k; keyName := keyName k; createdAt := createdAt k;
     dailyLimit := v; todayUsage := todayUsage k; totalUsage := totalUsage k;
     lastResetDate := lastResetDate k; lastUsedAt := lastUsedAt k;
     enabled := enabled k; bonusRemaining := bonusRemaining k |}.


Definition withName (v : string) (k : ApiKey) : ApiKey :=
  {| keyId := keyId k; keyName := v; createdAt := createdAt k;
     dailyLimit := dailyLimit k; todayUsage := todayUsage k; totalUsage := totalUsage k;
     lastResetDate := lastResetDate k; lastUsedAt := lastUsedAt k;
     enabled := enabled k; bonusRemaining := bonusRemaining k |}.


(** The shape shared by the setters: [null] for a missing key, else the
    stored record after the update. *)
Definition updateStored (f : ApiKey -> ApiKey) (apiKey : string) (st : KeyStore)
  : option ApiKey * KeyStore :=
  match keys st !! apiKey with
  | None => (None, st)
  | Some keyData => (Some (f keyData), markDirty (setKey apiKey (f keyData) st))
  end.

(** [updateKeyLimit(keyId, newLimit)]. *)
Definition updateKeyLimit (apiKey : string) (newLimit : Z) (st : KeyStore)
  : option ApiKey * KeyStore :=
  updateStored (withDailyLimit newLimit) apiKey st.

(** [resetKeyUsage(keyId)]. *)
Definition resetKeyUsage (today : string) (apiKey : string) (st : KeyStore)
  : option ApiKey * KeyStore :=
  updateStored
    (fun k => {| keyId := keyId k; keyName := keyName k; createdAt := createdAt k;
                 dailyLimit := dailyLimit k; todayUsage := 0; totalUsage := totalUsage k;
                 lastResetDate := today; lastUsedAt := lastUsedAt k;
                 enabled := enabled k; bonusRemaining := bonusRemaining k |})
    apiKey st.


(** [updateKeyName(keyId, newName)]. *)
Definition updateKeyName (apiKey : string) (newName : string) (st : KeyStore)
  : option ApiKey * KeyStore :=
  updateStored (withName newName) apiKey st.



Record Stats := mkStats {
  totalKeys : Z;
  enabledKeys : Z;
  disabledKeys : Z;
  todayTotalUsage : Z;
  statsTotalUsage : Z
}.

(** One round of the loop of [getStats()] on the counters
    [(enabledKeys, todayTotalUsage, totalUsage)]; the key is reset first. *)
Definition statsStep (today : string) (acc : Z * Z * Z) (key : ApiKey) : Z * Z * Z :=
  let '(enabledKeys, todayTotalUsage, totalUsage') := acc in
  let key := checkAndResetDailyCount today key in
  ((if enabled key then enabledKeys + 1 else enabledKeys),
   todayTotalUsage + todayUsage key,
   totalUsage' + totalUsage key).

(** [getStats()].  The loop resets every stored key in place; the counters
    are sums, so the order in which [Object.values] lists the keys does not
    matter and the enumeration of the map is used. *)
Definition getStats (today : string) (st : KeyStore) : Stats * KeyStore :=
  let values := map snd (map_to_list (keys st)) in
  let '(enabledKeys, todayTotalUsage, totalUsage') :=
    fold_left (statsStep today) values (0, 0, 0) in
  let total := Z.of_nat (length values) in
  ({| totalKeys := total; enabledKeys := enabledKeys;
      disabledKeys := total - enabledKeys;
      todayTotalUsage := todayTotalUsage; statsTotalUsage := totalUsage' |},
   {| keys := checkAndResetDailyCount today <$> keys st; isDirty := isDirty st |}).


(** [incrementUsage(apiKey)] called [n] times in a row on the same day
    without a callback: the results in order and the final store. *)
Fixpoint incrementMany (today : string) (now : Z) (apiKey : string) (n : nat) (st : KeyStore)
  : list (option UsageResult) * KeyStore :=
  match n with
  | O => ([], st)
  | S n =>
    let '(r, st1, _) := incrementUsage (L := unit) today now apiKey None st tt in
    let '(rs, st2) := incrementMany today now apiKey n st1 in
    (r :: rs, st2)
  end.

End KeyAdmin.

(** ** user-data-manager.js: configuration, lookups and details *)
Module UserDataAdmin.
Import UserDataManager.




(** [findCredentialByPath(apiKey, credPath)]. *)
Definition findCredentialByPath (apiKey : string) (credPath : string) (st : UserDataStore)
  : option Credential :=
  match users st !! apiKey with
  | None => None
  | Some userData =>
    List.find (fun c => String.eqb (path c) credPath) (credentials userData)
  end.




End UserDataAdmin.

(** ** api-routes.js: reconciliation of one user *)
Module HealthSync.
Import KeyManager UserDataManager.

(** [checkUserCredentialsHealth(apiKey)].  [health c] is the [isHealthy]
    value that [syncCredentialHealthFromPool] reports for the credential [c]
    ([null] also when that call throws); it comes from the provider pool and
    the file system.  The result is the list handed to
    [syncCredentialBonuses], with the two stores. *)
Definition checkUserCredentialsHealth (health : Credential -> option bool) (now : Z)
    (apiKey : string) (ks : KeyStore) (us : UserDataStore)
  : list CredentialHealth * KeyStore * UserDataStore :=
  let credentials := getUserCredentials apiKey us in
  let results :=
    map (fun c => {| healthId := credId c; isHealthy := health c;
                     healthAddedAt := Some (addedAt c) |}) credentials in
  let '(bonusSync, us') := syncCredentialBonuses now apiKey results us in
  let '(_, ks') := updateBonusRemaining apiKey (syncBonusRemaining bonusSync) ks in
  (results, ks', us').

End HealthSync.

(** ** index.js: authentication by a potluck key *)
Module PotluckAuth.
Import KeyManager.






End PotluckAuth.

(** ** The built-in default authentication plugin *)
Module DefaultAuth.

(** The parts of a request [isAuthorized] reads.  A missing header is
    [undefined] and a missing query parameter is [null]; both are [None]
    here, and the comparison with the required key tells them apart below. *)
Record Request := mkRequest {
  authorization : option string;
  queryKey : option string;
  xGoogApiKey : option string;
  xApiKey : option string
}.

(** [header === requiredApiKey] for a header, which is a string or
    [undefined], against the configured key, a string or [undefined]. *)
Definition headerIs (header requiredApiKey : option string) : bool :=
  match header, requiredApiKey with
  | Some h, Some k => String.eqb h k
  | None, None => true
  | _, _ => false
  end.

(** [queryKey === requiredApiKey]: [searchParams.get] yields a string or
    [null], and [null] is not [undefined]. *)
Definition queryIs (query requiredApiKey : option string) : bool :=
  match query, requiredApiKey with
  | Some q, Some k => String.eqb q k
  | _, _ => false
  end.

(** The [Bearer] branch: [token === requiredApiKey] for the text after the
    seven characters of the prefix. *)
Definition bearerIs (authHeader requiredApiKey : option string) : bool :=
  match authHeader with
  | Some h =>
    if negb (String.eqb h "") && String.prefix "Bearer " h then
      match requiredApiKey with
      | Some k => String.eqb (String.substring 7 (String.length h - 7) h) k
      | None => false
      end
    else false
  | None => false
  end.

(** [isAuthorized(req, requestUrl, requiredApiKey)]. *)
Definition isAuthorized (req : Request) (requiredApiKey : option string) : bool :=
  if bearerIs (authorization req) requiredApiKey then true
  else if queryIs (queryKey req) requiredApiKey then true
  else if headerIs (xGoogApiKey req) requiredApiKey then true
  else if headerIs (xApiKey req) requiredApiKey then true
  else false.

End DefaultAuth.

(** ** api-routes.js: the two routes that regenerate a key *)
Module Routes.
Import KeyManager UserDataManager KeyAdmin.



End Routes.

(** ** Measures and invariants used to state further properties *)
Module Measures.
Import KeyManager UserDataManager Scenarios Concurrency Interleavings.

(** The sum of [f] over a list. *)
Definition sumOf {A : Type} (f : A -> Z) (l : list A) : Z :=
  foldr (fun x s => f x + s) 0 l.

(** The stored keys, in the enumeration of the map. *)
Definition storedKeys (st : KeyStore) : list ApiKey := map snd (map_to_list (keys st)).


(** At most one grant per credential in a user's ledger. *)
Definition grantIdsUnique (apiKey : string) (st : UserDataStore) : Prop :=
  List.NoDup (map credentialId (grantsOf apiKey st)).

(** The daily units and the cached bonus units a key can still serve today. *)
Definition dailyLeft (today : string) (k : ApiKey) : Z :=
  Z.max 0 (dailyLimit k - todayUsage (checkAndResetDailyCount today k)).
Definition bonusLeft (k : ApiKey) : Z := Z.max 0 (orZero (bonusRemaining k)).

(** What holds of the mutex and the calls in every world reached from
    [initial N st], whatever the store holds. *)
Record MutexInv (N : nat) (w : World) : Prop := mkMutexInv {
  mx_len : length (tasks w) = N;
  mx_queue : forall n, n ∈ waiting (bonusMutex w) <-> tasks w !! n = Some Waiting;
  mx_nodup : NoDup (waiting (bonusMutex w));
  mx_free : locked (bonusMutex w) = false -> waiting (bonusMutex w) = [];
  mx_holders : countIf holdsLock (tasks w) = if locked (bonusMutex w) then 1%nat else 0%nat
}.

End Measures.

(** ** Further sample data *)
Module MoreSamples.
Import KeyManager UserDataManager Samples.

(** Draws of the random source: thirty-two characters each, all distinct. *)
Definition sampleDraws (n : nat) : string :=
  ("0123456789abcdef0123456789abcde" ++ pretty.pretty n)%string.



End MoreSamples.

(** * Properties of the key table *)
Module KeyManagerSpec.
Import KeyManager Samples.

Lemma checkAndResetDailyCount_same_day today k :
  lastResetDate k = today -> checkAndResetDailyCount today k = k.
Proof.
  intros <-. unfold checkAndResetDailyCount.
  by rewrite String.eqb_refl.
Qed.

Lemma checkAndResetDailyCount_rollover today k :
  lastResetDate k <> today ->
  todayUsage (checkAndResetDailyCount today k) = 0
  /\ lastResetDate (checkAndResetDailyCount today k) = today.
Proof.
  intros Hne. unfold checkAndResetDailyCount.
  destruct (String.eqb_spec (lastResetDate k) today); [contradiction | done].
Qed.

Lemma checkAndResetDailyCount_date today k :
  lastResetDate (checkAndResetDailyCount today k) = today.
Proof.
  unfold checkAndResetDailyCount.
  destruct (String.eqb_spec (lastResetDate k) today); simpl; done.
Qed.

Lemma checkAndResetDailyCount_frame today k :
  let k' := checkAndResetDailyCount today k in
  keyId k' = keyId k /\ keyName k' = keyName k /\ createdAt k' = createdAt k
  /\ dailyLimit k' = dailyLimit k /\ totalUsage k' = totalUsage k
  /\ lastUsedAt k' = lastUsedAt k /\ enabled k' = enabled k
  /\ bonusRemaining k' = bonusRemaining k.
Proof.
  unfold checkAndResetDailyCount.
  destruct (negb _); simpl; repeat split.
Qed.

Lemma setKey_same apiKey k st :
  keys st !! apiKey = Some k -> setKey apiKey k st = st.
Proof.
  intros H. destruct st as [ks d]. unfold setKey; simpl in *.
  by rewrite insert_id.
Qed.

Lemma validateKey_store today apiKey st k :
  keys st !! apiKey = Some k ->
  snd (validateKey today apiKey st) = st
  \/ snd (validateKey today apiKey st) = setKey apiKey (checkAndResetDailyCount today k) st.
Proof.
  intros Hk. unfold validateKey.
  destruct (negb (String.prefix _ _)); [by left |].
  rewrite Hk. destruct (negb (enabled k)); [by left |].
  right. simpl. repeat case_match; done.
Qed.

(** C1.  The outcome of [validateKey], case by case and in the order the
    checks are made: [invalid_format] when the input lacks the [maki_]
    prefix; [not_found] when no key is stored under it; [disabled] when the
    stored key is not enabled, whatever its counters; otherwise, on the key
    as left by the lazy daily reset, valid without bonus when
    [todayUsage < dailyLimit], valid with [useBonus = true] when the daily
    quota is used up and the cached [bonusRemaining] is positive, and
    [quota_exceeded] when both are exhausted. *)
Theorem validateKey_outcome (today apiKey : string) (st : KeyStore) :
  (String.prefix KEY_PREFIX apiKey = false ->
     fst (validateKey today apiKey st) = Invalid invalid_format None)
  /\ (String.prefix KEY_PREFIX apiKey = true -> keys st !! apiKey = None ->
     fst (validateKey today apiKey st) = Invalid not_found None)
  /\ (forall k, String.prefix KEY_PREFIX apiKey = true -> keys st !! apiKey = Some k ->
     enabled k = false ->
     fst (validateKey today apiKey st) = Invalid disabled None)
  /\ (forall k, String.prefix KEY_PREFIX apiKey = true -> keys st !! apiKey = Some k ->
     enabled k = true ->
     todayUsage (checkAndResetDailyCount today k) < dailyLimit k ->
     fst (validateKey today apiKey st) = Valid (checkAndResetDailyCount today k) false None)
  /\ (forall k, String.prefix KEY_PREFIX apiKey = true -> keys st !! apiKey = Some k ->
     enabled k = true ->
     dailyLimit k <= todayUsage (checkAndResetDailyCount today k) ->
     0 < orZero (bonusRemaining k) ->
     fst (validateKey today apiKey st)
     = Valid (checkAndResetDailyCount today k) true (Some (orZero (bonusRemaining k))))
  /\ (forall k, String.prefix KEY_PREFIX apiKey = true -> keys st !! apiKey = Some k ->
     enabled k = true ->
     dailyLimit k <= todayUsage (checkAndResetDailyCount today k) ->
     orZero (bonusRemaining k) <= 0 ->
     fst (validateKey today apiKey st)
     = Invalid quota_exceeded (Some (checkAndResetDailyCount today k))).
Proof.
  unfold validateKey. repeat split.
  - intros ->. done.
  - intros -> ->. done.
  - intros k -> -> ->. done.
  - intros k -> -> -> Hlt. simpl.
    destruct (checkAndResetDailyCount_frame today k) as (_ & _ & _ & Hd & _).
    rewrite Hd. apply Z.ltb_lt in Hlt. by rewrite Hlt.
  - intros k -> -> -> Hge Hb. simpl.
    destruct (checkAndResetDailyCount_frame today k) as (_ & _ & _ & Hd & _ & _ & _ & Hbr).
    rewrite Hd, Hbr. apply Z.ltb_ge in Hge. apply Z.ltb_lt in Hb. by rewrite Hge, Hb.
  - intros k -> -> -> Hge Hb. simpl.
    destruct (checkAndResetDailyCount_frame today k) as (_ & _ & _ & Hd & _ & _ & _ & Hbr).
    rewrite Hd, Hbr. apply Z.ltb_ge in Hge. apply Z.ltb_ge in Hb. by rewrite Hge, Hb.
Qed.

Lemma validateKey_outcome_witness :
  fst (validateKey "2024-05-02" "sk-0001" (keyStoreOf (sampleKey 0 5 "2024-05-02" true None)))
    = Invalid invalid_format None
  /\ fst (validateKey "2024-05-02" "maki_0003" (keyStoreOf (sampleKey 0 5 "2024-05-02" true None)))
    = Invalid not_found None
  /\ fst (validateKey "2024-05-02" "maki_0001" (keyStoreOf (sampleKey 0 5 "2024-05-02" false (Some 9))))
    = Invalid disabled None
  /\ fst (validateKey "2024-05-02" "maki_0001" (keyStoreOf (sampleKey 5 5 "2024-05-01" true None)))
    = Valid (sampleKey 0 5 "2024-05-02" true None) false None
  /\ fst (validateKey "2024-05-02" "maki_0001" (keyStoreOf (sampleKey 5 5 "2024-05-02" true (Some 3))))
    = Valid (sampleKey 5 5 "2024-05-02" true (Some 3)) true (Some 3)
  /\ fst (validateKey "2024-05-02" "maki_0001" (keyStoreOf (sampleKey 5 5 "2024-05-02" true (Some 0))))
    = Invalid quota_exceeded (Some (sampleKey 5 5 "2024-05-02" true (Some 0))).
Proof.
  refine (conj _ (conj _ (conj _ (conj _ (conj _ _))))).
  - apply (proj1 (validateKey_outcome _ _ _)). reflexivity.
  - apply (proj1 (proj2 (validateKey_outcome _ _ _))); reflexivity.
  - apply (proj1 (proj2 (proj2 (validateKey_outcome _ _ _)))
             (sampleKey 0 5 "2024-05-02" false (Some 9))); reflexivity.
  - apply (proj1 (proj2 (proj2 (proj2
             (validateKey_outcome "2024-05-02" "maki_0001"
                (keyStoreOf (sampleKey 5 5 "2024-05-01" true None))))))
             (sampleKey 5 5 "2024-05-01" true None)); reflexivity.
  - apply (proj1 (proj2 (proj2 (proj2 (proj2
             (validateKey_outcome "2024-05-02" "maki_0001"
                (keyStoreOf (sampleKey 5 5 "2024-05-02" true (Some 3))))))))
             (sampleKey 5 5 "2024-05-02" true (Some 3))); try reflexivity.
    all: vm_compute; discriminate.
  - apply (proj2 (proj2 (proj2 (proj2 (proj2
             (validateKey_outcome "2024-05-02" "maki_0001"
                (keyStoreOf (sampleKey 5 5 "2024-05-02" true (Some 0))))))))
             (sampleKey 5 5 "2024-05-02" true (Some 0))); try reflexivity.
    all: vm_compute; discriminate.
Defined.

(** *** Lazy daily reset *)

Lemma validateKey_same_day today apiKey st k :
  keys st !! apiKey = Some k -> lastResetDate k = today ->
  snd (validateKey today apiKey st) = st.
Proof.
  intros Hk Hd.
  destruct (validateKey_store today apiKey st k Hk) as [-> | ->]; [done |].
  rewrite checkAndResetDailyCount_same_day by done.
  by apply setKey_same.
Qed.

(** C6, for the keys [validateKey] admits to its reset step.  For a stored
    key: any number of [validateKey] calls on the day recorded in
    [lastResetDate] leave the store, hence [todayUsage], as it is; and if the
    key is enabled (and carries the prefix), the first call on another day
    sets [todayUsage] to 0 and [lastResetDate] to that day, after which
    further calls that day change nothing.  The store changes only inside
    the call: the model has no other transition that resets a counter. *)
Theorem validateKey_daily_reset (today apiKey : string) (st : KeyStore) (k : ApiKey) :
  keys st !! apiKey = Some k ->
  (lastResetDate k = today ->
     forall n, Nat.iter n (fun s => snd (validateKey today apiKey s)) st = st)
  /\ (String.prefix KEY_PREFIX apiKey = true -> enabled k = true ->
      lastResetDate k <> today ->
      let st1 := snd (validateKey today apiKey st) in
      (exists k1, keys st1 !! apiKey = Some k1
                  /\ todayUsage k1 = 0 /\ lastResetDate k1 = today)
      /\ forall n, Nat.iter n (fun s => snd (validateKey today apiKey s)) st1 = st1).
Proof.
  intros Hk. split.
  - intros Hd n. induction n as [| n IH]; [done |].
    simpl. rewrite IH. by apply validateKey_same_day with k.
  - intros Hp He Hne st1.
    assert (Hst1 : st1 = setKey apiKey (checkAndResetDailyCount today k) st).
    { subst st1. unfold validateKey. rewrite Hp, Hk, He. simpl.
      repeat case_match; done. }
    assert (Hk1 : keys st1 !! apiKey = Some (checkAndResetDailyCount today k)).
    { rewrite Hst1. simpl. apply lookup_insert_eq. }
    split.
    + exists (checkAndResetDailyCount today k).
      split; [done |]. by apply checkAndResetDailyCount_rollover.
    + intros n. induction n as [| n IH]; [done |].
      simpl. rewrite IH.
      apply validateKey_same_day with (checkAndResetDailyCount today k); [done |].
      apply checkAndResetDailyCount_date.
Qed.

Lemma validateKey_daily_reset_witness :
  let st := keyStoreOf (sampleKey 5 5 "2024-05-01" true None) in
  let st1 := snd (validateKey "2024-05-02" "maki_0001" st) in
  (exists k1, keys st1 !! "maki_0001" = Some k1
              /\ todayUsage k1 = 0 /\ lastResetDate k1 = "2024-05-02")
  /\ forall n, Nat.iter n (fun s => snd (validateKey "2024-05-02" "maki_0001" s)) st1 = st1.
Proof.
  apply (proj2 (validateKey_daily_reset "2024-05-02" "maki_0001"
                  (keyStoreOf (sampleKey 5 5 "2024-05-01" true None))
                  (sampleKey 5 5 "2024-05-01" true None) eq_refl)).
  - reflexivity.
  - reflexivity.
  - discriminate.
Defined.

(** C6 as worded fails for a disabled key: [validateKey] answers [disabled]
    before the reset step, so the first call after a rollover leaves the
    stale [todayUsage] and [lastResetDate] in the store. *)
Lemma validateKey_disabled_keeps_stale_count :
  let k := sampleKey 5 5 "2024-05-01" false None in
  let st := keyStoreOf k in
  let st1 := snd (validateKey "2024-05-02" "maki_0001" st) in
  keys st !! "maki_0001" = Some k
  /\ lastResetDate k <> "2024-05-02"
  /\ fst (validateKey "2024-05-02" "maki_0001" st) = Invalid disabled None
  /\ (todayUsage <$> keys st1 !! "maki_0001") = Some 5
  /\ (lastResetDate <$> keys st1 !! "maki_0001") = Some "2024-05-01"%string.
Proof. vm_compute. repeat split; discriminate. Qed.

(** *** The frame of [incrementUsage] *)

(** C10, measured against the key as the lazy daily reset leaves it.  When
    [incrementUsage] succeeds, the stored key becomes the returned record;
    with [k0] the key after [checkAndResetDailyCount], [totalUsage] is that
    of [k0] plus 1, [lastUsedAt] is the time of the call, and exactly one
    pool moves: on the daily path [todayUsage] is that of [k0] plus 1 and
    [bonusRemaining] is untouched, on the bonus path the cached
    [bonusRemaining] drops by 1 and [todayUsage] is that of [k0].  The other
    fields of the key keep their values and every other stored key is
    unchanged. *)
Theorem incrementUsage_frame {L : Type} (today : string) (now : Z) (apiKey : string)
    (onBonusUsed : option (string -> L -> L)) (st st' : KeyStore) (l l' : L)
    (r : UsageResult) :
  incrementUsage today now apiKey onBonusUsed st l = (Some r, st', l') ->
  exists k, keys st !! apiKey = Some k
    /\ let k0 := checkAndResetDailyCount today k in
       let k' := resultKey r in
       keys st' !! apiKey = Some k'
       /\ totalUsage k' = totalUsage k0 + 1
       /\ lastUsedAt k' = Some now
       /\ ((usedBonus r = false /\ todayUsage k' = todayUsage k0 + 1
              /\ bonusRemaining k' = bonusRemaining k0)
           \/ (usedBonus r = true /\ todayUsage k' = todayUsage k0
              /\ bonusRemaining k' = Some (orZero (bonusRemaining k0) - 1)))
       /\ keyId k' = keyId k /\ keyName k' = keyName k /\ createdAt k' = createdAt k
       /\ dailyLimit k' = dailyLimit k /\ enabled k' = enabled k
       /\ lastResetDate k' = today
       /\ forall other, other <> apiKey -> keys st' !! other = keys st !! other.
Proof.
  unfold incrementUsage. intros H.
  destruct (keys st !! apiKey) as [k |] eqn:Hk; [| discriminate].
  exists k. split; [done |].
  pose proof (checkAndResetDailyCount_frame today k) as (Hid & Hname & Hc & Hd & _ & _ & He & _).
  pose proof (checkAndResetDailyCount_date today k) as Hdate.
  simpl in *.
  destruct (todayUsage (checkAndResetDailyCount today k) <? dailyLimit (checkAndResetDailyCount today k)).
  - injection H as <- <- <-. simpl.
    rewrite lookup_insert_eq.
    repeat split; try done.
    + left. done.
    + intros other Hne. by rewrite lookup_insert_ne.
  - destruct (0 <? orZero (bonusRemaining (checkAndResetDailyCount today k))); [| discriminate].
    injection H as <- <- <-. simpl.
    rewrite lookup_insert_eq.
    repeat split; try done.
    + right. done.
    + intros other Hne. by rewrite lookup_insert_ne.
Qed.

Lemma incrementUsage_frame_witness :
  let st := keyStoreOf (sampleKey 5 5 "2024-05-02" true (Some 3)) in
  let out := incrementUsage (L := unit) "2024-05-02" 1714600000000 "maki_0001" None st tt in
  let k' := recordUse 1714600000000
              (withBonusRemaining (Some 2) (sampleKey 5 5 "2024-05-02" true (Some 3))) in
  fst (fst out) = Some {| resultKey := k'; usedBonus := true |}
  /\ exists k, keys st !! "maki_0001" = Some k
    /\ let k0 := checkAndResetDailyCount "2024-05-02" k in
       keys (snd (fst out)) !! "maki_0001" = Some k'
       /\ totalUsage k' = totalUsage k0 + 1
       /\ lastUsedAt k' = Some 1714600000000
       /\ ((true = false /\ todayUsage k' = todayUsage k0 + 1
              /\ bonusRemaining k' = bonusRemaining k0)
           \/ (true = true /\ todayUsage k' = todayUsage k0
              /\ bonusRemaining k' = Some (orZero (bonusRemaining k0) - 1)))
       /\ keyId k' = keyId k /\ keyName k' = keyName k /\ createdAt k' = createdAt k
       /\ dailyLimit k' = dailyLimit k /\ enabled k' = enabled k
       /\ lastResetDate k' = "2024-05-02"%string
       /\ forall other, other <> "maki_0001"%string ->
            keys (snd (fst out)) !! other = keys st !! other.
Proof.
  intros st out k'. split; [reflexivity |].
  exact (incrementUsage_frame (L := unit) "2024-05-02" 1714600000000 "maki_0001" None
           st (snd (fst out)) tt tt {| resultKey := k'; usedBonus := true |} eq_refl).
Defined.

(** C10 as worded fails on the first use of a new day: the stored
    [todayUsage] 5 of the day before becomes 1, not 6. *)
Lemma incrementUsage_after_rollover_counts_from_zero :
  let k := sampleKey 5 9 "2024-05-01" true None in
  let out := incrementUsage (L := unit) "2024-05-02" 1714600000000 "maki_0001" None
               (keyStoreOf k) tt in
  (usedBonus <$> fst (fst out)) = Some false
  /\ (todayUsage <$> keys (keyStoreOf k) !! "maki_0001") = Some 5
  /\ (todayUsage <$> keys (snd (fst out)) !! "maki_0001") = Some 1.
Proof. vm_compute. repeat split. Qed.

End KeyManagerSpec.

(** * Properties of the bonus ledger *)
Module LedgerSpec.
Import UserDataManager Scenarios Samples.

(** ** Facts on the helpers *)

Lemma isBonusExpired_config st st' now b :
  config st' = config st -> isBonusExpired st' now b = isBonusExpired st now b.
Proof.
  intros H. unfold isBonusExpired, calculateExpiresAt, getBonusValidityDays, getFullConfig.
  by rewrite H.
Qed.

Lemma getBonusPerCredential_config st st' :
  config st' = config st -> getBonusPerCredential st' = getBonusPerCredential st.
Proof.
  intros H. unfold getBonusPerCredential, getFullConfig. by rewrite H.
Qed.

Lemma liveGrants_config st st' now bs :
  config st' = config st -> liveGrants st' now bs = liveGrants st now bs.
Proof.
  intros H. unfold liveGrants. apply filter_ext. intros e.
  by rewrite (isBonusExpired_config st st').
Qed.

Lemma isBonusExpired_spec st now b :
  isBonusExpired st now b = true
  <-> grantedAt b + getBonusValidityDays st * 24 * 60 * 60 * 1000 < now.
Proof. unfold isBonusExpired, calculateExpiresAt. apply Z.ltb_lt. Qed.

Lemma indexedFrom_In {A : Type} (l : list A) k i x :
  In (i, x) (indexedFrom k l) <-> (k <= i)%nat /\ l !! (i - k)%nat = Some x.
Proof.
  revert k. induction l as [| y l IH]; intros k; simpl.
  - split; [done | intros [_ H]; discriminate].
  - rewrite IH. split.
    + intros [H | [Hle Hl]].
      * injection H as <- <-. split; [lia |]. by rewrite Nat.sub_diag.
      * split; [lia |]. replace (i - k)%nat with (S (i - S k)) by lia. done.
    + intros [Hle Hl]. destruct (decide (i = k)) as [-> | Hne].
      * left. rewrite Nat.sub_diag in Hl. simpl in Hl. congruence.
      * right. split; [lia |].
        replace (i - k)%nat with (S (i - S k)) in Hl by lia. done.
Qed.

Lemma liveGrants_In st now bs i b :
  In (i, b) (liveGrants st now bs) <-> bs !! i = Some b /\ isBonusExpired st now b = false.
Proof.
  unfold liveGrants. rewrite filter_In, indexedFrom_In. simpl.
  rewrite Nat.sub_0_r, negb_true_iff. intuition lia.
Qed.

Lemma indexedFrom_fst {A : Type} (l : list A) k :
  map fst (indexedFrom k l) = seq k (length l).
Proof.
  revert k. induction l as [| y l IH]; intros k; simpl; [done |]. by rewrite IH.
Qed.

Lemma NoDup_fst_filter {A B : Type} (p : A * B -> bool) (l : list (A * B)) :
  List.NoDup (map fst l) -> List.NoDup (map fst (List.filter p l)).
Proof.
  induction l as [| x l IH]; simpl; intros H; [constructor |].
  apply List.NoDup_cons_iff in H as [Hx Hl].
  destruct (p x); simpl; [| by apply IH].
  constructor; [| by apply IH].
  intros Hin. apply Hx.
  apply in_map_iff in Hin as (y & Hy & Hin).
  apply filter_In in Hin as [Hin _].
  apply in_map_iff. by exists y.
Qed.

Lemma liveGrants_NoDup st now bs : List.NoDup (map fst (liveGrants st now bs)).
Proof.
  unfold liveGrants. apply NoDup_fst_filter.
  rewrite indexedFrom_fst. apply List.seq_NoDup.
Qed.

(** The sorted array holds the same entries as the filtered one. *)
Lemma insertByGrantedAt_perm x l : insertByGrantedAt x l ≡ₚ x :: l.
Proof.
  induction l as [| y l IH]; simpl; [done |].
  destruct (grantedAt x.2 <=? grantedAt y.2); [done |].
  rewrite IH. apply Permutation_swap.
Qed.

Lemma sortByGrantedAt_perm l : sortByGrantedAt l ≡ₚ l.
Proof.
  induction l as [| x l IH]; simpl; [done |].
  unfold sortByGrantedAt in *. simpl.
  by rewrite insertByGrantedAt_perm, IH.
Qed.

Lemma sortedBonuses_In st now bs i b :
  In (i, b) (sortedBonuses st now bs) -> bs !! i = Some b /\ isBonusExpired st now b = false.
Proof.
  intros H. apply liveGrants_In.
  apply list_elem_of_In. apply list_elem_of_In in H.
  unfold sortedBonuses in H. by rewrite sortByGrantedAt_perm in H.
Qed.

Lemma indexedFrom_bump_outside k i v (l : list Bonus) :
  (i < k)%nat -> map (bumpAt i v) (indexedFrom k l) = indexedFrom k l.
Proof.
  revert k. induction l as [| y l IH]; intros k Hlt; simpl; [done |].
  rewrite IH by lia. unfold bumpAt at 1. simpl.
  destruct (Nat.eqb_spec k i); [lia | done].
Qed.

Lemma indexedFrom_insert k i v (l : list Bonus) b :
  l !! i = Some b ->
  indexedFrom k (<[i := withUsedCount v b]> l) = map (bumpAt (k + i) v) (indexedFrom k l).
Proof.
  revert k i. induction l as [| y l IH]; intros k i Hl; [done |].
  destruct i as [| i]; simpl in *.
  - injection Hl as ->. unfold bumpAt at 1. simpl.
    rewrite Nat.add_0_r, Nat.eqb_refl. f_equal.
    symmetry. apply indexedFrom_bump_outside. lia.
  - unfold bumpAt at 1. simpl.
    destruct (Nat.eqb_spec k (k + S i)); [lia |]. f_equal.
    rewrite (IH (S k) i Hl). f_equal. f_equal. lia.
Qed.

Lemma filter_map_commute {A : Type} (p : A -> bool) (f : A -> A) (l : list A) :
  (forall x, p (f x) = p x) -> List.filter p (map f l) = map f (List.filter p l).
Proof.
  intros H. induction l as [| x l IH]; simpl; [done |].
  rewrite H. destruct (p x); simpl; by rewrite IH.
Qed.

Lemma liveGrants_insert st now bs i b v :
  bs !! i = Some b ->
  liveGrants st now (<[i := withUsedCount v b]> bs) = map (bumpAt i v) (liveGrants st now bs).
Proof.
  intros Hl. unfold liveGrants.
  rewrite (indexedFrom_insert 0 i v bs b Hl). simpl.
  apply filter_map_commute. intros [j x]. unfold bumpAt. simpl.
  destruct (Nat.eqb j i); done.
Qed.

(** ** What one call does *)

Lemma consumeBonusBody_false now apiKey st st' :
  consumeBonusBody now apiKey st = (false, st') -> st' = st.
Proof.
  unfold consumeBonusBody. intros H.
  repeat case_match; simplify_eq; done.
Qed.

Lemma consumeBonusBody_found now apiKey st u bs i b :
  users st !! apiKey = Some u -> credentialBonuses u = Some bs ->
  firstWithRemaining (getBonusPerCredential st) (sortedBonuses st now bs) = Some (i, b) ->
  consumeBonusBody now apiKey st
  = (true, markDirty (setUser apiKey
             (withBonuses (<[i := withUsedCount (usedCount b + 1) b]> bs) u) st)).
Proof. intros Hu Hb Hf. unfold consumeBonusBody. by rewrite Hu, Hb, Hf. Qed.

Lemma consumeBonusBody_none now apiKey st u bs :
  users st !! apiKey = Some u -> credentialBonuses u = Some bs ->
  firstWithRemaining (getBonusPerCredential st) (sortedBonuses st now bs) = None ->
  consumeBonusBody now apiKey st = (false, st).
Proof. intros Hu Hb Hf. unfold consumeBonusBody. by rewrite Hu, Hb, Hf. Qed.

Lemma grantsOf_consume now apiKey st :
  length (grantsOf apiKey (snd (consumeBonusBody now apiKey st)))
  = length (grantsOf apiKey st).
Proof.
  unfold consumeBonusBody, grantsOf.
  destruct (users st !! apiKey) as [u |] eqn:Hu; simpl; [| by rewrite Hu].
  destruct (credentialBonuses u) as [bs |] eqn:Hb; simpl; [| by rewrite Hu, Hb].
  destruct (firstWithRemaining _ _) as [[i b] |]; simpl.
  - rewrite lookup_insert_eq. simpl. apply length_insert.
  - by rewrite Hu, Hb.
Qed.

(** ** Expiry *)

Lemma fold_left_add_shift {A : Type} (f : A -> Z) (l : list A) (a : Z) :
  fold_left (fun t x => t + f x) l a = a + fold_left (fun t x => t + f x) l 0.
Proof.
  revert a. induction l as [| x l IH]; intros a; simpl; [lia |].
  rewrite (IH (a + f x)), (IH (0 + f x)). lia.
Qed.

Lemma fold_left_add_delete {A : Type} (f : A -> Z) (l : list A) (i : nat) (x : A) :
  l !! i = Some x -> f x = 0 ->
  fold_left (fun t y => t + f y) l 0 = fold_left (fun t y => t + f y) (delete i l) 0.
Proof.
  intros Hl Hx.
  rewrite <- (take_drop_middle l i x Hl) at 1.
  rewrite delete_take_drop, !fold_left_app. simpl.
  by rewrite Hx, Z.add_0_r.
Qed.

(** C8.  A grant that is expired at the time of the call
    ([now > grantedAt + bonusValidityDays] days, in milliseconds) is left as
    it is by [consumeBonus], so its [usedCount] is not incremented, and it
    adds 0 to [calculateBonusRemaining]: the total is the one obtained with
    the grant taken out of the ledger. *)
Theorem expired_grant_excluded (now : Z) (apiKey : string) (st : UserDataStore)
    (u : UserData) (bs : list Bonus) (i : nat) (b : Bonus) :
  users st !! apiKey = Some u -> credentialBonuses u = Some bs -> bs !! i = Some b ->
  grantedAt b + getBonusValidityDays st * 24 * 60 * 60 * 1000 < now ->
  grantAt apiKey i (snd (consumeBonus now apiKey st)) = Some b
  /\ forall healthyCredentialIds,
       bonusContribution st now healthyCredentialIds b = 0
       /\ calculateBonusRemaining now apiKey healthyCredentialIds st
          = calculateBonusRemaining now apiKey healthyCredentialIds
              (setUser apiKey (withBonuses (delete i bs) u) st).
Proof.
  intros Hu Hb Hi Hexp. apply isBonusExpired_spec in Hexp. split.
  - unfold consumeBonus, consumeBonusBody, grantAt. rewrite Hu, Hb.
    destruct (firstWithRemaining _ _) as [[j b'] |] eqn:Hf; simpl.
    + rewrite lookup_insert_eq. simpl.
      apply find_some in Hf as [Hin _].
      apply sortedBonuses_In in Hin as [Hj Hlive].
      assert (j <> i) by (intros ->; congruence).
      by rewrite list_lookup_insert_ne.
    + by rewrite Hu, Hb.
  - intros ids.
    assert (H0 : bonusContribution st now ids b = 0).
    { unfold bonusContribution. by rewrite Hexp. }
    split; [done |].
    unfold calculateBonusRemaining. simpl. rewrite Hu, Hb, lookup_insert_eq. simpl.
    rewrite (fold_left_add_delete _ bs i b Hi) by done.
    done.
Qed.

Lemma expired_grant_excluded_witness :
  let st := ledgerOf 2 [grantG2; grantOld; grantG1] in
  grantAt "maki_0001" 1 (snd (consumeBonus (60 * day) "maki_0001" st)) = Some grantOld
  /\ forall healthyCredentialIds,
       bonusContribution st (60 * day) healthyCredentialIds grantOld = 0
       /\ calculateBonusRemaining (60 * day) "maki_0001" healthyCredentialIds st
          = calculateBonusRemaining (60 * day) "maki_0001" healthyCredentialIds
              (ledgerOf 2 [grantG2; grantG1]).
Proof.
  intros st.
  destruct (expired_grant_excluded (60 * day) "maki_0001" st
              {| credentials := []; credentialBonuses := Some [grantG2; grantOld; grantG1];
                 userCreatedAt := 0; migratedFrom := None; migratedAt := None |}
              [grantG2; grantOld; grantG1] 1 grantOld
              eq_refl eq_refl eq_refl eq_refl) as [H1 H2].
  split; [exact H1 |].
  intros ids. destruct (H2 ids) as [H3 H4]. split; [exact H3 |].
  rewrite H4. reflexivity.
Defined.

(** ** FIFO consumption *)

Lemma sortByGrantedAt_two (a b : nat * Bonus) l :
  l ≡ₚ [a; b] -> grantedAt (snd a) < grantedAt (snd b) -> sortByGrantedAt l = [a; b].
Proof.
  intros Hp Hlt. symmetry in Hp.
  apply Permutation_length_2_inv in Hp as [-> | ->]; unfold sortByGrantedAt; simpl.
  - destruct (Z.leb_spec (grantedAt a.2) (grantedAt b.2)); [done | lia].
  - destruct (Z.leb_spec (grantedAt b.2) (grantedAt a.2)); [lia | done].
Qed.

Lemma withUsedCount_twice v w b : withUsedCount v (withUsedCount w b) = withUsedCount v b.
Proof. done. Qed.

Lemma withUsedCount_id b : withUsedCount (usedCount b) b = b.
Proof. by destruct b. Qed.

Section TwoGrantLedger.
Variables (st0 : UserDataStore) (apiKey : string) (i1 i2 : nat) (G1 G2 : Bonus).
Variable P : Z -> Prop.
Hypothesis Hdistinct : i1 <> i2.
Hypothesis Holder : grantedAt G1 < grantedAt G2.

Variable C : Z.
Hypothesis HC : C = getBonusPerCredential st0.

Lemma two_grants_sorted st u1 u2 u bs now :
  config st = config st0 ->
  liveGrants st now bs ≡ₚ [(i1, withUsedCount u1 G1); (i2, withUsedCount u2 G2)] ->
  users st !! apiKey = Some u -> credentialBonuses u = Some bs ->
  firstWithRemaining (getBonusPerCredential st) (sortedBonuses st now bs)
  = if 0 <? C - u1 then Some (i1, withUsedCount u1 G1)
    else if 0 <? C - u2 then Some (i2, withUsedCount u2 G2)
    else None.
Proof.
  intros Hc Hp _ _. unfold sortedBonuses.
  rewrite (sortByGrantedAt_two _ _ _ Hp) by done.
  rewrite (getBonusPerCredential_config st0 st Hc), <- HC.
  unfold firstWithRemaining. simpl. done.
Qed.

Lemma two_grants_step now st u1 u2 :
  P now -> TwoGrants st0 apiKey i1 i2 G1 G2 P u1 u2 st ->
  (u1 < C ->
     fst (consumeBonusBody now apiKey st) = true
     /\ TwoGrants st0 apiKey i1 i2 G1 G2 P (u1 + 1) u2 (snd (consumeBonusBody now apiKey st)))
  /\ (C <= u1 -> u2 < C ->
     fst (consumeBonusBody now apiKey st) = true
     /\ TwoGrants st0 apiKey i1 i2 G1 G2 P u1 (u2 + 1) (snd (consumeBonusBody now apiKey st)))
  /\ (C <= u1 -> C <= u2 -> consumeBonusBody now apiKey st = (false, st)).
Proof.
  intros HP (Hc & u & bs & Hu & Hb & Hl1 & Hl2 & Hlive).
  pose proof (two_grants_sorted st u1 u2 u bs now Hc (Hlive now HP) Hu Hb) as Hfirst.
  split; [| split].
  - intros Hlt.
    assert ((0 <? C - u1) = true) as E by (apply Z.ltb_lt; lia).
    rewrite E in Hfirst.
    rewrite (consumeBonusBody_found _ _ _ _ _ _ _ Hu Hb Hfirst). simpl.
    split; [done |]. split; [done |].
    eexists _, _. split; [apply lookup_insert_eq |]. split; [done |].
    split; [| split].
    + rewrite list_lookup_insert_eq by (by eapply lookup_lt_Some). done.
    + by rewrite list_lookup_insert_ne.
    + intros now' HP'.
      rewrite (liveGrants_config st) by done.
      rewrite (liveGrants_insert st now' bs i1 _ _ Hl1), (Hlive now' HP').
      simpl. unfold bumpAt. simpl. rewrite Nat.eqb_refl.
      destruct (Nat.eqb_spec i2 i1); [congruence | done].
  - intros Hge Hlt.
    assert ((0 <? C - u1) = false) as E1 by (apply Z.ltb_ge; lia).
    assert ((0 <? C - u2) = true) as E2 by (apply Z.ltb_lt; lia).
    rewrite E1, E2 in Hfirst.
    rewrite (consumeBonusBody_found _ _ _ _ _ _ _ Hu Hb Hfirst). simpl.
    split; [done |]. split; [done |].
    eexists _, _. split; [apply lookup_insert_eq |]. split; [done |].
    split; [| split].
    + by rewrite list_lookup_insert_ne.
    + rewrite list_lookup_insert_eq by (by eapply lookup_lt_Some). done.
    + intros now' HP'.
      rewrite (liveGrants_config st) by done.
      rewrite (liveGrants_insert st now' bs i2 _ _ Hl2), (Hlive now' HP').
      simpl. unfold bumpAt. simpl. rewrite Nat.eqb_refl.
      destruct (Nat.eqb_spec i1 i2); [congruence | done].
  - intros Hge1 Hge2.
    assert ((0 <? C - u1) = false) as E1 by (apply Z.ltb_ge; lia).
    assert ((0 <? C - u2) = false) as E2 by (apply Z.ltb_ge; lia).
    rewrite E1, E2 in Hfirst.
    by apply consumeBonusBody_none with u bs.
Qed.

(** After [t] calls the two grants stand at [usedOfFirst C t] and
    [usedOfSecond C t]; a further call succeeds as long as [t < 2 * C]. *)
Lemma two_grants_call now st t :
  0 <= t -> P now ->
  TwoGrants st0 apiKey i1 i2 G1 G2 P (usedOfFirst C t) (usedOfSecond C t) st ->
  fst (consumeBonus now apiKey st) = (t <? 2 * C)
  /\ TwoGrants st0 apiKey i1 i2 G1 G2 P (usedOfFirst C (t + 1)) (usedOfSecond C (t + 1))
       (snd (consumeBonus now apiKey st)).
Proof.
  intros Ht HP Hinv. unfold consumeBonus.
  destruct (two_grants_step now st _ _ HP Hinv) as (Ha & Hb & Hc).
  unfold usedOfFirst, usedOfSecond in *.
  destruct (Z.lt_ge_cases (Z.max 0 (Z.min t C)) C) as [H1 | H1].
  - destruct (Ha H1) as [-> Hinv'].
    split; [symmetry; apply Z.ltb_lt; lia |].
    replace (Z.max 0 (Z.min (t + 1) C)) with (Z.max 0 (Z.min t C) + 1) by lia.
    replace (Z.max 0 (Z.min (t + 1 - C) C)) with (Z.max 0 (Z.min (t - C) C)) by lia.
    done.
  - destruct (Z.lt_ge_cases (Z.max 0 (Z.min (t - C) C)) C) as [H2 | H2].
    + destruct (Hb H1 H2) as [-> Hinv'].
      split; [symmetry; apply Z.ltb_lt; lia |].
      replace (Z.max 0 (Z.min (t + 1) C)) with (Z.max 0 (Z.min t C)) by lia.
      replace (Z.max 0 (Z.min (t + 1 - C) C)) with (Z.max 0 (Z.min (t - C) C) + 1) by lia.
      done.
    + rewrite (Hc H1 H2). simpl.
      split; [symmetry; apply Z.ltb_ge; lia |].
      replace (Z.max 0 (Z.min (t + 1) C)) with (Z.max 0 (Z.min t C)) by lia.
      replace (Z.max 0 (Z.min (t + 1 - C) C)) with (Z.max 0 (Z.min (t - C) C)) by lia.
      done.
Qed.

Lemma two_grants_calls nows : forall st t,
  0 <= t -> Forall P nows ->
  TwoGrants st0 apiKey i1 i2 G1 G2 P (usedOfFirst C t) (usedOfSecond C t) st ->
  length (fst (consumeMany nows apiKey st)) = length nows
  /\ (forall j r, fst (consumeMany nows apiKey st) !! j = Some r ->
        r = (t + Z.of_nat j <? 2 * C))
  /\ TwoGrants st0 apiKey i1 i2 G1 G2 P
       (usedOfFirst C (t + Z.of_nat (length nows)))
       (usedOfSecond C (t + Z.of_nat (length nows)))
       (snd (consumeMany nows apiKey st)).
Proof.
  induction nows as [| now rest IH]; intros st t Ht HP Hinv.
  - simpl. rewrite Z.add_0_r. split; [done |]. split; [| done].
    intros j r H. discriminate.
  - apply Forall_cons in HP as [HPn HPr].
    destruct (two_grants_call now st t Ht HPn Hinv) as [Hres Hinv'].
    simpl. destruct (consumeBonus now apiKey st) as [ok st1].
    simpl in Hres, Hinv'.
    destruct (IH st1 (t + 1) ltac:(lia) HPr Hinv') as (Hlen & Hrs & Hfin).
    destruct (consumeMany rest apiKey st1) as [oks st2]. simpl in *.
    split; [by rewrite Hlen |]. split.
    + intros [| j] r Hj; simpl in Hj.
      * injection Hj as <-. rewrite Z.add_0_r. done.
      * rewrite (Hrs j r Hj). f_equal. lia.
    + replace (t + Z.of_nat (S (length rest)))
        with (t + 1 + Z.of_nat (length rest)) by lia.
      done.
Qed.

End TwoGrantLedger.

Lemma TwoGrants_grantAt st0 apiKey i1 i2 G1 G2 P u1 u2 st :
  TwoGrants st0 apiKey i1 i2 G1 G2 P u1 u2 st ->
  grantAt apiKey i1 st = Some (withUsedCount u1 G1)
  /\ grantAt apiKey i2 st = Some (withUsedCount u2 G2).
Proof.
  intros (_ & u & bs & Hu & Hb & Hl1 & Hl2 & _). unfold grantAt. by rewrite Hu, Hb.
Qed.

Lemma all_true_replicate (l : list bool) :
  (forall j r, l !! j = Some r -> r = true) -> l = replicate (length l) true.
Proof.
  induction l as [| x l IH]; intros H; simpl; [done |].
  rewrite (H 0%nat x eq_refl). f_equal. apply IH.
  intros j r Hj. by apply (H (S j)).
Qed.

(** C2.  A user's unexpired grants are [G1] and [G2], [G1] the older, both
    unused, each of capacity [C = bonusPerCredential]; [consumeBonus] is
    called once per clock reading of [nows] (at each of which the two grants
    are the unexpired ones).  Then each of the first [k <= C] calls succeeds
    and after them [G1] has [usedCount = k] while [G2] still has 0; and
    whenever a call changes [G2], the [usedCount] of [G1] had already
    reached [C] before that call. *)
Theorem consumeBonus_fifo (apiKey : string) (st : UserDataStore) (u : UserData)
    (bs : list Bonus) (i1 i2 : nat) (G1 G2 : Bonus) (nows : list Z) :
  users st !! apiKey = Some u -> credentialBonuses u = Some bs ->
  bs !! i1 = Some G1 -> bs !! i2 = Some G2 ->
  Forall (fun now => liveGrants st now bs ≡ₚ [(i1, G1); (i2, G2)]) nows ->
  grantedAt G1 < grantedAt G2 -> usedCount G1 = 0 -> usedCount G2 = 0 ->
  let C := getBonusPerCredential st in
  let after k := consumeMany (take k nows) apiKey st in
  (forall k, (k <= length nows)%nat -> Z.of_nat k <= C ->
     fst (after k) = replicate k true
     /\ (usedCount <$> grantAt apiKey i1 (snd (after k))) = Some (Z.of_nat k)
     /\ (usedCount <$> grantAt apiKey i2 (snd (after k))) = Some 0)
  /\ (forall k, (k < length nows)%nat ->
     grantAt apiKey i2 (snd (after (S k))) <> grantAt apiKey i2 (snd (after k)) ->
     (usedCount <$> grantAt apiKey i1 (snd (after k))) = Some C).
Proof.
  intros Hu Hb Hl1 Hl2 Hlive Hlt H01 H02 C after.
  assert (Hne : i1 <> i2) by (intros ->; rewrite Hl1 in Hl2; injection Hl2 as ->; lia).
  set (P := fun now => liveGrants st now bs ≡ₚ [(i1, G1); (i2, G2)]).
  assert (Hinit : TwoGrants st apiKey i1 i2 G1 G2 P (usedOfFirst C 0) (usedOfSecond C 0) st).
  { assert (usedOfFirst C 0 = 0) as -> by (unfold usedOfFirst; lia).
    assert (usedOfSecond C 0 = 0) as -> by (unfold usedOfSecond; lia).
    assert (withUsedCount 0 G1 = G1) as E1 by (rewrite <- H01; apply withUsedCount_id).
    assert (withUsedCount 0 G2 = G2) as E2 by (rewrite <- H02; apply withUsedCount_id).
    split; [done |]. exists u, bs. rewrite E1, E2. repeat split; done. }
  assert (Hafter : forall k, (k <= length nows)%nat ->
            length (fst (after k)) = k
            /\ (forall j r, fst (after k) !! j = Some r -> r = (Z.of_nat j <? 2 * C))
            /\ TwoGrants st apiKey i1 i2 G1 G2 P
                 (usedOfFirst C (Z.of_nat k)) (usedOfSecond C (Z.of_nat k)) (snd (after k))).
  { intros k Hk.
    destruct (two_grants_calls st apiKey i1 i2 G1 G2 P Hne Hlt C eq_refl (take k nows) st 0
                ltac:(lia) ltac:(by apply Forall_take) Hinit) as (Hlen & Hrs & Hinv).
    rewrite length_take_le in Hlen, Hinv by done.
    rewrite Z.add_0_l in Hinv. split; [done |]. split; [| done].
    intros j r Hj. by rewrite (Hrs j r Hj). }
  split.
  - intros k Hk HkC.
    destruct (Hafter k Hk) as (Hlen & Hrs & Hinv).
    destruct (TwoGrants_grantAt _ _ _ _ _ _ _ _ _ _ Hinv) as [Hg1 Hg2].
    rewrite Hg1, Hg2. simpl. split; [| split].
    + rewrite <- Hlen at 2. apply all_true_replicate.
      intros j r Hj. rewrite (Hrs j r Hj).
      apply lookup_lt_Some in Hj. apply Z.ltb_lt. lia.
    + f_equal. unfold usedOfFirst. lia.
    + f_equal. unfold usedOfSecond. lia.
  - intros k Hk Hchg.
    destruct (Hafter k ltac:(lia)) as (_ & _ & Hinv).
    destruct (Hafter (S k) ltac:(lia)) as (_ & _ & Hinv').
    destruct (TwoGrants_grantAt _ _ _ _ _ _ _ _ _ _ Hinv) as [Hg1 Hg2].
    destruct (TwoGrants_grantAt _ _ _ _ _ _ _ _ _ _ Hinv') as [_ Hg2'].
    rewrite Hg1. simpl. f_equal.
    rewrite Hg2, Hg2' in Hchg.
    assert (usedOfSecond C (Z.of_nat (S k)) <> usedOfSecond C (Z.of_nat k)) as Hd
      by (intros E; apply Hchg; by rewrite E).
    unfold usedOfFirst, usedOfSecond in *. lia.
Qed.

Lemma consumeBonus_fifo_witness :
  let st := ledgerOf 2 [grantG2; grantOld; grantG1] in
  let nows := [60 * day; 60 * day + 5; 61 * day; 62 * day] in
  let after k := consumeMany (take k nows) "maki_0001" st in
  (forall k, (k <= 4)%nat -> Z.of_nat k <= 2 ->
     fst (after k) = replicate k true
     /\ (usedCount <$> grantAt "maki_0001" 2 (snd (after k))) = Some (Z.of_nat k)
     /\ (usedCount <$> grantAt "maki_0001" 0 (snd (after k))) = Some 0)
  /\ (forall k, (k < 4)%nat ->
     grantAt "maki_0001" 0 (snd (after (S k))) <> grantAt "maki_0001" 0 (snd (after k)) ->
     (usedCount <$> grantAt "maki_0001" 2 (snd (after k))) = Some 2).
Proof.
  apply (consumeBonus_fifo "maki_0001" (ledgerOf 2 [grantG2; grantOld; grantG1])
           {| credentials := []; credentialBonuses := Some [grantG2; grantOld; grantG1];
              userCreatedAt := 0; migratedFrom := None; migratedAt := None |}
           [grantG2; grantOld; grantG1] 2 0 grantG1 grantG2
           [60 * day; 60 * day + 5; 61 * day; 62 * day]).
  - reflexivity.
  - reflexivity.
  - reflexivity.
  - reflexivity.
  - repeat constructor; apply Permutation_swap.
  - reflexivity.
  - reflexivity.
  - reflexivity.
Defined.

End LedgerSpec.

(** * Properties of reconciliation *)
Module SyncSpec.
Import UserDataManager Scenarios Samples LedgerSpec.

Lemma healthyIdsOf_elem creds x :
  x ∈ healthyIdsOf creds
  <-> exists c, In c creds /\ isHealthy c = Some true /\ healthId c = x.
Proof.
  unfold healthyIdsOf. rewrite elem_of_list_to_set, list_elem_of_In, in_map_iff.
  split.
  - intros (c & Hx & Hin). apply filter_In in Hin as [Hin Hh].
    exists c. split; [done |]. split; [| done].
    unfold isHealthyTrue in Hh. by destruct (isHealthy c) as [[] |].
  - intros (c & Hin & Hh & Hx). exists c. split; [done |].
    apply filter_In. split; [done |]. unfold isHealthyTrue. by rewrite Hh.
Qed.

Lemma isHealthyTrue_spec c : isHealthyTrue c = true <-> isHealthy c = Some true.
Proof. unfold isHealthyTrue. destruct (isHealthy c) as [[] |]; split; done. Qed.

Lemma filter_all {A : Type} (p : A -> bool) (l : list A) :
  (forall x, In x l -> p x = true) -> List.filter p l = l.
Proof.
  induction l as [| x l IH]; intros H; simpl; [done |].
  rewrite (H x) by (by left). f_equal. apply IH. intros y Hy. apply H. by right.
Qed.

Lemma filter_nothing {A : Type} (p : A -> bool) (l : list A) :
  (forall x, In x l -> p x = false) -> List.filter p l = [].
Proof.
  induction l as [| x l IH]; intros H; simpl; [done |].
  rewrite (H x) by (by left). apply IH. intros y Hy. apply H. by right.
Qed.

(** ** [ensureUserData] *)

Lemma ensureUserData_spec now apiKey st :
  let u := fst (ensureUserData now apiKey st) in
  let st' := snd (ensureUserData now apiKey st) in
  users st' !! apiKey = Some u
  /\ credentialBonuses u = Some (grantsOf apiKey st)
  /\ credentials u = getUserCredentials apiKey st
  /\ config st' = config st
  /\ forall other, other <> apiKey -> users st' !! other = users st !! other.
Proof.
  unfold ensureUserData, grantsOf, getUserCredentials.
  destruct (users st !! apiKey) as [u |] eqn:Hu; simpl.
  - rewrite Hu. destruct (credentialBonuses u) as [bs |] eqn:Hb; simpl.
    + rewrite Hu, Hb. done.
    + rewrite lookup_insert_eq. split_and!; try done.
      intros other Hne. by rewrite lookup_insert_ne.
  - rewrite lookup_insert_eq. simpl. split_and!; try done.
    + apply lookup_insert_eq.
    + intros other Hne. by rewrite lookup_insert_ne.
Qed.

Lemma ensureUserData_present now apiKey st u bs :
  users st !! apiKey = Some u -> credentialBonuses u = Some bs ->
  ensureUserData now apiKey st = (u, st).
Proof. intros Hu Hb. unfold ensureUserData. by rewrite Hu, Hu, Hb. Qed.

(** ** The two loops of [syncCredentialBonuses] *)

Lemma existsb_grant_for cid (bs : list Bonus) :
  existsb (fun b => String.eqb (credentialId b) cid) bs = true
  <-> exists b, In b bs /\ credentialId b = cid.
Proof.
  rewrite existsb_exists.
  split; intros (b & Hin & H); exists b; (split; [done |]); by apply String.eqb_eq.
Qed.

(** The first loop appends grants, all unused and all for credentials the
    snapshot reports healthy, and counts them. *)
Lemma addMissing_fold now creds : forall bs a,
  exists new,
    fold_left (addMissingStep now) creds (bs, a) = (bs ++ new, a + Z.of_nat (length new))
    /\ Forall (fun b => (exists c, In c creds /\ isHealthy c = Some true
                                   /\ healthId c = credentialId b)
                        /\ usedCount b = 0) new.
Proof.
  induction creds as [| c creds IH]; intros bs a; simpl.
  - exists []. rewrite app_nil_r, Z.add_0_r. done.
  - destruct (isHealthyTrue c) eqn:Hh; simpl.
    + destruct (existsb _ bs) eqn:He.
      * destruct (IH bs a) as (new & -> & Hnew). exists new. split; [done |].
        eapply Forall_impl; [exact Hnew |]. intros b [(c' & ? & ? & ?) ?].
        split; [| done]. exists c'. auto.
      * destruct (IH (bs ++ [{| credentialId := healthId c;
                                 grantedAt := default now (healthAddedAt c);
                                 usedCount := 0 |}]) (a + 1)) as (new & -> & Hnew).
        eexists (_ :: new). rewrite <- app_assoc. simpl. split; [f_equal; lia |].
        constructor.
        -- split; [| done]. exists c. split; [by left |].
           by apply isHealthyTrue_spec in Hh.
        -- eapply Forall_impl; [exact Hnew |]. intros b [(c' & ? & ? & ?) ?].
           split; [| done]. exists c'. auto.
    + destruct (IH bs a) as (new & -> & Hnew). exists new. split; [done |].
      eapply Forall_impl; [exact Hnew |]. intros b [(c' & ? & ? & ?) ?].
      split; [| done]. exists c'. auto.
Qed.

(** It adds nothing exactly when every healthy credential has a grant. *)
Lemma addMissing_none now creds : forall bs a,
  snd (fold_left (addMissingStep now) creds (bs, a)) = a
  <-> forall c, In c creds -> isHealthy c = Some true ->
        exists b, In b bs /\ credentialId b = healthId c.
Proof.
  induction creds as [| c creds IH]; intros bs a; simpl.
  - split; [intros _ c [] | done].
  - destruct (isHealthyTrue c) eqn:Hh; simpl.
    + destruct (existsb _ bs) eqn:He.
      * rewrite IH. apply existsb_grant_for in He.
        split; [| by auto]. intros H c' [<- | Hin] Hc'; auto.
      * destruct (addMissing_fold now creds
                    (bs ++ [{| credentialId := healthId c;
                               grantedAt := default now (healthAddedAt c);
                               usedCount := 0 |}]) (a + 1)) as (new & -> & _).
        simpl. split; [lia |]. intros H.
        assert (existsb (fun b => String.eqb (credentialId b) (healthId c)) bs = true)
          as He' by (apply existsb_grant_for, H; [by left | by apply isHealthyTrue_spec]).
        congruence.
    + rewrite IH. split; [| by auto]. intros H c' [<- | Hin] Hc'; [| by auto].
      apply isHealthyTrue_spec in Hc'. congruence.
Qed.

Lemma indexOf_middle (pre : list Bonus) x l :
  (forall y, In y pre -> y <> x) -> indexOf x (pre ++ x :: l) = Some (length pre).
Proof.
  induction pre as [| y pre IH]; intros H; simpl.
  - by rewrite bool_decide_eq_true_2.
  - rewrite bool_decide_eq_false_2 by (apply H; by left).
    rewrite IH by (intros z Hz; apply H; by right). done.
Qed.

(** The second loop leaves the grants whose credential is in [healthyIds],
    in their order, and counts the others. *)
Lemma removeStep_fold (p : Bonus -> bool) : forall l pre n,
  (forall y, In y pre -> p y = true) ->
  fold_left removeStep (List.filter (fun b => negb (p b)) l) (pre ++ l, n)
  = (pre ++ List.filter p l,
     n + Z.of_nat (length (List.filter (fun b => negb (p b)) l))).
Proof.
  induction l as [| x l IH]; intros pre n Hpre; simpl.
  - by rewrite Z.add_0_r.
  - destruct (p x) eqn:Hx; simpl.
    + replace (pre ++ x :: l) with ((pre ++ [x]) ++ l) by (by rewrite <- app_assoc).
      rewrite IH.
      * by rewrite <- app_assoc.
      * intros y Hy. apply in_app_or in Hy as [Hy | [<- | []]]; auto.
    + rewrite indexOf_middle.
      * rewrite delete_middle, IH by done. f_equal. lia.
      * intros y Hy ->. apply Hpre in Hy. congruence.
Qed.

Lemma removeUnhealthyBonuses_spec ids bs :
  removeUnhealthyBonuses ids bs
  = (List.filter (fun b => bool_decide (credentialId b ∈ ids)) bs,
     Z.of_nat (length (List.filter (fun b => negb (bool_decide (credentialId b ∈ ids))) bs))).
Proof.
  unfold removeUnhealthyBonuses.
  apply (removeStep_fold (fun b => bool_decide (credentialId b ∈ ids)) bs [] 0).
  intros y [].
Qed.

(** ** One pass *)

Lemma grantsOf_setUser apiKey bs u st :
  grantsOf apiKey (setUser apiKey (withBonuses bs u) st) = bs.
Proof. unfold grantsOf. simpl. by rewrite lookup_insert_eq. Qed.

(** What a pass returns and leaves behind, in terms of the two loops and the
    purge of expired grants. *)
Lemma syncCredentialBonuses_spec now apiKey creds st :
  let ids := healthyIdsOf creds in
  let grown := addMissingBonuses now creds (grantsOf apiKey st) in
  let kept := List.filter (fun b => bool_decide (credentialId b ∈ ids)) (fst grown) in
  let final := List.filter (fun b => negb (isBonusExpired st now b)) kept in
  let out := syncCredentialBonuses now apiKey creds st in
  added (fst out) = snd grown
  /\ removed (fst out)
     = Z.of_nat (length (List.filter
                           (fun b => negb (bool_decide (credentialId b ∈ ids))) (fst grown)))
  /\ grantsOf apiKey (snd out) = final
  /\ config (snd out) = config st
  /\ (exists u, users (snd out) !! apiKey = Some u /\ credentialBonuses u = Some final)
  /\ (forall other, other <> apiKey -> users (snd out) !! other = users st !! other).
Proof.
  intros ids grown kept final out. subst out. unfold syncCredentialBonuses.
  pose proof (ensureUserData_spec now apiKey st) as (Hu & Hb & _ & Hc & Hother).
  destruct (ensureUserData now apiKey st) as [u st'] eqn:E. simpl in Hu, Hb, Hc, Hother.
  rewrite Hb. simpl. fold grown.
  destruct grown as [bs1 a] eqn:Eg.
  rewrite removeUnhealthyBonuses_spec. fold ids. simpl in kept.
  assert (Hfilter : List.filter (fun b => negb (isBonusExpired st' now b))
                      (List.filter (fun b => bool_decide (credentialId b ∈ ids)) bs1)
                    = final).
  { subst final kept. apply filter_ext. intros b.
    by rewrite (isBonusExpired_config st st'). }
  rewrite Hfilter.
  destruct (_ || _); simpl; rewrite ?lookup_insert_eq; simpl;
    (split_and!; [done | done | | done | by eexists | ]).
  - unfold grantsOf. simpl. by rewrite lookup_insert_eq.
  - intros other Hne. rewrite lookup_insert_ne by done. by apply Hother.
  - unfold grantsOf. simpl. by rewrite lookup_insert_eq.
  - intros other Hne. rewrite lookup_insert_ne by done. by apply Hother.
Qed.

(** After a pass every grant of the user belongs to a credential the
    snapshot reports healthy and is unexpired. *)
Lemma syncCredentialBonuses_grants now apiKey creds st b :
  In b (grantsOf apiKey (snd (syncCredentialBonuses now apiKey creds st))) ->
  credentialId b ∈ healthyIdsOf creds /\ isBonusExpired st now b = false.
Proof.
  destruct (syncCredentialBonuses_spec now apiKey creds st) as (_ & _ & -> & _).
  intros Hin. apply filter_In in Hin as [Hin Hlive].
  apply filter_In in Hin as [_ Hid].
  split; [by apply bool_decide_eq_true in Hid | by apply negb_true_iff in Hlive].
Qed.

(** ** Unregistered credentials *)

(** C5, as the code has it.  A credential reported with [isHealthy = null]
    (and not reported healthy by another entry of the snapshot) gets no
    grant, and a grant it already holds is not kept: after the pass the user
    has no grant for it, and [removed] is positive whenever one existed. *)
Theorem sync_unregistered_credential (now : Z) (apiKey : string)
    (creds : list CredentialHealth) (st : UserDataStore) (c : CredentialHealth) :
  In c creds -> isHealthy c = None ->
  (forall c', In c' creds -> healthId c' = healthId c -> isHealthy c' <> Some true) ->
  let out := syncCredentialBonuses now apiKey creds st in
  (forall b, In b (grantsOf apiKey (snd out)) -> credentialId b <> healthId c)
  /\ ((exists b, In b (grantsOf apiKey st) /\ credentialId b = healthId c) ->
      0 < removed (fst out)).
Proof.
  intros Hin Hnull Hsame out. subst out.
  assert (Hnot : healthId c ∉ healthyIdsOf creds).
  { intros (c' & Hc' & Hh & Hid)%healthyIdsOf_elem. by apply (Hsame c' Hc' Hid). }
  split.
  - intros b Hb Heq.
    apply syncCredentialBonuses_grants in Hb as [Hb _]. by rewrite Heq in Hb.
  - intros (b & Hb & Heq).
    destruct (syncCredentialBonuses_spec now apiKey creds st) as (_ & -> & _).
    unfold addMissingBonuses.
    destruct (addMissing_fold now creds (grantsOf apiKey st) 0) as (new & -> & _).
    simpl.
    assert (In b (List.filter
                    (fun b => negb (bool_decide (credentialId b ∈ healthyIdsOf creds)))
                    (grantsOf apiKey st ++ new))) as Hin'.
    { apply filter_In. split; [apply in_or_app; by left |].
      rewrite Heq. by rewrite bool_decide_eq_false_2. }
    destruct (List.filter _ _); [destruct Hin' | simpl; lia].
Qed.

Lemma sync_unregistered_credential_witness :
  let st := ledgerOf 300 [grantG1; grantG2] in
  let creds := [ {| healthId := "cred_b"; isHealthy := None; healthAddedAt := Some (40 * day) |};
                 {| healthId := "cred_c"; isHealthy := Some true; healthAddedAt := Some (50 * day) |} ] in
  let out := syncCredentialBonuses (60 * day) "maki_0001" creds st in
  (forall b, In b (grantsOf "maki_0001" (snd out)) -> credentialId b <> "cred_b"%string)
  /\ ((exists b, In b (grantsOf "maki_0001" st) /\ credentialId b = "cred_b"%string) ->
      0 < removed (fst out)).
Proof.
  intros st creds.
  apply (sync_unregistered_credential (60 * day) "maki_0001" creds st
           {| healthId := "cred_b"; isHealthy := None; healthAddedAt := Some (40 * day) |}).
  - left. reflexivity.
  - reflexivity.
  - intros c' [<- | [<- | []]] Hid; simpl in *; discriminate.
Defined.

(** C5 as worded fails: an unexpired grant held by a credential that the
    snapshot reports with [isHealthy = null] is spliced out and counted in
    [removed]. *)
Lemma sync_revokes_grant_of_unregistered_credential :
  let st := ledgerOf 300 [grantG1; grantG2] in
  let creds := [ {| healthId := "cred_b"; isHealthy := None; healthAddedAt := Some (40 * day) |};
                 {| healthId := "cred_c"; isHealthy := Some true; healthAddedAt := Some (50 * day) |} ] in
  let out := syncCredentialBonuses (60 * day) "maki_0001" creds st in
  grantsOf "maki_0001" st = [grantG1; grantG2]
  /\ credentialId grantG1 = "cred_b"%string
  /\ isBonusExpired st (60 * day) grantG1 = false
  /\ grantsOf "maki_0001" (snd out) = [grantG2]
  /\ removed (fst out) = 1.
Proof. vm_compute. repeat split. Qed.

(** ** A second pass *)

Lemma withBonuses_same u bs : credentialBonuses u = Some bs -> withBonuses bs u = u.
Proof. destruct u. simpl. by intros ->. Qed.

Lemma setUser_same apiKey u st : users st !! apiKey = Some u -> setUser apiKey u st = st.
Proof. destruct st. unfold setUser. simpl. intros H. by rewrite insert_id. Qed.

(** C7, as the code has it.  With clock, configuration and snapshot
    unchanged, the second pass returns [removed = 0]; it returns [added = 0]
    exactly when every credential the snapshot reports healthy still holds a
    grant after the first pass (its grant was not purged as expired there),
    and then the second pass leaves the store as the first one left it. *)
Theorem sync_second_pass (now : Z) (apiKey : string)
    (creds : list CredentialHealth) (st : UserDataStore) :
  let st1 := snd (syncCredentialBonuses now apiKey creds st) in
  let out2 := syncCredentialBonuses now apiKey creds st1 in
  removed (fst out2) = 0
  /\ (added (fst out2) = 0 <->
        forall c, In c creds -> isHealthy c = Some true ->
          exists b, In b (grantsOf apiKey st1) /\ credentialId b = healthId c)
  /\ (added (fst out2) = 0 -> snd out2 = st1).
Proof.
  intros st1 out2.
  destruct (syncCredentialBonuses_spec now apiKey creds st)
    as (_ & _ & HL1 & Hc1 & (u1 & Hu1 & Hb1) & _).
  fold st1 in HL1, Hc1, Hu1. rewrite <- HL1 in Hb1.
  assert (Hgrants : forall b, In b (grantsOf apiKey st1) ->
            credentialId b ∈ healthyIdsOf creds /\ isBonusExpired st1 now b = false).
  { intros b Hb. apply syncCredentialBonuses_grants in Hb as [H1 H2].
    split; [done |]. rewrite <- H2. by apply isBonusExpired_config. }
  destruct (syncCredentialBonuses_spec now apiKey creds st1) as (Hadd & Hrem & _).
  fold out2 in Hadd, Hrem. unfold addMissingBonuses in Hadd, Hrem.
  destruct (addMissing_fold now creds (grantsOf apiKey st1) 0) as (new & Hfold & Hnew).
  split; [| split].
  - rewrite Hrem, Hfold. simpl. rewrite filter_nothing; [done |].
    intros b Hb. apply negb_false_iff, bool_decide_eq_true.
    apply in_app_or in Hb as [Hb | Hb].
    + by apply Hgrants.
    + rewrite Forall_forall in Hnew. apply list_elem_of_In, Hnew in Hb as [(c & ? & ? & <-) _].
      apply healthyIdsOf_elem. by exists c.
  - rewrite Hadd. apply (addMissing_none now creds (grantsOf apiKey st1) 0).
  - intros H0. rewrite Hadd, Hfold in H0. simpl in H0.
    assert (new = []) as -> by (destruct new; [done | simpl in H0; lia]).
    rewrite app_nil_r in Hfold.
    subst out2. unfold syncCredentialBonuses.
    rewrite (ensureUserData_present now apiKey st1 u1 _ Hu1 Hb1), Hb1. simpl.
    unfold addMissingBonuses. rewrite Hfold, removeUnhealthyBonuses_spec.
    rewrite (filter_all (fun b => bool_decide (credentialId b ∈ healthyIdsOf creds)))
      by (intros b Hb; apply bool_decide_eq_true; by apply Hgrants).
    rewrite (filter_nothing (fun b => negb (bool_decide (credentialId b ∈ healthyIdsOf creds))))
      by (intros b Hb; apply negb_false_iff, bool_decide_eq_true; by apply Hgrants).
    rewrite (filter_all (fun b => negb (isBonusExpired st1 now b)))
      by (intros b Hb; apply negb_true_iff; by apply Hgrants).
    rewrite (filter_nothing (isBonusExpired st1 now))
      by (intros b Hb; by apply Hgrants).
    simpl. rewrite (withBonuses_same u1 _ Hb1). by apply setUser_same.
Qed.

Lemma sync_second_pass_witness :
  let creds := [ {| healthId := "cred_b"; isHealthy := Some true;
                    healthAddedAt := Some (40 * day) |} ] in
  let st1 := snd (syncCredentialBonuses (60 * day) "maki_0001" creds (ledgerOf 300 [])) in
  let out2 := syncCredentialBonuses (60 * day) "maki_0001" creds st1 in
  removed (fst out2) = 0 /\ added (fst out2) = 0 /\ snd out2 = st1.
Proof.
  intros creds st1 out2.
  destruct (sync_second_pass (60 * day) "maki_0001" creds (ledgerOf 300 []))
    as (Hremoved & Hadded & Hfixed).
  assert (added (fst out2) = 0) as H0.
  { apply Hadded. intros c [<- | []] _.
    exists {| credentialId := "cred_b"; grantedAt := 40 * day; usedCount := 0 |}.
    split; [| reflexivity]. vm_compute. left. reflexivity. }
  split; [exact Hremoved |]. split; [exact H0 |]. exact (Hfixed H0).
Defined.

(** C7 as worded fails: a healthy credential added more than
    [bonusValidityDays] ago gets a grant dated [addedAt] that the same pass
    purges as expired, so every pass, the second included, reports
    [added = 1]. *)
Lemma sync_second_pass_adds_again :
  let st := ledgerOf 300 [] in
  let creds := [ {| healthId := "cred_a"; isHealthy := Some true; healthAddedAt := Some 0 |} ] in
  let out1 := syncCredentialBonuses (60 * day) "maki_0001" creds st in
  let out2 := syncCredentialBonuses (60 * day) "maki_0001" creds (snd out1) in
  added (fst out1) = 1 /\ grantsOf "maki_0001" (snd out1) = []
  /\ added (fst out2) = 1 /\ removed (fst out2) = 0.
Proof. vm_compute. repeat split. Qed.

End SyncSpec.

(** * The usage hook with a stale cache *)
Module PluginSpec.
Import KeyManager UserDataManager Plugin Scenarios Samples.

Lemma consumeBonus_false_store now apiKey us :
  fst (consumeBonus now apiKey us) = false -> snd (consumeBonus now apiKey us) = us.
Proof.
  intros H. unfold consumeBonus in *.
  destruct (consumeBonusBody now apiKey us) as [ok us'] eqn:E. simpl in *. subst ok.
  by apply LedgerSpec.consumeBonusBody_false in E.
Qed.

(** C4, as the code has it.  The key's daily quota is used up, its cached
    [bonusRemaining] is positive, and [consumeBonus] fails on the ledger.
    [recordUsage] then still succeeds on the bonus path: it returns the key
    with [usedBonus = true], the cached [bonusRemaining] decremented and
    [totalUsage] incremented, and it leaves the ledger untouched.  The
    failure of [consumeBonus] is not seen by [incrementUsage]. *)
Theorem recordUsage_stale_cache (today : string) (now : Z) (apiKey : string)
    (ks : KeyStore) (us : UserDataStore) (k : ApiKey) :
  keys ks !! apiKey = Some k ->
  dailyLimit k <= todayUsage (checkAndResetDailyCount today k) ->
  0 < orZero (bonusRemaining k) ->
  fst (consumeBonus now apiKey us) = false ->
  exists r ks',
    recordUsage today now apiKey ks us = (Some r, ks', us)
    /\ usedBonus r = true
    /\ bonusRemaining (resultKey r) = Some (orZero (bonusRemaining k) - 1)
    /\ totalUsage (resultKey r) = totalUsage k + 1
    /\ keys ks' !! apiKey = Some (resultKey r).
Proof.
  intros Hk Hge Hb Hfail.
  unfold recordUsage, incrementUsage. rewrite Hk.
  destruct (KeyManagerSpec.checkAndResetDailyCount_frame today k)
    as (_ & _ & _ & Hd & Ht & _ & _ & Hbr).
  simpl. rewrite Hd, Hbr.
  apply Z.ltb_ge in Hge. apply Z.ltb_lt in Hb. rewrite Hge, Hb.
  unfold bonusCallback. rewrite (consumeBonus_false_store now apiKey us Hfail).
  eexists _, _. split; [reflexivity |]. simpl.
  rewrite lookup_insert_eq, Ht. done.
Qed.

Lemma recordUsage_stale_cache_witness :
  exists r ks',
    recordUsage "2024-05-02" (60 * day) "maki_0001"
      (keyStoreOf (sampleKey 5 5 "2024-05-02" true (Some 3))) (ledgerOf 300 [grantOld])
    = (Some r, ks', ledgerOf 300 [grantOld])
    /\ usedBonus r = true
    /\ bonusRemaining (resultKey r) = Some (3 - 1)
    /\ totalUsage (resultKey r) = 42 + 1
    /\ keys ks' !! "maki_0001" = Some (resultKey r).
Proof.
  apply (recordUsage_stale_cache "2024-05-02" (60 * day) "maki_0001"
           (keyStoreOf (sampleKey 5 5 "2024-05-02" true (Some 3))) (ledgerOf 300 [grantOld])
           (sampleKey 5 5 "2024-05-02" true (Some 3))).
  - reflexivity.
  - vm_compute. discriminate.
  - reflexivity.
  - reflexivity.
Defined.

(** C4 as worded fails: the ledger holds only an expired grant, so
    [consumeBonus] returns [false], yet [recordUsage] does not return the
    no-quota outcome; it reports the request as served from the bonus pool. *)
Lemma recordUsage_admits_on_failed_consume :
  let ks := keyStoreOf (sampleKey 5 5 "2024-05-02" true (Some 3)) in
  let us := ledgerOf 300 [grantOld] in
  let out := recordUsage "2024-05-02" (60 * day) "maki_0001" ks us in
  fst (consumeBonus (60 * day) "maki_0001" us) = false
  /\ fst (fst out) <> None
  /\ (usedBonus <$> fst (fst out)) = Some true
  /\ (totalUsage <$> keys (snd (fst out)) !! "maki_0001") = Some 43.
Proof. vm_compute. repeat split. discriminate. Qed.

End PluginSpec.

(** * Credential paths across users *)
Module CredentialSpec.
Import UserDataManager Scenarios Samples.

Lemma findIndex_Some {A : Type} (f : A -> bool) (l : list A) i :
  findIndex f l = Some i -> exists x, l !! i = Some x /\ f x = true.
Proof.
  revert i. induction l as [| y l IH]; intros i; simpl; [done |].
  destruct (f y) eqn:Hy.
  - intros [= <-]. by exists y.
  - destruct (findIndex f l) as [j |]; simpl; [| done].
    intros [= <-]. by apply IH.
Qed.

Lemma elem_of_insert_inv {A : Type} (l : list A) i x y :
  y ∈ <[i := x]> l -> y = x \/ y ∈ l.
Proof.
  intros (j & Hj)%list_elem_of_lookup.
  destruct (decide (i = j)) as [-> | Hne].
  - destruct (decide (j < length l)%nat).
    + rewrite list_lookup_insert_eq in Hj by done. left. congruence.
    + rewrite list_insert_ge in Hj by lia. right. apply list_elem_of_lookup. by exists j.
  - rewrite list_lookup_insert_ne in Hj by done. right. apply list_elem_of_lookup. by exists j.
Qed.

(** [addUserCredential] changes the list of the calling user only, and every
    entry of the new list either carries the added path or was there before. *)
Lemma addUserCredential_users now freshId apiKey info st :
  let st' := snd (addUserCredential now freshId apiKey info st) in
  (forall other, other <> apiKey -> users st' !! other = users st !! other)
  /\ exists u', users st' !! apiKey = Some u'
       /\ forall c, c ∈ credentials u' ->
            path c = infoPath info \/ c ∈ getUserCredentials apiKey st.
Proof.
  unfold addUserCredential.
  pose proof (SyncSpec.ensureUserData_spec now apiKey st) as (Hu & _ & Hcreds & _ & Hother).
  destruct (ensureUserData now apiKey st) as [u st1]. simpl in Hu, Hcreds, Hother.
  destruct (findIndex _ (credentials u)) as [i |] eqn:Hi.
  - destruct (credentials u !! i) as [old |] eqn:Hold; simpl.
    + split.
      * intros other Hne. rewrite lookup_insert_ne by done. by apply Hother.
      * eexists. split; [apply lookup_insert_eq |]. simpl.
        intros c [-> | Hc]%elem_of_insert_inv; [by left |]. right. by rewrite <- Hcreds.
    + split; [done |]. exists u. split; [done |].
      intros c Hc. right. by rewrite <- Hcreds.
  - simpl. split.
    + intros other Hne. rewrite lookup_insert_ne by done. by apply Hother.
    + eexists. split; [apply lookup_insert_eq |]. simpl.
      intros c [Hc | Hc]%elem_of_app.
      * right. by rewrite <- Hcreds.
      * apply list_elem_of_singleton in Hc as ->. by left.
Qed.

Lemma removeUserCredential_users apiKey cid st a u' c :
  users (snd (removeUserCredential apiKey cid st)) !! a = Some u' ->
  c ∈ credentials u' ->
  exists u, users st !! a = Some u /\ c ∈ credentials u.
Proof.
  unfold removeUserCredential.
  destruct (users st !! apiKey) as [u |] eqn:Hu; simpl; [| by eauto].
  destruct (findIndex _ _) as [i |]; simpl; [| by eauto].
  destruct (decide (a = apiKey)) as [-> | Hne].
  - rewrite lookup_insert_eq. intros [= <-]. simpl. intros Hc%list_elem_of_delete_inv. eauto.
  - rewrite lookup_insert_ne by done. eauto.
Qed.

(** The check a caller can make before adding: when [isCredentialPathUsed]
    finds no owner, no user holds the path. *)
Lemma isCredentialPathUsed_None credPath st :
  isCredentialPathUsed credPath st = None ->
  forall apiKey, ~ heldByAnother apiKey credPath st.
Proof.
  unfold isCredentialPathUsed. intros Hnone apiKey (other & u & c & _ & Hu & Hc & Hp).
  destruct (List.find _ _) as [e |] eqn:Hfind; [discriminate |].
  assert (Hin : In (other, u) (map_to_list (users st)))
    by (by apply list_elem_of_In, elem_of_map_to_list).
  pose proof (find_none _ _ Hfind _ Hin) as Hex. simpl in Hex.
  assert (existsb (fun c => String.eqb (path c) credPath) (credentials u) = true) as Hex'.
  { apply existsb_exists. exists c. split; [by apply list_elem_of_In |].
    by apply String.eqb_eq. }
  congruence.
Qed.

(** ** The operations keep paths apart *)

Lemma migrate_keeps_unique now old new st :
  pathsGloballyUnique st ->
  pathsGloballyUnique (snd (migrateUserCredentials now old new st)).
Proof.
  intros IH. unfold migrateUserCredentials.
  destruct (users st !! old) as [uo |] eqn:Ho; simpl; [| done].
  intros a1 a2 u1 u2 c1 c2 H1 H2 Hc1 Hc2 Hp. simpl in H1, H2.
  apply lookup_delete_Some in H1 as [Hn1 H1].
  apply lookup_delete_Some in H2 as [Hn2 H2].
  destruct (decide (a1 = new)) as [-> | Hne1], (decide (a2 = new)) as [-> | Hne2]; [done | | |].
  - rewrite lookup_insert_eq in H1. injection H1 as <-. simpl in Hc1.
    rewrite lookup_insert_ne in H2 by done.
    by destruct Hn2; apply (IH old a2 uo u2 c1 c2).
  - rewrite lookup_insert_eq in H2. injection H2 as <-. simpl in Hc2.
    rewrite lookup_insert_ne in H1 by done.
    by destruct Hn1; symmetry; apply (IH a1 old u1 uo c1 c2).
  - rewrite lookup_insert_ne in H1, H2 by done.
    by apply (IH a1 a2 u1 u2 c1 c2).
Qed.

Lemma remove_keeps_unique apiKey cid st :
  pathsGloballyUnique st ->
  pathsGloballyUnique (snd (removeUserCredential apiKey cid st)).
Proof.
  intros IH a1 a2 u1 u2 c1 c2 H1 H2 Hc1 Hc2 Hp.
  destruct (removeUserCredential_users _ _ _ _ _ _ H1 Hc1) as (v1 & Hv1 & Hd1).
  destruct (removeUserCredential_users _ _ _ _ _ _ H2 Hc2) as (v2 & Hv2 & Hd2).
  by apply (IH a1 a2 v1 v2 c1 c2).
Qed.

Lemma add_keeps_unique now freshId apiKey info st :
  pathsGloballyUnique st ->
  ~ heldByAnother apiKey (infoPath info) st ->
  pathsGloballyUnique (snd (addUserCredential now freshId apiKey info st)).
Proof.
  intros IH Hguard a1 a2 u1 u2 c1 c2 H1 H2 Hc1 Hc2 Hp.
  destruct (addUserCredential_users now freshId apiKey info st) as (Hother & u' & Hu' & Hcreds).
  assert (Hmine : forall c, c ∈ credentials u' -> forall a u d,
            a <> apiKey -> users st !! a = Some u -> d ∈ credentials u ->
            path c = path d -> False).
  { intros c Hc a u d Hne Ha Hd Hpd.
    destruct (Hcreds c Hc) as [Hnew | Hold].
    - apply Hguard. exists a, u, d. split_and!; try done. congruence.
    - unfold getUserCredentials in Hold.
      destruct (users st !! apiKey) as [uk |] eqn:Hk; [| by apply elem_of_nil in Hold].
      apply Hne. symmetry. by apply (IH apiKey a uk u c d). }
  destruct (decide (a1 = apiKey)) as [-> | Hne1], (decide (a2 = apiKey)) as [-> | Hne2];
    [done | | |].
  - rewrite Hu' in H1. injection H1 as <-. rewrite Hother in H2 by done.
    by destruct (Hmine c1 Hc1 a2 u2 c2).
  - rewrite Hu' in H2. injection H2 as <-. rewrite Hother in H1 by done.
    by destruct (Hmine c2 Hc2 a1 u1 c1).
  - rewrite Hother in H1, H2 by done. by apply (IH a1 a2 u1 u2 c1 c2).
Qed.

(** C9, as the code has it.  [addUserCredential] looks for the path in the
    calling user's list only.  In every state reached from the empty store
    by [addUserCredential], [removeUserCredential] and
    [migrateUserCredentials] in which each added path was held by no other
    user at the time of the call, no two distinct users hold a credential
    with the same path. *)
Theorem guarded_paths_unique (st : UserDataStore) :
  reachableGuarded st -> pathsGloballyUnique st.
Proof.
  induction 1 as [| st now freshId apiKey info _ IH Hguard
                  | st apiKey cid _ IH | st now old new _ IH]; simpl.
  - intros a1 a2 u1 u2 c1 c2 H1. simpl in H1. by rewrite lookup_empty in H1.
  - by apply add_keeps_unique.
  - by apply remove_keeps_unique.
  - by apply migrate_keeps_unique.
Qed.

Lemma guarded_paths_unique_witness :
  pathsGloballyUnique
    (applyOps
       [ OpAdd 1000 "cred_1000_aaaaaa" "maki_0001"
           {| infoPath := "configs/kiro/1000_a/token.json"; infoProvider := None;
              infoAuthMethod := Some "file-upload" |};
         OpAdd 2000 "cred_2000_bbbbbb" "maki_0002"
           {| infoPath := "configs/kiro/2000_b/token.json"; infoProvider := None;
              infoAuthMethod := Some "file-upload" |} ]
       emptyStore).
Proof.
  apply guarded_paths_unique. simpl.
  apply reach_add; [apply reach_add; [apply reach_empty |] |].
  - intros (other & u & c & _ & Hl & _). simpl in Hl. by rewrite lookup_empty in Hl.
  - intros (other & u & c & Hne & Hl & Hc & Hp).
    destruct (addUserCredential_users 1000 "cred_1000_aaaaaa" "maki_0001"
                {| infoPath := "configs/kiro/1000_a/token.json"; infoProvider := None;
                   infoAuthMethod := Some "file-upload" |} emptyStore)
      as (Hother & u' & Hu' & Hcreds).
    unfold applyOp in Hl.
    destruct (decide (other = "maki_0001")) as [-> | Hn].
    + rewrite Hu' in Hl. injection Hl as <-.
      destruct (Hcreds c Hc) as [Hpath | Hin].
      * rewrite Hpath in Hp. discriminate Hp.
      * unfold getUserCredentials in Hin. simpl in Hin. rewrite lookup_empty in Hin.
        by apply elem_of_nil in Hin.
    + rewrite Hother in Hl by done. simpl in Hl. by rewrite lookup_empty in Hl.
Defined.

(** C9 as worded fails: two users may add the same path. *)
Lemma same_path_for_two_users :
  ~ pathsGloballyUnique
      (applyOps
         [ OpAdd 1000 "cred_1000_aaaaaa" "maki_0001"
             {| infoPath := "configs/kiro/token.json"; infoProvider := None;
                infoAuthMethod := None |};
           OpAdd 2000 "cred_2000_bbbbbb" "maki_0002"
             {| infoPath := "configs/kiro/token.json"; infoProvider := None;
                infoAuthMethod := None |} ]
         emptyStore).
Proof.
  intros H.
  assert ("maki_0001" = "maki_0002")%string as E; [| discriminate E].
  eapply (H "maki_0001" "maki_0002")%string.
  - vm_compute. reflexivity.
  - vm_compute. reflexivity.
  - simpl. apply list_elem_of_here.
  - simpl. apply list_elem_of_here.
  - reflexivity.
Qed.

End CredentialSpec.

(** * Concurrent consumption *)
Module ConcurrencySpec.
Import UserDataManager Scenarios Samples Concurrency Interleavings LedgerSpec.

(** ** Counting under an update of one call *)

Lemma countIf_insert_same (f : Phase -> bool) (l : list Phase) t p p' :
  l !! t = Some p -> f p' = f p -> countIf f (<[t := p']> l) = countIf f l.
Proof.
  unfold countIf. revert t. induction l as [| x l IH]; intros [| t] H E; simpl in *; try done.
  - injection H as ->. rewrite E. by destruct (f p).
  - destruct (f x); simpl; by rewrite (IH t).
Qed.

Lemma countIf_insert_more (f : Phase -> bool) (l : list Phase) t p p' :
  l !! t = Some p -> f p = false -> f p' = true ->
  countIf f (<[t := p']> l) = S (countIf f l).
Proof.
  unfold countIf. revert t. induction l as [| x l IH]; intros [| t] H E E'; simpl in *; try done.
  - injection H as ->. by rewrite E, E'.
  - destruct (f x); simpl; by rewrite (IH t).
Qed.

Lemma totalWeight_insert (l : list Phase) t p p' :
  l !! t = Some p ->
  (foldr (fun p n => weight p + n) 0 (<[t := p']> l) + weight p
   = foldr (fun p n => weight p + n) 0 l + weight p')%nat.
Proof.
  revert t. induction l as [| x l IH]; intros [| t] H; simpl in *; try done.
  - injection H as ->. lia.
  - specialize (IH t H). lia.
Qed.

Lemma countIf_all (f : Phase -> bool) (l : list Phase) :
  (forall p, In p l -> f p = true) -> countIf f l = length l.
Proof. intros H. unfold countIf. by rewrite SyncSpec.filter_all. Qed.

(** ** One call against a single grant *)

Lemma one_grant_step st0 apiKey i G (P : Z -> Prop) now used st :
  P now -> OneGrant st0 apiKey i G P used st ->
  let C := getBonusPerCredential st0 in
  fst (consumeBonusBody now apiKey st) = (used <? C)
  /\ OneGrant st0 apiKey i G P (if used <? C then used + 1 else used)
       (snd (consumeBonusBody now apiKey st)).
Proof.
  intros HP (Hc & u & bs & Hu & Hb & Hl & Hlive) C.
  assert (Hfirst : firstWithRemaining (getBonusPerCredential st) (sortedBonuses st now bs)
                   = if used <? C then Some (i, withUsedCount used G) else None).
  { unfold sortedBonuses. rewrite (Hlive now HP).
    rewrite (getBonusPerCredential_config st0 st Hc). fold C.
    unfold sortByGrantedAt, firstWithRemaining. simpl.
    destruct (Z.ltb_spec used C), (Z.ltb_spec 0 (C - used)); try done; lia. }
  destruct (used <? C).
  - rewrite (consumeBonusBody_found _ _ _ _ _ _ _ Hu Hb Hfirst). simpl.
    split; [done |]. split; [done |].
    eexists _, _. split; [apply lookup_insert_eq |]. split; [done |]. split.
    + rewrite list_lookup_insert_eq by (by eapply lookup_lt_Some). done.
    + intros now' HP'.
      rewrite (liveGrants_config st) by done.
      rewrite (liveGrants_insert st now' bs i _ _ Hl), (Hlive now' HP').
      simpl. unfold bumpAt. simpl. by rewrite Nat.eqb_refl.
  - rewrite (consumeBonusBody_none _ _ _ _ _ Hu Hb Hfirst). simpl.
    split; [done |]. split; [done |]. by exists u, bs.
Qed.

(** ** The invariant of the interleavings *)

Lemma lookup_insert_phase (l : list Phase) t n p q :
  l !! t = Some p -> <[t := q]> l !! n = if decide (t = n) then Some q else l !! n.
Proof.
  intros H. destruct (decide (t = n)) as [<- | Hne].
  - apply list_lookup_insert_eq. by eapply lookup_lt_Some.
  - by apply list_lookup_insert_ne.
Qed.

Section SingleGrant.
Variables (st0 : UserDataStore) (apiKey : string) (i : nat) (G : Bonus).
Variables (P : Z -> Prop) (N : nat).

Lemma WorldInv_acquire t w w' :
  WorldInv st0 apiKey i G P N w -> tasks w !! t = Some NotStarted ->
  (let '(m, resolved) := acquire t (bonusMutex w) in
   {| store := store w; bonusMutex := m;
      tasks := <[t := if resolved then Acquired else Waiting]> (tasks w) |}) = w' ->
  WorldInv st0 apiKey i G P N w' /\ (totalWeight w' < totalWeight w)%nat.
Proof.
  intros [Hlen Hgrant Hcount Hq Hnd Hfree Hheld] Ht Hw.
  assert (Hnotin : t ∉ waiting (bonusMutex w)) by (rewrite Hq, Ht; congruence).
  unfold acquire in Hw. destruct (locked (bonusMutex w)) eqn:Hl; subst w'.
  - split.
    + constructor; simpl.
      * by rewrite length_insert.
      * by rewrite (countIf_insert_same ranTrue _ t NotStarted).
      * by rewrite (countIf_insert_same ranTrue _ t NotStarted),
                   (countIf_insert_same hasRun _ t NotStarted).
      * intros n. rewrite (lookup_insert_phase _ t n NotStarted) by done.
        rewrite elem_of_app, list_elem_of_singleton, Hq.
        destruct (decide (t = n)) as [<- | Hne]; [split; [done | by right] |].
        split; [intros [H | ->]; [done | congruence] | by left].
      * apply NoDup_app. split; [done |]. split; [| apply NoDup_singleton].
        intros x Hx ->%list_elem_of_singleton. done.
      * congruence.
      * intros _. destruct (Hheld eq_refl) as (t0 & p & Ht0 & Hp).
        exists t0, p. split; [| done].
        rewrite (lookup_insert_phase _ t t0 NotStarted) by done.
        destruct (decide (t = t0)) as [<- | Hne]; [| done].
        rewrite Ht in Ht0. injection Ht0 as <-. discriminate.
    + unfold totalWeight. simpl.
      pose proof (totalWeight_insert (tasks w) t NotStarted Waiting Ht). simpl in *. lia.
  - split.
    + constructor; simpl.
      * by rewrite length_insert.
      * by rewrite (countIf_insert_same ranTrue _ t NotStarted).
      * by rewrite (countIf_insert_same ranTrue _ t NotStarted),
                   (countIf_insert_same hasRun _ t NotStarted).
      * intros n. rewrite (lookup_insert_phase _ t n NotStarted) by done.
        rewrite Hq. destruct (decide (t = n)) as [<- | Hne]; [| done].
        rewrite Ht. split; congruence.
      * done.
      * done.
      * intros _. exists t, Acquired. split; [| done].
        rewrite (lookup_insert_phase _ t t NotStarted) by done. by rewrite decide_True.
    + unfold totalWeight. simpl.
      pose proof (totalWeight_insert (tasks w) t NotStarted Acquired Ht). simpl in *. lia.
Qed.

Lemma WorldInv_body t now w :
  P now -> WorldInv st0 apiKey i G P N w -> tasks w !! t = Some Acquired ->
  let w' := {| store := snd (consumeBonusBody now apiKey (store w));
               bonusMutex := bonusMutex w;
               tasks := <[t := Ran (fst (consumeBonusBody now apiKey (store w)))]> (tasks w) |} in
  WorldInv st0 apiKey i G P N w' /\ (totalWeight w' < totalWeight w)%nat.
Proof.
  intros HP [Hlen Hgrant Hcount Hq Hnd Hfree Hheld] Ht w'.
  destruct (one_grant_step st0 apiKey i G P now _ _ HP Hgrant) as [Hres Hgrant'].
  subst w'. rewrite Hres in *. split.
  - constructor; simpl.
    + by rewrite length_insert.
    + destruct (Z.ltb_spec (Z.of_nat (countIf ranTrue (tasks w))) (getBonusPerCredential st0)).
      * rewrite (countIf_insert_more ranTrue _ t Acquired) by done.
        by rewrite Nat2Z.inj_succ, <- Z.add_1_r.
      * by rewrite (countIf_insert_same ranTrue _ t Acquired).
    + rewrite (countIf_insert_more hasRun _ t Acquired) by done.
      destruct (Z.ltb_spec (Z.of_nat (countIf ranTrue (tasks w))) (getBonusPerCredential st0)).
      * rewrite (countIf_insert_more ranTrue _ t Acquired) by done. lia.
      * rewrite (countIf_insert_same ranTrue _ t Acquired) by done. lia.
    + intros n. rewrite (lookup_insert_phase _ t n Acquired) by done.
      rewrite Hq. destruct (decide (t = n)) as [<- | Hne]; [| done].
      rewrite Ht. split; congruence.
    + done.
    + done.
    + intros _. eexists t, _. split.
      * rewrite (lookup_insert_phase _ t t Acquired) by done. by rewrite decide_True.
      * done.
  - unfold totalWeight. simpl.
    pose proof (totalWeight_insert (tasks w) t Acquired
                  (Ran (Z.of_nat (countIf ranTrue (tasks w)) <? getBonusPerCredential st0)) Ht).
    simpl in *. lia.
Qed.

Lemma WorldInv_release t result w w' :
  WorldInv st0 apiKey i G P N w -> tasks w !! t = Some (Ran result) ->
  (let '(m, next) := release (bonusMutex w) in
   let ts := <[t := Returned result]> (tasks w) in
   {| store := store w; bonusMutex := m;
      tasks := match next with Some n => <[n := Acquired]> ts | None => ts end |}) = w' ->
  WorldInv st0 apiKey i G P N w' /\ (totalWeight w' < totalWeight w)%nat.
Proof.
  intros [Hlen Hgrant Hcount Hq Hnd Hfree Hheld] Ht Hw.
  assert (Hsame : forall f : Phase -> bool, f (Returned result) = f (Ran result) ->
            countIf f (<[t := Returned result]> (tasks w)) = countIf f (tasks w))
    by (intros f Hf; by apply countIf_insert_same with (Ran result)).
  unfold release in Hw. destruct (waiting (bonusMutex w)) as [| next rest] eqn:Hwait; subst w'.
  - split.
    + constructor; simpl.
      * by rewrite length_insert.
      * rewrite Hsame; [done | by destruct result].
      * rewrite !Hsame; [done | done | by destruct result].
      * intros n. rewrite (lookup_insert_phase _ t n (Ran result)) by done.
        split; [by intros ?%elem_of_nil |].
        destruct (decide (t = n)); [done |]. intros H%Hq. by apply elem_of_nil in H.
      * constructor.
      * done.
      * done.
    + unfold totalWeight. simpl.
      pose proof (totalWeight_insert (tasks w) t (Ran result) (Returned result) Ht).
      simpl in *. lia.
  - assert (Hnext : tasks w !! next = Some Waiting) by (apply Hq; left).
    assert (Hne : t <> next) by (intros ->; congruence).
    assert (Hnext' : <[t := Returned result]> (tasks w) !! next = Some Waiting)
      by (by rewrite list_lookup_insert_ne).
    apply NoDup_cons in Hnd as [Hnotin Hnd].
    split.
    + constructor; simpl.
      * by rewrite !length_insert.
      * rewrite (countIf_insert_same ranTrue _ next Waiting) by done.
        rewrite Hsame; [done | by destruct result].
      * rewrite (countIf_insert_same ranTrue _ next Waiting),
                (countIf_insert_same hasRun _ next Waiting) by done.
        rewrite !Hsame; [done | done | by destruct result].
      * intros n. rewrite (lookup_insert_phase _ next n Waiting) by done.
        rewrite (lookup_insert_phase _ t n (Ran result)) by done.
        destruct (decide (next = n)) as [<- | Hn].
        { split; [done | congruence]. }
        destruct (decide (t = n)) as [<- | Hn'].
        { split; [| done]. intros Hin. assert (t ∈ next :: rest) as H%Hq by (by right).
          congruence. }
        rewrite <- Hq. rewrite elem_of_cons.
        split; [by right | intros [-> | ?]; done].
      * done.
      * intros Hl. apply Hfree in Hl. discriminate.
      * intros _. exists next, Acquired. split; [| done].
        rewrite (lookup_insert_phase _ next next Waiting) by done. by rewrite decide_True.
    + unfold totalWeight. simpl.
      pose proof (totalWeight_insert (tasks w) t (Ran result) (Returned result) Ht).
      pose proof (totalWeight_insert _ next Waiting Acquired Hnext').
      simpl in *. lia.
Qed.

Lemma WorldInv_step t now w w' :
  P now -> WorldInv st0 apiKey i G P N w -> step apiKey t now w = Some w' ->
  WorldInv st0 apiKey i G P N w' /\ (totalWeight w' < totalWeight w)%nat.
Proof.
  intros HP Hinv Hs. unfold step in Hs.
  destruct (tasks w !! t) as [[| | | result | result] |] eqn:Ht; try done.
  - apply (WorldInv_acquire t w w' Hinv Ht).
    destruct (acquire t (bonusMutex w)) as [m resolved]. by injection Hs.
  - pose proof (WorldInv_body t now w HP Hinv Ht) as H.
    destruct (consumeBonusBody now apiKey (store w)) as [result st]. simpl in H.
    by injection Hs as <-.
  - apply (WorldInv_release t result w w' Hinv Ht).
    destruct (release (bonusMutex w)) as [m next]. by injection Hs.
Qed.

Lemma WorldInv_run schedule : forall w,
  Forall (fun e => P (snd e)) schedule ->
  WorldInv st0 apiKey i G P N w -> WorldInv st0 apiKey i G P N (run apiKey schedule w).
Proof.
  induction schedule as [| [t now] rest IH]; intros w HP Hinv; simpl; [done |].
  apply Forall_cons in HP as [HPn HPr]. apply IH; [done |].
  destruct (step apiKey t now w) as [w' |] eqn:Hs; simpl; [| done].
  by destruct (WorldInv_step t now w w' HPn Hinv Hs).
Qed.

(** *** No deadlock, and every call returns *)

Lemma step_defined t now w p :
  tasks w !! t = Some p -> p = NotStarted \/ holdsLock p = true ->
  exists w', step apiKey t now w = Some w'.
Proof.
  intros Ht Hp. unfold step. rewrite Ht.
  destruct p as [| | | result | result]; try (destruct Hp; discriminate).
  - destruct (acquire t (bonusMutex w)). eauto.
  - destruct (consumeBonusBody now apiKey (store w)). eauto.
  - destruct (release (bonusMutex w)). eauto.
Qed.

Lemma forallb_false_lookup {A : Type} (f : A -> bool) (l : list A) :
  forallb f l = false -> exists t x, l !! t = Some x /\ f x = false.
Proof.
  induction l as [| y l IH]; simpl; [done |].
  destruct (f y) eqn:Hy; simpl.
  - intros (t & x & Ht & Hx)%IH. by exists (S t), x.
  - intros _. by exists 0%nat, y.
Qed.

Lemma WorldInv_progress now w :
  WorldInv st0 apiKey i G P N w -> allReturned w = false ->
  exists t w', step apiKey t now w = Some w'.
Proof.
  intros [_ _ _ Hq _ Hfree Hheld] Hnot.
  destruct (locked (bonusMutex w)) eqn:Hl.
  - destruct (Hheld eq_refl) as (t & p & Ht & Hp). exists t.
    apply (step_defined t now w p Ht). by right.
  - apply forallb_false_lookup in Hnot as (t & p & Ht & Hp). exists t.
    apply (step_defined t now w p Ht).
    destruct p; try (by left); try (by right).
    apply Hq in Ht. rewrite (Hfree eq_refl) in Ht. by apply elem_of_nil in Ht.
Qed.

Lemma WorldInv_completion now0 : forall n w,
  P now0 -> (totalWeight w <= n)%nat -> WorldInv st0 apiKey i G P N w ->
  exists more, Forall (fun e => snd e = now0) more
               /\ allReturned (run apiKey more w) = true.
Proof.
  induction n as [| n IH]; intros w HP Hn Hinv.
  - destruct (allReturned w) eqn:Hall; [by exists [] |].
    destruct (WorldInv_progress now0 w Hinv Hall) as (t & w' & Hs).
    destruct (WorldInv_step t now0 w w' HP Hinv Hs) as [_ Hlt]. lia.
  - destruct (allReturned w) eqn:Hall; [by exists [] |].
    destruct (WorldInv_progress now0 w Hinv Hall) as (t & w' & Hs).
    destruct (WorldInv_step t now0 w w' HP Hinv Hs) as [Hinv' Hlt].
    destruct (IH w' HP ltac:(lia) Hinv') as (more & Hmore & Hdone).
    exists ((t, now0) :: more). split; [by constructor |].
    simpl. by rewrite Hs.
Qed.

(** *** The outcome once every call has returned *)

Lemma WorldInv_outcome w :
  WorldInv st0 apiKey i G P N w -> allReturned w = true ->
  Z.of_nat (successes w) = Z.min (Z.of_nat N) (getBonusPerCredential st0)
  /\ (usedCount <$> grantAt apiKey i (store w))
     = Some (Z.min (Z.of_nat N) (getBonusPerCredential st0)).
Proof.
  intros [Hlen Hgrant Hcount _ _ _ _] Hall.
  unfold allReturned in Hall. rewrite forallb_forall in Hall.
  assert (Hran : countIf hasRun (tasks w) = N).
  { rewrite <- Hlen. apply countIf_all. intros p Hp. apply Hall in Hp. by destruct p. }
  assert (Hsucc : successes w = countIf ranTrue (tasks w)).
  { unfold successes, countIf. f_equal. apply filter_ext_in.
    intros p Hp. apply Hall in Hp. by destruct p. }
  rewrite Hran in Hcount. rewrite Hsucc, Hcount. split; [done |].
  destruct Hgrant as (_ & u & bs & Hu & Hb & Hl & _).
  unfold grantAt. rewrite Hu, Hb, Hl. simpl. by rewrite Hcount.
Qed.

End SingleGrant.

Lemma run_app apiKey s1 s2 w : run apiKey (s1 ++ s2) w = run apiKey s2 (run apiKey s1 w).
Proof. revert w. induction s1 as [| [t now] s1 IH]; intros w; simpl; [done | apply IH]. Qed.

Lemma countIf_replicate_false (f : Phase -> bool) n p :
  f p = false -> countIf f (replicate n p) = 0%nat.
Proof.
  intros H. unfold countIf. induction n as [| n IH]; simpl; [done |]. by rewrite H.
Qed.

Lemma WorldInv_initial st apiKey u bs i G (P : Z -> Prop) N :
  users st !! apiKey = Some u -> credentialBonuses u = Some bs ->
  bs !! i = Some G -> usedCount G = 0 -> 0 <= getBonusPerCredential st ->
  (forall now, P now -> liveGrants st now bs = [(i, G)]) ->
  WorldInv st apiKey i G P N (initial N st).
Proof.
  intros Hu Hb Hl H0 HC Hlive.
  assert (withUsedCount 0 G = G) as E by (rewrite <- H0; apply withUsedCount_id).
  constructor; simpl.
  - apply length_replicate.
  - rewrite countIf_replicate_false by done. change (Z.of_nat 0) with 0.
    unfold OneGrant. rewrite E.
    split; [done |]. by exists u, bs.
  - rewrite !countIf_replicate_false by done. simpl. lia.
  - intros n. split; [by intros ?%elem_of_nil |].
    intros [? _]%lookup_replicate. discriminate.
  - constructor.
  - done.
  - discriminate.
Qed.

(** C3.  [N] calls of [consumeBonus] are issued for one user whose only
    unexpired grant (at every clock reading of the schedule) is [G], unused
    and of capacity [C >= 0].  Whatever the order in which the event loop
    runs the pieces of the calls, once all calls have returned exactly
    [min(N, C)] of them returned [true] and the grant's [usedCount] is
    [min(N, C)]; and every schedule can be continued until all calls have
    returned, so no call waits for the mutex for ever. *)
Theorem concurrent_consume_exact (apiKey : string) (st : UserDataStore) (u : UserData)
    (bs : list Bonus) (i : nat) (G : Bonus) (N : nat)
    (schedule : list (nat * Z)) (now0 : Z) :
  users st !! apiKey = Some u -> credentialBonuses u = Some bs ->
  usedCount G = 0 -> 0 <= getBonusPerCredential st ->
  Forall (fun e => liveGrants st (snd e) bs = [(i, G)]) schedule ->
  liveGrants st now0 bs = [(i, G)] ->
  let C := getBonusPerCredential st in
  let w := run apiKey schedule (initial N st) in
  (allReturned w = true ->
     Z.of_nat (successes w) = Z.min (Z.of_nat N) C
     /\ (usedCount <$> grantAt apiKey i (store w)) = Some (Z.min (Z.of_nat N) C))
  /\ exists more,
       Forall (fun e => snd e = now0) more
       /\ allReturned (run apiKey (schedule ++ more) (initial N st)) = true.
Proof.
  intros Hu Hb H0 HC Hsched Hnow0 C w.
  set (P := fun now => liveGrants st now bs = [(i, G)]).
  assert (Hl : bs !! i = Some G).
  { apply (liveGrants_In st now0 bs i G). rewrite Hnow0. by left. }
  pose proof (WorldInv_initial st apiKey u bs i G P N Hu Hb Hl H0 HC ltac:(done)) as Hinit.
  pose proof (WorldInv_run st apiKey i G P N schedule _ Hsched Hinit) as Hinv.
  split.
  - by apply (WorldInv_outcome st apiKey i G P N).
  - destruct (WorldInv_completion st apiKey i G P N now0 (totalWeight w) w
                Hnow0 ltac:(done) Hinv) as (more & Hmore & Hdone).
    exists more. split; [done |]. by rewrite run_app.
Qed.

Lemma concurrent_consume_exact_witness :
  let st := ledgerOf 2 [grantOld; grantG1] in
  let t := 60 * day in
  let schedule := [(0%nat, t); (1%nat, t); (2%nat, t); (0%nat, t); (1%nat, t + 1);
                   (0%nat, t + 1); (2%nat, t + 1); (1%nat, t + 2); (1%nat, t + 2);
                   (2%nat, t + 3); (2%nat, t + 3)] in
  let w := run "maki_0001" schedule (initial 3 st) in
  Z.of_nat (successes w) = 2
  /\ (usedCount <$> grantAt "maki_0001" 1 (store w)) = Some 2.
Proof.
  intros st t schedule w.
  refine (proj1 (concurrent_consume_exact "maki_0001" st
            {| credentials := []; credentialBonuses := Some [grantOld; grantG1];
               userCreatedAt := 0; migratedFrom := None; migratedAt := None |}
            [grantOld; grantG1] 1 grantG1 3 schedule t _ _ _ _ _ _) _).
  - reflexivity.
  - reflexivity.
  - reflexivity.
  - vm_compute. discriminate.
  - repeat constructor.
  - reflexivity.
  - vm_compute. reflexivity.
Defined.

End ConcurrencySpec.

(** * Key lifecycle *)
Module KeyAdminSpec.
Import KeyManager KeyAdmin Measures Samples MoreSamples.

Lemma prefix_append (p s : string) : String.prefix p (p ++ s)%string = true.
Proof.
  induction p as [| a p IH]; simpl; [by destruct s |].
  destruct (Ascii.ascii_dec a a); [done | congruence].
Qed.

Lemma generateLoop_spec draws st rounds : forall attempts,
  (attempts + rounds = maxAttempts)%nat ->
  match generateLoop draws st attempts rounds with
  | Some apiKey =>
    exists j, (attempts <= j < 9)%nat /\ apiKey = (KEY_PREFIX ++ draws j)%string
              /\ keys st !! apiKey = None
              /\ forall i, (attempts <= i < j)%nat ->
                   is_Some (keys st !! (KEY_PREFIX ++ draws i)%string)
  | None =>
    forall i, (attempts <= i < 9)%nat -> is_Some (keys st !! (KEY_PREFIX ++ draws i)%string)
  end.
Proof.
  induction rounds as [| rounds IH]; intros attempts Hsum; cbn [generateLoop].
  - intros i Hi. unfold maxAttempts in Hsum. lia.
  - destruct (Nat.leb_spec maxAttempts (S attempts)) as [Hge | Hlt];
      unfold maxAttempts in *.
    + intros i Hi. lia.
    + destruct (keys st !! (KEY_PREFIX ++ draws attempts)%string) as [k |] eqn:Hk.
      * specialize (IH (S attempts) ltac:(lia)).
        destruct (generateLoop draws st (S attempts) rounds) as [apiKey |].
        -- destruct IH as (j & Hj & -> & Hfree & Hbusy).
           exists j. split; [lia |]. split; [done |]. split; [done |].
           intros i Hi. destruct (decide (i = attempts)) as [-> | Hne]; [by rewrite Hk |].
           apply Hbusy. lia.
        -- intros i Hi. destruct (decide (i = attempts)) as [-> | Hne]; [by rewrite Hk |].
           apply IH. lia.
      * exists attempts. split; [lia |]. split; [done |]. split; [done |].
        intros i Hi. lia.
Qed.

Lemma generateApiKey_fresh draws st apiKey :
  generateApiKey draws st = Some apiKey ->
  String.prefix KEY_PREFIX apiKey = true /\ keys st !! apiKey = None.
Proof.
  intros H. pose proof (generateLoop_spec draws st maxAttempts 0%nat eq_refl) as Hr.
  unfold generateApiKey in H. rewrite H in Hr.
  destruct Hr as (j & _ & -> & Hfree & _). split; [apply prefix_append | done].
Qed.

(** X1.  [generateApiKey] tries the draws one after the other, nine of them
    at most: the key it returns is [maki_] followed by the first draw that
    is not stored yet, and it throws exactly when the first nine draws are
    all taken; the tenth round throws before its draw is looked at. *)
Theorem generateApiKey_result (draws : nat -> string) (st : KeyStore) :
  match generateApiKey draws st with
  | Some apiKey =>
    String.prefix KEY_PREFIX apiKey = true
    /\ keys st !! apiKey = None
    /\ exists j, (j < 9)%nat /\ apiKey = (KEY_PREFIX ++ draws j)%string
         /\ forall i, (i < j)%nat -> is_Some (keys st !! (KEY_PREFIX ++ draws i)%string)
  | None =>
    forall i, (i < 9)%nat -> is_Some (keys st !! (KEY_PREFIX ++ draws i)%string)
  end.
Proof.
  pose proof (generateLoop_spec draws st maxAttempts 0%nat eq_refl) as H.
  unfold generateApiKey. destruct (generateLoop draws st 0 maxAttempts) as [apiKey |].
  - destruct H as (j & Hj & -> & Hfree & Hbusy).
    split; [apply prefix_append |]. split; [done |].
    exists j. split; [lia |]. split; [done |]. intros i Hi. apply Hbusy. lia.
  - intros i Hi. apply H. lia.
Qed.

(** ** Admission after the lifecycle operations *)

(** The answer of [validateKey] for a stored, enabled key with the prefix. *)
Lemma validateKey_enabled today apiKey st k :
  String.prefix KEY_PREFIX apiKey = true -> keys st !! apiKey = Some k -> enabled k = true ->
  let k0 := checkAndResetDailyCount today k in
  fst (validateKey today apiKey st)
  = if todayUsage k0 <? dailyLimit k then Valid k0 false None
    else if 0 <? orZero (bonusRemaining k) then Valid k0 true (Some (orZero (bonusRemaining k)))
    else Invalid quota_exceeded (Some k0).
Proof.
  intros Hp Hk He. unfold validateKey. rewrite Hp, Hk, He. simpl.
  destruct (KeyManagerSpec.checkAndResetDailyCount_frame today k)
    as (_ & _ & _ & Hd & _ & _ & _ & Hb).
  rewrite Hd, Hb. repeat case_match; done.
Qed.


(** X2.  A key returned by [createKey] is new to the store and is stored
    under its own id, next to the keys that were there; on the day of its
    creation [validateKey] admits it on the daily quota when its limit is
    positive and answers [quota_exceeded] when the limit is 0 or less. *)
Theorem createKey_then_validate (draws : nat -> string) (today : string) (now : Z)
    (configGetter : option KeyConfig) (name : string) (dailyLimit' : option Z)
    (st st' : KeyStore) (k : ApiKey) :
  createKey draws today now configGetter name dailyLimit' st = Some (k, st') ->
  keys st !! keyId k = None
  /\ keys st' !! keyId k = Some k
  /\ (forall other, other <> keyId k -> keys st' !! other = keys st !! other)
  /\ todayUsage k = 0 /\ totalUsage k = 0 /\ enabled k = true
  /\ dailyLimit k = match dailyLimit' with
                    | Some l => l
                    | None => default 500 (cfgDefaultDailyLimit (getConfig configGetter))
                    end
  /\ fst (validateKey today (keyId k) st')
     = if 0 <? dailyLimit k then Valid k false None else Invalid quota_exceeded (Some k).
Proof.
  unfold createKey. intros H.
  destruct (generateApiKey draws st) as [apiKey |] eqn:Hg; [| discriminate].
  destruct (generateApiKey_fresh draws st apiKey Hg) as [Hp Hfree].
  injection H as <- <-. simpl.
  split; [done |]. split; [apply lookup_insert_eq |].
  split; [intros other Hne; by rewrite lookup_insert_ne |].
  do 4 (split; [done |]).
  match goal with |- fst (validateKey _ _ ?s) = _ => set (st1 := s) end.
  match goal with |- context [Valid ?x false None] => set (k := x) end.
  assert (Hk : keys st1 !! apiKey = Some k) by apply lookup_insert_eq.
  rewrite (validateKey_enabled today apiKey st1 k Hp Hk eq_refl).
  rewrite KeyManagerSpec.checkAndResetDailyCount_same_day by done.
  done.
Qed.

Lemma createKey_then_validate_witness :
  exists k st',
    createKey sampleDraws "2024-05-02" 1714600000000 None "" None
      (keyStoreOf (sampleKey 5 5 "2024-05-02" true None)) = Some (k, st')
    /\ keyName k = "Key-3"%string /\ dailyLimit k = 500
    /\ fst (validateKey "2024-05-02" (keyId k) st') = Valid k false None.
Proof.
  eexists _, _. split; [reflexivity |]. split; [reflexivity |]. split; [reflexivity |].
  exact (proj2 (proj2 (proj2 (proj2 (proj2 (proj2 (proj2
           (createKey_then_validate sampleDraws "2024-05-02" 1714600000000 None "" None
              (keyStoreOf (sampleKey 5 5 "2024-05-02" true None)) _ _ eq_refl)))))))).
Defined.


Lemma updateStored_lookup f apiKey st k :
  keys st !! apiKey = Some k ->
  fst (updateStored f apiKey st) = Some (f k)
  /\ keys (snd (updateStored f apiKey st)) !! apiKey = Some (f k)
  /\ forall other, other <> apiKey ->
       keys (snd (updateStored f apiKey st)) !! other = keys st !! other.
Proof.
  intros Hk. unfold updateStored. rewrite Hk. simpl.
  split; [done |]. split; [apply lookup_insert_eq |].
  intros other Hne. by rewrite lookup_insert_ne.
Qed.




(** X5.  [resetKeyUsage] gives an enabled key its whole daily quota back:
    whatever its usage was, [validateKey] on that day admits it on the daily
    quota as soon as its limit is positive.  The reset keeps [totalUsage]
    and the cached [bonusRemaining], and touches no other key. *)
Theorem resetKeyUsage_then_validate (today apiKey : string) (st : KeyStore) (k : ApiKey) :
  keys st !! apiKey = Some k ->
  exists k',
    fst (resetKeyUsage today apiKey st) = Some k'
    /\ keys (snd (resetKeyUsage today apiKey st)) !! apiKey = Some k'
    /\ todayUsage k' = 0 /\ lastResetDate k' = today
    /\ totalUsage k' = totalUsage k /\ bonusRemaining k' = bonusRemaining k
    /\ dailyLimit k' = dailyLimit k
    /\ (forall other, other <> apiKey ->
          keys (snd (resetKeyUsage today apiKey st)) !! other = keys st !! other)
    /\ (String.prefix KEY_PREFIX apiKey = true -> enabled k = true -> 0 < dailyLimit k ->
        fst (validateKey today apiKey (snd (resetKeyUsage today apiKey st)))
        = Valid k' false None).
Proof.
  intros Hk. unfold resetKeyUsage.
  match goal with |- context [updateStored ?g _ _] => set (f := g) end.
  destruct (updateStored_lookup f apiKey st k Hk) as (Hr & Hk' & Hother).
  exists (f k). split; [done |]. split; [done |].
  do 5 (split; [done |]). split; [done |].
  intros Hp He Hl.
  rewrite (validateKey_enabled today apiKey _ (f k) Hp Hk' He).
  rewrite KeyManagerSpec.checkAndResetDailyCount_same_day by done.
  simpl. by destruct (Z.ltb_spec 0 (dailyLimit k)); [| lia].
Qed.

Lemma resetKeyUsage_then_validate_witness :
  exists k',
    keys (snd (resetKeyUsage "2024-05-02" "maki_0001"
                 (keyStoreOf (sampleKey 5 5 "2024-05-02" true None)))) !! "maki_0001" = Some k'
    /\ fst (validateKey "2024-05-02" "maki_0001"
              (snd (resetKeyUsage "2024-05-02" "maki_0001"
                      (keyStoreOf (sampleKey 5 5 "2024-05-02" true None)))))
       = Valid k' false None.
Proof.
  destruct (resetKeyUsage_then_validate "2024-05-02" "maki_0001"
              (keyStoreOf (sampleKey 5 5 "2024-05-02" true None))
              (sampleKey 5 5 "2024-05-02" true None) eq_refl)
    as (k' & _ & Hk' & _ & _ & _ & _ & _ & _ & Hv).
  exists k'. split; [exact Hk' |]. apply Hv; reflexivity.
Defined.

(** X6.  After [updateKeyLimit] the new limit decides admission at once: an
    enabled key is admitted on the daily quota exactly when today's usage is
    below the new limit, so lowering the limit to the usage or below sends
    the key to its bonus or to [quota_exceeded].  Usage counters are kept. *)
Theorem updateKeyLimit_then_validate (today apiKey : string) (newLimit : Z)
    (st : KeyStore) (k : ApiKey) :
  keys st !! apiKey = Some k -> String.prefix KEY_PREFIX apiKey = true -> enabled k = true ->
  let st' := snd (updateKeyLimit apiKey newLimit st) in
  let used := todayUsage (checkAndResetDailyCount today k) in
  keys st' !! apiKey = Some (withDailyLimit newLimit k)
  /\ ((exists k', fst (validateKey today apiKey st') = Valid k' false None)
      <-> used < newLimit)
  /\ (newLimit <= used -> orZero (bonusRemaining k) <= 0 ->
      exists k', fst (validateKey today apiKey st') = Invalid quota_exceeded (Some k')).
Proof.
  intros Hk Hp He st' used.
  destruct (updateStored_lookup (withDailyLimit newLimit) apiKey st k Hk) as (_ & Hk' & _).
  fold (updateKeyLimit apiKey newLimit st) in Hk'. fold st' in Hk'.
  split; [done |].
  pose proof (validateKey_enabled today apiKey st' _ Hp Hk' He) as Hv. simpl in Hv.
  assert (Hused : todayUsage (checkAndResetDailyCount today (withDailyLimit newLimit k)) = used).
  { subst used. unfold checkAndResetDailyCount. simpl. by destruct (negb _). }
  rewrite Hused in Hv. rewrite Hv.
  destruct (Z.ltb_spec used newLimit) as [Hlt | Hge].
  - split; [split; [done | eauto] |]. lia.
  - split.
    + split; [| lia]. intros [k' H]. destruct (0 <? orZero (bonusRemaining k)); discriminate.
    + intros _ Hb. destruct (Z.ltb_spec 0 (orZero (bonusRemaining k))); [lia | eauto].
Qed.

Lemma updateKeyLimit_then_validate_witness :
  exists k',
    fst (validateKey "2024-05-02" "maki_0001"
           (snd (updateKeyLimit "maki_0001" 3
                   (keyStoreOf (sampleKey 5 9 "2024-05-02" true None)))))
    = Invalid quota_exceeded (Some k').
Proof.
  apply (proj2 (proj2 (updateKeyLimit_then_validate "2024-05-02" "maki_0001" 3
                         (keyStoreOf (sampleKey 5 9 "2024-05-02" true None))
                         (sampleKey 5 9 "2024-05-02" true None) eq_refl eq_refl eq_refl)));
    vm_compute; discriminate.
Defined.



End KeyAdminSpec.

(** * Statistics, bulk limits and the daily budget of a key *)
Module KeyStatsSpec.
Import KeyManager KeyAdmin Measures Samples MoreSamples.

Lemma sumOf_perm {A : Type} (f : A -> Z) (l l' : list A) :
  l ≡ₚ l' -> sumOf f l = sumOf f l'.
Proof. unfold sumOf. induction 1; simpl; lia. Qed.

Lemma sumOf_map {A B : Type} (f : B -> Z) (g : A -> B) (l : list A) :
  sumOf f (map g l) = sumOf (fun x => f (g x)) l.
Proof. unfold sumOf. induction l as [| x l IH]; simpl; [done | by rewrite IH]. Qed.

Lemma sumOf_ext {A : Type} (f g : A -> Z) (l : list A) :
  (forall x, f x = g x) -> sumOf f l = sumOf g l.
Proof. intros H. unfold sumOf. induction l as [| x l IH]; simpl; [done | by rewrite IH, H]. Qed.

Lemma sumOf_flag_bounds {A : Type} (p : A -> bool) (l : list A) :
  0 <= sumOf (fun x => if p x then 1 else 0) l <= Z.of_nat (length l).
Proof. unfold sumOf. induction l as [| x l IH]; simpl; [lia |]. destruct (p x); lia. Qed.

Lemma statsStep_fold today (l : list ApiKey) : forall a b c,
  fold_left (statsStep today) l (a, b, c)
  = (a + sumOf (fun k => if enabled k then 1 else 0) l,
     b + sumOf (fun k => todayUsage (checkAndResetDailyCount today k)) l,
     c + sumOf totalUsage l).
Proof.
  unfold sumOf. induction l as [| k l IH]; intros a b c; simpl.
  - by rewrite !Z.add_0_r.
  - rewrite IH.
    destruct (KeyManagerSpec.checkAndResetDailyCount_frame today k)
      as (_ & _ & _ & _ & Ht & _ & He & _).
    rewrite He, Ht.
    destruct (enabled k);
      (apply injective_projections; [apply injective_projections |]); simpl; lia.
Qed.

Lemma checkAndResetDailyCount_twice today k :
  checkAndResetDailyCount today (checkAndResetDailyCount today k)
  = checkAndResetDailyCount today k.
Proof.
  apply KeyManagerSpec.checkAndResetDailyCount_same_day,
        KeyManagerSpec.checkAndResetDailyCount_date.
Qed.

Lemma storedKeys_fmap (f : ApiKey -> ApiKey) (st : KeyStore) d :
  storedKeys {| keys := f <$> keys st; isDirty := d |} ≡ₚ map f (storedKeys st).
Proof.
  unfold storedKeys. simpl. rewrite map_to_list_fmap.
  induction (map_to_list (keys st)) as [| [i x] l IH]; simpl; [done |].
  by constructor.
Qed.

(** X8.  [getStats] counts every stored key once as enabled or disabled and
    resets the daily counter of all of them, the disabled ones too: after
    the call each stored key has [lastResetDate] today, the reported
    [todayTotalUsage] is the sum of the stored [todayUsage] values, and a
    second call on the same day returns the same figures and changes
    nothing. *)
Theorem getStats_resets_and_counts (today : string) (st : KeyStore) :
  let s := fst (getStats today st) in
  let st' := snd (getStats today st) in
  totalKeys s = Z.of_nat (size (keys st))
  /\ totalKeys s = enabledKeys s + disabledKeys s
  /\ 0 <= enabledKeys s <= totalKeys s
  /\ (forall apiKey, keys st' !! apiKey = checkAndResetDailyCount today <$> keys st !! apiKey)
  /\ (forall apiKey k, keys st' !! apiKey = Some k -> lastResetDate k = today)
  /\ todayTotalUsage s = sumOf todayUsage (storedKeys st')
  /\ getStats today st' = (s, st').
Proof.
  intros s st'.
  assert (Hs : s = {| totalKeys := Z.of_nat (length (storedKeys st));
                      enabledKeys := sumOf (fun k => if enabled k then 1 else 0) (storedKeys st);
                      disabledKeys := Z.of_nat (length (storedKeys st))
                                      - sumOf (fun k => if enabled k then 1 else 0) (storedKeys st);
                      todayTotalUsage :=
                        sumOf (fun k => todayUsage (checkAndResetDailyCount today k)) (storedKeys st);
                      statsTotalUsage := sumOf totalUsage (storedKeys st) |}).
  { subst s. unfold getStats. fold (storedKeys st).
    rewrite (statsStep_fold today (storedKeys st) 0 0 0). done. }
  assert (Hst' : st' = {| keys := checkAndResetDailyCount today <$> keys st;
                          isDirty := isDirty st |}).
  { subst st'. unfold getStats. by repeat case_match. }
  assert (Hlen : length (storedKeys st) = size (keys st)).
  { unfold storedKeys. by rewrite length_map, length_map_to_list. }
  pose proof (storedKeys_fmap (checkAndResetDailyCount today) st (isDirty st)) as Hperm.
  rewrite <- Hst' in Hperm.
  split; [by rewrite Hs, <- Hlen |]. split; [rewrite Hs; simpl; lia |].
  split; [rewrite Hs; simpl; apply sumOf_flag_bounds |].
  split; [intros apiKey; rewrite Hst'; simpl; apply lookup_fmap |].
  split.
  { intros apiKey k. rewrite Hst'. simpl. rewrite lookup_fmap.
    destruct (keys st !! apiKey) as [k0 |]; simpl; [| done].
    intros [= <-]. apply KeyManagerSpec.checkAndResetDailyCount_date. }
  split.
  { rewrite Hs. simpl. rewrite (sumOf_perm _ _ _ Hperm), sumOf_map. done. }
  assert (Hs' : fst (getStats today st') = s).
  { unfold getStats. fold (storedKeys st').
    rewrite (statsStep_fold today (storedKeys st') 0 0 0). simpl.
    rewrite !(sumOf_perm _ _ _ Hperm), !sumOf_map, (Permutation_length Hperm), length_map.
    rewrite Hs. f_equal.
    - apply sumOf_ext. intros k.
      by destruct (KeyManagerSpec.checkAndResetDailyCount_frame today k)
        as (_ & _ & _ & _ & _ & _ & -> & _).
    - f_equal. apply sumOf_ext. intros k.
      by destruct (KeyManagerSpec.checkAndResetDailyCount_frame today k)
        as (_ & _ & _ & _ & _ & _ & -> & _).
    - apply sumOf_ext. intros k. by rewrite checkAndResetDailyCount_twice.
    - apply sumOf_ext. intros k.
      by destruct (KeyManagerSpec.checkAndResetDailyCount_frame today k)
        as (_ & _ & _ & _ & -> & _). }
  assert (Hst'' : snd (getStats today st') = st').
  { transitivity {| keys := checkAndResetDailyCount today <$> keys st';
                    isDirty := isDirty st' |}.
    { unfold getStats. by repeat case_match. }
    rewrite Hst' at 3. rewrite Hst' at 1 2. simpl. f_equal.
    rewrite <- map_fmap_compose. apply map_fmap_ext.
    intros i k _. simpl. apply checkAndResetDailyCount_twice. }
  apply injective_projections; [exact Hs' | exact Hst''].
Qed.





(** ** The requests a key serves in one day *)

Lemma dailyLeft_today today k :
  lastResetDate k = today -> dailyLeft today k = Z.max 0 (dailyLimit k - todayUsage k).
Proof.
  intros H. unfold dailyLeft. by rewrite KeyManagerSpec.checkAndResetDailyCount_same_day.
Qed.

(** One call without callback, in terms of the units left. *)
Lemma incrementUsage_units today now apiKey st k :
  keys st !! apiKey = Some k ->
  let out := incrementUsage (L := unit) today now apiKey None st tt in
  exists k1,
    keys (snd (fst out)) !! apiKey = Some k1
    /\ (usedBonus <$> fst (fst out))
       = (if 0 <? dailyLeft today k then Some false
          else if 0 <? bonusLeft k then Some true else None)
    /\ dailyLeft today k1 = Z.max 0 (dailyLeft today k - 1)
    /\ bonusLeft k1 = (if 0 <? dailyLeft today k then bonusLeft k
                       else Z.max 0 (bonusLeft k - 1))
    /\ totalUsage k1 = (if (0 <? dailyLeft today k) || (0 <? bonusLeft k)
                        then totalUsage k + 1 else totalUsage k).
Proof.
  intros Hk out. subst out. unfold incrementUsage. rewrite Hk.
  pose proof (KeyManagerSpec.checkAndResetDailyCount_frame today k)
    as (_ & _ & _ & Hd & Ht & _ & _ & Hb).
  pose proof (KeyManagerSpec.checkAndResetDailyCount_date today k) as Hdate.
  simpl in *.
  set (k0 := checkAndResetDailyCount today k) in *.
  unfold dailyLeft at 1 3 4 5. fold k0. unfold bonusLeft at 2 3 4 5.
  rewrite Hd, Hb.
  destruct (Z.ltb_spec (todayUsage k0) (dailyLimit k)) as [Hlt | Hge].
  - eexists. simpl. split; [apply lookup_insert_eq |].
    rewrite dailyLeft_today by done. unfold bonusLeft. simpl.
    destruct (Z.ltb_spec 0 (Z.max 0 (dailyLimit k - todayUsage k0))); [| lia].
    simpl. rewrite Hd, Hb, Ht. split; [done |]. split; [lia |]. done.
  - destruct (Z.ltb_spec 0 (orZero (bonusRemaining k))) as [Hpos | Hnon].
    + eexists. simpl. split; [apply lookup_insert_eq |].
      rewrite dailyLeft_today by done. unfold bonusLeft. simpl.
      destruct (Z.ltb_spec 0 (Z.max 0 (dailyLimit k - todayUsage k0))); [lia |].
      destruct (Z.ltb_spec 0 (Z.max 0 (orZero (bonusRemaining k)))); [| lia].
      simpl. rewrite Hd, Ht. split; [done |]. split; [lia |]. split; [lia | done].
    + exists k0. simpl. split; [apply lookup_insert_eq |].
      rewrite dailyLeft_today by done. unfold bonusLeft.
      destruct (Z.ltb_spec 0 (Z.max 0 (dailyLimit k - todayUsage k0))); [lia |].
      destruct (Z.ltb_spec 0 (Z.max 0 (orZero (bonusRemaining k)))); [lia |].
      simpl. rewrite Hd, Hb, Ht. split; [done |]. split; [lia |]. split; [lia | done].
Qed.

(** Arithmetic of one unit leaving a budget of [d] daily and [B] bonus
    units: what the remaining [n] calls then see. *)
Lemma budget_step (d B n t : Z) :
  0 <= d -> 0 <= B -> 0 <= n ->
  let d1 := Z.max 0 (d - 1) in
  let B1 := if 0 <? d then B else Z.max 0 (B - 1) in
  let t1 := if (0 <? d) || (0 <? B) then t + 1 else t in
  t1 + Z.min n (d1 + B1) = t + Z.min (n + 1) (d + B)
  /\ Z.max 0 (d1 - n) = Z.max 0 (d - (n + 1))
  /\ Z.min B1 (Z.max 0 (d1 + B1 - n)) = Z.min B (Z.max 0 (d + B - (n + 1))).
Proof.
  intros Hd HB Hn d1 B1 t1. subst d1 B1 t1.
  destruct (Z.ltb_spec 0 d) as [Hpos | Hz].
  - rewrite (Z.max_r 0 (d - 1)) by lia. cbn [orb].
    split; [lia |]. split; [f_equal; lia |]. do 2 f_equal. lia.
  - assert (d = 0) as -> by lia. clear Hd Hz.
    change (Z.max 0 (0 - 1)) with 0. cbn [orb].
    destruct (Z.ltb_spec 0 B) as [Hpos | Hz].
    + rewrite (Z.max_r 0 (B - 1)) by lia.
      split; [lia |]. split; lia.
    + assert (B = 0) as -> by lia. clear HB Hz.
      change (Z.max 0 (0 - 1)) with 0.
      split; [lia |]. split; lia.
Qed.

Lemma budget_index (d B j : Z) :
  0 <= d -> 0 <= B -> 0 <= j ->
  let d1 := Z.max 0 (d - 1) in
  let B1 := if 0 <? d then B else Z.max 0 (B - 1) in
  (j <? d1) = (j + 1 <? d) /\ (j <? d1 + B1) = (j + 1 <? d + B).
Proof.
  intros Hd HB Hj d1 B1. subst d1 B1.
  destruct (Z.ltb_spec 0 d) as [Hpos | Hz].
  - rewrite (Z.max_r 0 (d - 1)) by lia.
    split; [destruct (Z.ltb_spec j (d - 1)), (Z.ltb_spec (j + 1) d); done || lia |].
    destruct (Z.ltb_spec j (d - 1 + B)), (Z.ltb_spec (j + 1) (d + B)); done || lia.
  - assert (d = 0) as -> by lia. clear Hd Hz.
    change (Z.max 0 (0 - 1)) with 0.
    split; [destruct (Z.ltb_spec j 0), (Z.ltb_spec (j + 1) 0); done || lia |].
    destruct (Z.ltb_spec 0 B) as [Hpos | Hz].
    + rewrite (Z.max_r 0 (B - 1)) by lia.
      destruct (Z.ltb_spec j (0 + (B - 1))), (Z.ltb_spec (j + 1) (0 + B)); done || lia.
    + assert (B = 0) as -> by lia.
      change (Z.max 0 (0 - 1)) with 0.
      destruct (Z.ltb_spec j (0 + 0)), (Z.ltb_spec (j + 1) (0 + 0)); done || lia.
Qed.

Lemma budget_first (d B : Z) :
  0 <= d -> 0 <= B ->
  (if 0 <? d then Some false else if 0 <? B then Some true else None)
  = (if 0 <? d then Some false else if 0 <? d + B then Some true else @None bool).
Proof.
  intros Hd HB. destruct (Z.ltb_spec 0 d) as [Hpos | Hz]; [done |].
  assert (d = 0) as -> by lia. done.
Qed.

(** X10.  A key serves, in one day and with its cache untouched, exactly its
    daily units and then its cached bonus units: with [d] daily units and
    [B] cached bonus units left, of [n] successive [incrementUsage] calls
    the first [d] succeed on the daily quota, the next [B] on the bonus, and
    all later ones return [null]; [totalUsage] grows by [min(n, d + B)]. *)
Theorem incrementUsage_daily_budget (today : string) (now : Z) (apiKey : string)
    (n : nat) : forall (st : KeyStore) (k : ApiKey),
  keys st !! apiKey = Some k ->
  let d := dailyLeft today k in
  let B := bonusLeft k in
  let out := incrementMany today now apiKey n st in
  length (fst out) = n
  /\ (forall j r, fst out !! j = Some r ->
        (usedBonus <$> r)
        = if Z.of_nat j <? d then Some false
          else if Z.of_nat j <? d + B then Some true else None)
  /\ exists k',
       keys (snd out) !! apiKey = Some k'
       /\ totalUsage k' = totalUsage k + Z.min (Z.of_nat n) (d + B)
       /\ dailyLeft today k' = Z.max 0 (d - Z.of_nat n)
       /\ bonusLeft k' = Z.min B (Z.max 0 (d + B - Z.of_nat n)).
Proof.
  induction n as [| n IH]; intros st k Hk d B out; subst out.
  - simpl. split; [done |]. split; [intros j r H; discriminate |].
    exists k. subst d B. unfold dailyLeft, bonusLeft.
    split; [done |]. split; [lia |]. split; lia.
  - cbn [incrementMany].
    destruct (incrementUsage_units today now apiKey st k Hk)
      as (k1 & Hk1 & Hres & Hd1 & Hb1 & Ht1).
    destruct (incrementUsage today now apiKey None st ()) as [[r st1] []].
    cbn [fst snd] in Hk1, Hres.
    destruct (IH st1 k1 Hk1) as (Hlen & Hrs & k' & Hk' & Ht' & Hd' & Hb').
    destruct (incrementMany today now apiKey n st1) as [rs st2].
    cbn [fst snd] in *.
    fold d in Hres, Hd1, Hb1, Ht1. fold B in Hres, Hb1, Ht1.
    assert (Hd0 : 0 <= d) by (subst d; unfold dailyLeft; apply Z.le_max_l).
    assert (HB0 : 0 <= B) by (subst B; unfold bonusLeft; apply Z.le_max_l).
    clearbody d B.
    rewrite Hd1, Hb1 in Hrs, Ht', Hb'. rewrite Hd1 in Hd'. rewrite Ht1 in Ht'.
    destruct (budget_step d B (Z.of_nat n) (totalUsage k) Hd0 HB0 (Nat2Z.is_nonneg n))
      as (Et & Ed & Eb).
    rewrite Nat2Z.inj_succ, <- Z.add_1_r.
    split; [cbn [length]; by rewrite Hlen |]. split.
    + intros [| j] r' Hj; cbn in Hj.
      * injection Hj as <-. rewrite Hres. change (Z.of_nat 0) with 0.
        by apply budget_first.
      * rewrite (Hrs j r' Hj), Nat2Z.inj_succ, <- Z.add_1_r.
        destruct (budget_index d B (Z.of_nat j) Hd0 HB0 (Nat2Z.is_nonneg j)) as [E1 E2].
        by rewrite E1, E2.
    + exists k'. split; [done |]. by rewrite Ht', Hd', Hb', Et, Ed, Eb.
Qed.

Lemma incrementUsage_daily_budget_witness :
  let st := keyStoreOf (sampleKey 3 5 "2024-05-02" true (Some 2)) in
  let out := incrementMany "2024-05-02" 1714600000000 "maki_0001" 6 st in
  map (fmap usedBonus) (fst out)
    = [Some false; Some false; Some true; Some true; None; None]
  /\ exists k', keys (snd out) !! "maki_0001" = Some k' /\ totalUsage k' = 42 + 4.
Proof.
  intros st out. split; [reflexivity |].
  destruct (incrementUsage_daily_budget "2024-05-02" 1714600000000 "maki_0001" 6 st
              (sampleKey 3 5 "2024-05-02" true (Some 2)) eq_refl)
    as (_ & _ & k' & Hk' & Ht' & _).
  exists k'. split; [exact Hk' |]. rewrite Ht'. reflexivity.
Defined.

End KeyStatsSpec.

(** * Configuration, ledger totals and credential lookups *)
Module UserDataSpec.
Import UserDataManager UserDataAdmin Scenarios Measures Samples MoreSamples LedgerSpec.





(** ** Consumption against the remaining total *)

Lemma fold_left_sumOf {A : Type} (f : A -> Z) (l : list A) :
  fold_left (fun t x => t + f x) l 0 = sumOf f l.
Proof.
  unfold sumOf. induction l as [| x l IH]; simpl; [done |].
  rewrite fold_left_add_shift, IH. lia.
Qed.

Lemma sumOf_nonneg {A : Type} (f : A -> Z) (l : list A) :
  (forall x, 0 <= f x) -> 0 <= sumOf f l.
Proof.
  intros H. unfold sumOf. induction l as [| x l IH]; simpl; [lia |]. specialize (H x). lia.
Qed.

Lemma sumOf_zero {A : Type} (f : A -> Z) (l : list A) :
  (forall x, In x l -> f x = 0) -> sumOf f l = 0.
Proof.
  unfold sumOf. induction l as [| x l IH]; intros H; simpl; [done |].
  rewrite (H x) by (by left). rewrite IH; [done |]. intros y Hy. apply H. by right.
Qed.

Lemma sumOf_lookup_le {A : Type} (f : A -> Z) (l : list A) i x :
  (forall y, 0 <= f y) -> l !! i = Some x -> f x <= sumOf f l.
Proof.
  intros Hf. unfold sumOf. revert i. induction l as [| y l IH]; intros [| i] H; simpl in *;
    try done.
  - injection H as ->. pose proof (sumOf_nonneg f l Hf). unfold sumOf in *. lia.
  - specialize (IH i H). specialize (Hf y). lia.
Qed.

Lemma sumOf_insert {A : Type} (f : A -> Z) (l : list A) i x y :
  l !! i = Some x -> sumOf f (<[i := y]> l) = sumOf f l - f x + f y.
Proof.
  unfold sumOf. revert i. induction l as [| z l IH]; intros [| i] H; simpl in *; try done.
  - injection H as ->. lia.
  - rewrite (IH i H). lia.
Qed.

Lemma bonusContribution_nonneg st now ids b : 0 <= bonusContribution st now ids b.
Proof.
  unfold bonusContribution. repeat case_match; lia.
Qed.

Lemma bonusContribution_live st now b :
  isBonusExpired st now b = false ->
  bonusContribution st now None b = Z.max 0 (getBonusPerCredential st - usedCount b).
Proof.
  intros H. unfold bonusContribution. rewrite H.
  destruct (Z.ltb_spec 0 (getBonusPerCredential st - usedCount b)); lia.
Qed.

Lemma calculateBonusRemaining_sum now apiKey ids st :
  calculateBonusRemaining now apiKey ids st
  = sumOf (bonusContribution st now ids) (grantsOf apiKey st).
Proof.
  unfold calculateBonusRemaining, grantsOf.
  destruct (users st !! apiKey) as [u |]; [| done].
  destruct (credentialBonuses u) as [bs |]; [| done].
  apply fold_left_sumOf.
Qed.

(** X12.  [consumeBonus] and [calculateBonusRemaining] agree: a call
    succeeds exactly when the remaining total (over all unexpired grants) is
    positive, a successful call lowers that total by exactly 1, and a failed
    call leaves the store as it is.  The total is never negative. *)
Theorem consumeBonus_matches_remaining (now : Z) (apiKey : string) (st : UserDataStore) :
  let remaining := calculateBonusRemaining now apiKey None st in
  let ok := fst (consumeBonus now apiKey st) in
  let st' := snd (consumeBonus now apiKey st) in
  0 <= remaining
  /\ (ok = true <-> 0 < remaining)
  /\ calculateBonusRemaining now apiKey None st' = (if ok then remaining - 1 else remaining)
  /\ (ok = false -> st' = st).
Proof.
  intros remaining ok st'. subst remaining ok st'.
  rewrite !calculateBonusRemaining_sum.
  split; [apply sumOf_nonneg, bonusContribution_nonneg |].
  unfold consumeBonus, consumeBonusBody, grantsOf.
  destruct (users st !! apiKey) as [u |] eqn:Hu; simpl; [| rewrite Hu; simpl; by split_and!; try lia].
  destruct (credentialBonuses u) as [bs |] eqn:Hb; simpl;
    [| rewrite Hu, Hb; simpl; by split_and!; try lia].
  destruct (firstWithRemaining _ _) as [[i b] |] eqn:Hf; simpl.
  - apply find_some in Hf as [Hin Hpos]. simpl in Hpos. apply Z.ltb_lt in Hpos.
    apply sortedBonuses_In in Hin as [Hi Hlive].
    pose proof (bonusContribution_live st now b Hlive) as Hc.
    pose proof (sumOf_lookup_le (bonusContribution st now None) bs i b
                  (bonusContribution_nonneg st now None) Hi) as Hle.
    rewrite lookup_insert_eq. simpl.
    split; [split; [lia | done] |]. split; [| done].
    change (sumOf (bonusContribution st now None)
              (<[i := withUsedCount (usedCount b + 1) b]> bs)
            = sumOf (bonusContribution st now None) bs - 1).
    rewrite (sumOf_insert _ bs i b _ Hi), Hc.
    rewrite (bonusContribution_live st now (withUsedCount (usedCount b + 1) b)) by done.
    simpl. lia.
  - rewrite Hu, Hb. simpl.
    assert (sumOf (bonusContribution st now None) bs = 0) as ->.
    { apply sumOf_zero. intros b Hbin.
      apply list_elem_of_In, list_elem_of_lookup in Hbin as [i Hi].
      destruct (isBonusExpired st now b) eqn:Hexp.
      - unfold bonusContribution. by rewrite Hexp.
      - rewrite bonusContribution_live by done.
        assert (In (i, b) (sortedBonuses st now bs)) as Hin.
        { apply list_elem_of_In. unfold sortedBonuses. rewrite sortByGrantedAt_perm.
          apply list_elem_of_In, liveGrants_In. done. }
        pose proof (find_none _ _ Hf _ Hin) as Hnone. simpl in Hnone.
        apply Z.ltb_ge in Hnone. lia. }
    split; [split; [done | lia] |]. done.
Qed.


End UserDataSpec.

(** * Granting and revoking bonus grants *)
Module LedgerAdminSpec.
Import UserDataManager UserDataAdmin Scenarios Measures Samples MoreSamples LedgerSpec SyncSpec.

Lemma find_app_l {A : Type} (f : A -> bool) (l l' : list A) :
  List.find f (l ++ l') = match List.find f l with
                          | Some x => Some x
                          | None => List.find f l'
                          end.
Proof. induction l as [| x l IH]; simpl; [done |]. by destruct (f x). Qed.

Lemma find_none_ids cid (bs : list Bonus) :
  List.find (fun b => String.eqb (credentialId b) cid) bs = None
  <-> ~ In cid (map credentialId bs).
Proof.
  induction bs as [| b bs IH]; simpl; [tauto |].
  destruct (String.eqb_spec (credentialId b) cid) as [E | N].
  - split; [discriminate | intros H; destruct H; by left].
  - rewrite IH. tauto.
Qed.

Lemma findIndex_app_r {A : Type} (f : A -> bool) (l : list A) x :
  (forall y, In y l -> f y = false) -> f x = true ->
  findIndex f (l ++ [x]) = Some (length l).
Proof.
  intros Hl Hx. induction l as [| y l IH]; simpl; [by rewrite Hx |].
  rewrite (Hl y) by (by left). rewrite IH; [done |].
  intros z Hz. apply Hl. by right.
Qed.

Lemma delete_app_last {A : Type} (l : list A) x : delete (length l) (l ++ [x]) = l.
Proof. induction l as [| y l IH]; simpl; [done |]. by rewrite IH. Qed.

Lemma grantsOf_lookup apiKey st u bs :
  users st !! apiKey = Some u -> credentialBonuses u = Some bs -> grantsOf apiKey st = bs.
Proof. intros Hu Hb. unfold grantsOf. by rewrite Hu, Hb. Qed.

Lemma grantsOf_markDirty apiKey st : grantsOf apiKey (markDirty st) = grantsOf apiKey st.
Proof. done. Qed.

Lemma grantsOf_other (other : string) (st st' : UserDataStore) :
  users st' !! other = users st !! other -> grantsOf other st' = grantsOf other st.
Proof. intros H. unfold grantsOf. by rewrite H. Qed.

(** What one call of [addCredentialBonus] does, by cases on the ledger. *)
Lemma addCredentialBonus_cases now apiKey cid st :
  let out := addCredentialBonus now apiKey cid st in
  let bs := grantsOf apiKey st in
  (forall other, other <> apiKey -> users (snd out) !! other = users st !! other)
  /\ exists u, users (snd out) !! apiKey = Some u
     /\ match List.find (fun b => String.eqb (credentialId b) cid) bs with
        | Some existing => fst out = existing /\ credentialBonuses u = Some bs
        | None =>
          fst out = {| credentialId := cid; grantedAt := now; usedCount := 0 |}
          /\ credentialBonuses u = Some (bs ++ [fst out])
        end.
Proof.
  intros out bs. subst out bs. unfold addCredentialBonus.
  pose proof (ensureUserData_spec now apiKey st) as (Hu & Hb & _ & _ & Hothers).
  destruct (ensureUserData now apiKey st) as [u st1]. cbn [fst snd] in *.
  rewrite Hb. cbn [default from_option id].
  destruct (List.find _ (grantsOf apiKey st)) as [existing |] eqn:Hf; cbn [fst snd].
  - split; [exact Hothers |]. by exists u.
  - split.
    + intros other Hne. cbn. rewrite lookup_insert_ne by done. by apply Hothers.
    + eexists. split; [apply lookup_insert_eq |]. done.
Qed.

(** X14.  [addCredentialBonus] grants at most once per credential: the grant
    it returns is for the credential asked for and is in the ledger, and a
    further call for the same credential, at any time, returns that same
    grant and changes nothing. *)
Theorem addCredentialBonus_idempotent (now now' : Z) (apiKey cid : string)
    (st : UserDataStore) :
  let out := addCredentialBonus now apiKey cid st in
  credentialId (fst out) = cid
  /\ In (fst out) (grantsOf apiKey (snd out))
  /\ addCredentialBonus now' apiKey cid (snd out) = out.
Proof.
  intros out.
  destruct (addCredentialBonus_cases now apiKey cid st) as (_ & u & Hu & Hcase).
  fold out in Hu, Hcase.
  destruct (List.find _ (grantsOf apiKey st)) as [existing |] eqn:Hf.
  - destruct Hcase as [Hfst Hb].
    pose proof (grantsOf_lookup _ _ _ _ Hu Hb) as Hg.
    apply find_some in Hf as Hex. destruct Hex as [Hin Heq]. apply String.eqb_eq in Heq.
    rewrite Hfst, Hg. split; [done |]. split; [done |].
    unfold addCredentialBonus at 1.
    rewrite (ensureUserData_present now' apiKey (snd out) u _ Hu Hb), Hb. cbn [default from_option id].
    rewrite Hf. rewrite <- Hfst. by destruct out.
  - destruct Hcase as [Hfst Hb].
    pose proof (grantsOf_lookup _ _ _ _ Hu Hb) as Hg.
    rewrite Hg. split; [by rewrite Hfst |].
    split; [apply in_or_app; right; by left |].
    unfold addCredentialBonus at 1.
    rewrite (ensureUserData_present now' apiKey (snd out) u _ Hu Hb), Hb. cbn [default from_option id].
    rewrite find_app_l, Hf. cbn [List.find].
    replace (credentialId (fst out) =? cid)%string with true
      by (symmetry; apply String.eqb_eq; by rewrite Hfst).
    by destruct out.
Qed.

Lemma NoDup_map_filter {A B : Type} (f : A -> B) (p : A -> bool) (l : list A) :
  List.NoDup (map f l) -> List.NoDup (map f (List.filter p l)).
Proof.
  induction l as [| x l IH]; simpl; [done |].
  intros H. apply List.NoDup_cons_iff in H as [Hx Hl].
  destruct (p x); simpl; [| by apply IH].
  apply List.NoDup_cons; [| by apply IH].
  intros Hin. apply Hx. apply in_map_iff in Hin as (y & Hy & Hin).
  apply filter_In in Hin as [Hin _]. apply in_map_iff. by exists y.
Qed.

Lemma NoDup_map_delete {A B : Type} (f : A -> B) (l : list A) : forall i,
  List.NoDup (map f l) -> List.NoDup (map f (delete i l)).
Proof.
  induction l as [| x l IH]; intros i H; [by destruct i |].
  simpl in H. apply List.NoDup_cons_iff in H as [Hx Hl].
  destruct i as [| i]; simpl; [done |].
  apply List.NoDup_cons; [| by apply IH].
  intros Hin. apply Hx. apply in_map_iff in Hin as (y & Hy & Hin).
  apply in_map_iff. exists y. split; [done |].
  apply list_elem_of_In. apply list_elem_of_In in Hin.
  apply list_elem_of_lookup in Hin as [j Hj].
  apply list_elem_of_lookup.
  destruct (decide (j < i)%nat).
  - exists j. by rewrite list_lookup_delete_lt in Hj by done.
  - exists (S j). by rewrite list_lookup_delete_ge in Hj by lia.
Qed.

Lemma NoDup_map_snoc {A B : Type} (f : A -> B) (l : list A) x :
  List.NoDup (map f l) -> ~ In (f x) (map f l) -> List.NoDup (map f (l ++ [x])).
Proof.
  induction l as [| y l IH]; simpl; intros H Hx.
  - apply List.NoDup_cons; [by intros [] | constructor].
  - apply List.NoDup_cons_iff in H as [Hy Hl].
    apply List.NoDup_cons.
    + rewrite map_app, in_app_iff. simpl. intros [Hin | [E | []]]; [done |].
      apply Hx. by left.
    + apply IH; [done |]. intros Hin. apply Hx. by right.
Qed.

Lemma ids_insert_used (bs : list Bonus) i b v :
  bs !! i = Some b ->
  map credentialId (<[i := withUsedCount v b]> bs) = map credentialId bs.
Proof.
  revert i. induction bs as [| x bs IH]; intros [| i] H; simpl in *; try done.
  - by injection H as ->.
  - by rewrite IH.
Qed.

Lemma addMissing_NoDup now creds : forall bs a,
  List.NoDup (map credentialId bs) ->
  List.NoDup (map credentialId (fst (fold_left (addMissingStep now) creds (bs, a)))).
Proof.
  induction creds as [| c creds IH]; intros bs a H; simpl; [done |].
  destruct (negb (isHealthyTrue c)); [by apply IH |].
  destruct (existsb _ bs) eqn:Hex; [by apply IH |].
  apply IH. apply NoDup_map_snoc; [done |]. simpl.
  intros Hin. apply in_map_iff in Hin as (b & Hb & Hin).
  assert (existsb (fun b => String.eqb (credentialId b) (healthId c)) bs = true) as Ht
    by (apply existsb_grant_for; by exists b).
  congruence.
Qed.

(** X15.  No operation on the ledger creates a second grant for a
    credential: when the grants of a user [a] carry pairwise distinct
    credential ids, they still do after [addCredentialBonus],
    [removeCredentialBonus], [consumeBonus] and [syncCredentialBonuses] run
    for any user [apiKey]. *)
Theorem grantIdsUnique_preserved (now : Z) (apiKey cid a : string)
    (creds : list CredentialHealth) (st : UserDataStore) :
  grantIdsUnique a st ->
  grantIdsUnique a (snd (addCredentialBonus now apiKey cid st))
  /\ grantIdsUnique a (snd (removeCredentialBonus apiKey cid st))
  /\ grantIdsUnique a (snd (consumeBonus now apiKey st))
  /\ grantIdsUnique a (snd (syncCredentialBonuses now apiKey creds st)).
Proof.
  unfold grantIdsUnique. intros H.
  split; [| split; [| split]].
  - destruct (addCredentialBonus_cases now apiKey cid st) as (Hothers & u & Hu & Hcase).
    destruct (decide (a = apiKey)) as [-> | Hne];
      [| by rewrite (grantsOf_other a st _ (Hothers a Hne))].
    destruct (List.find _ (grantsOf apiKey st)) as [existing |] eqn:Hf.
    + destruct Hcase as [_ Hb]. by rewrite (grantsOf_lookup _ _ _ _ Hu Hb).
    + destruct Hcase as [Hfst Hb]. rewrite (grantsOf_lookup _ _ _ _ Hu Hb).
      apply NoDup_map_snoc; [done |]. rewrite Hfst. simpl. by apply find_none_ids.
  - unfold removeCredentialBonus.
    destruct (users st !! apiKey) as [u |] eqn:Hu; [| done].
    destruct (credentialBonuses u) as [bs |] eqn:Hb; [| done].
    destruct (findIndex _ bs) as [i |]; [| done]. cbn [snd].
    destruct (decide (a = apiKey)) as [-> | Hne].
    + rewrite grantsOf_markDirty, grantsOf_setUser.
      rewrite (grantsOf_lookup _ _ _ _ Hu Hb) in H. by apply NoDup_map_delete.
    + rewrite (grantsOf_other a st); [done |]. cbn. by rewrite lookup_insert_ne.
  - unfold consumeBonus, consumeBonusBody.
    destruct (users st !! apiKey) as [u |] eqn:Hu; [| done].
    destruct (credentialBonuses u) as [bs |] eqn:Hb; [| done].
    destruct (firstWithRemaining _ _) as [[i b] |] eqn:Hf; [| done]. cbn [snd].
    destruct (decide (a = apiKey)) as [-> | Hne].
    + rewrite grantsOf_markDirty, grantsOf_setUser.
      rewrite (grantsOf_lookup _ _ _ _ Hu Hb) in H.
      apply find_some in Hf as [Hin _]. apply sortedBonuses_In in Hin as [Hi _].
      by rewrite ids_insert_used.
    + rewrite (grantsOf_other a st); [done |]. cbn. by rewrite lookup_insert_ne.
  - destruct (syncCredentialBonuses_spec now apiKey creds st)
      as (_ & _ & Hg & _ & _ & Hothers).
    destruct (decide (a = apiKey)) as [-> | Hne];
      [| by rewrite (grantsOf_other a st _ (Hothers a Hne))].
    rewrite Hg. do 2 apply NoDup_map_filter. by apply addMissing_NoDup.
Qed.

Lemma grantIdsUnique_preserved_witness :
  let st := ledgerOf 300 [grantG1; grantG2] in
  grantIdsUnique "maki_0001" st
  /\ grantIdsUnique "maki_0001" (snd (addCredentialBonus (60 * day) "maki_0001" "cred_b" st))
  /\ grantIdsUnique "maki_0001" (snd (consumeBonus (60 * day) "maki_0001" st)).
Proof.
  intros st.
  assert (H : grantIdsUnique "maki_0001" st).
  { unfold grantIdsUnique. vm_compute.
    repeat (apply List.NoDup_cons; [simpl; intuition discriminate |]). constructor. }
  destruct (grantIdsUnique_preserved (60 * day) "maki_0001" "cred_b" "maki_0001" [] st H)
    as (Ha & _ & Hc & _).
  exact (conj H (conj Ha Hc)).
Defined.

(** X16.  Granting and revoking undo each other: after [addCredentialBonus]
    for a credential that had no grant, [removeCredentialBonus] for it
    answers [true] and the user's ledger is what it was before the grant. *)
Theorem add_then_remove_bonus (now : Z) (apiKey cid : string) (st : UserDataStore) :
  ~ In cid (map credentialId (grantsOf apiKey st)) ->
  let st1 := snd (addCredentialBonus now apiKey cid st) in
  removeCredentialBonus apiKey cid st = (false, st)
  /\ fst (removeCredentialBonus apiKey cid st1) = true
  /\ grantsOf apiKey (snd (removeCredentialBonus apiKey cid st1)) = grantsOf apiKey st.
Proof.
  intros Hnew st1. subst st1.
  assert (Hnone : forall y, In y (grantsOf apiKey st) ->
                    String.eqb (credentialId y) cid = false).
  { intros y Hy. apply String.eqb_neq. intros E. apply Hnew.
    apply in_map_iff. by exists y. }
  split.
  - unfold removeCredentialBonus.
    destruct (users st !! apiKey) as [u |] eqn:Hu; [| done].
    destruct (credentialBonuses u) as [bs |] eqn:Hb; [| done].
    rewrite (grantsOf_lookup _ _ _ _ Hu Hb) in Hnone.
    destruct (findIndex _ bs) as [i |] eqn:Hi; [| done].
    apply CredentialSpec.findIndex_Some in Hi as (x & Hx & Hfx).
    rewrite Hnone in Hfx; [done |].
    apply list_elem_of_In, list_elem_of_lookup. by exists i.
  - destruct (addCredentialBonus_cases now apiKey cid st) as (_ & u & Hu & Hcase).
    apply find_none_ids in Hnew. rewrite Hnew in Hcase. destruct Hcase as [Hfst Hb].
    unfold removeCredentialBonus. rewrite Hu, Hb.
    rewrite findIndex_app_r; [| done | by rewrite Hfst; apply String.eqb_refl].
    cbn [fst snd]. split; [done |].
    by rewrite grantsOf_markDirty, grantsOf_setUser, delete_app_last.
Qed.

Lemma add_then_remove_bonus_witness :
  let st := ledgerOf 300 [grantG1] in
  let st1 := snd (addCredentialBonus (60 * day) "maki_0001" "cred_c" st) in
  grantsOf "maki_0001" st1
    = [grantG1; {| credentialId := "cred_c"; grantedAt := 60 * day; usedCount := 0 |}]
  /\ fst (removeCredentialBonus "maki_0001" "cred_c" st1) = true
  /\ grantsOf "maki_0001" (snd (removeCredentialBonus "maki_0001" "cred_c" st1)) = [grantG1].
Proof.
  intros st st1. split; [reflexivity |].
  assert (Hnew : ~ In "cred_c"%string (map credentialId (grantsOf "maki_0001" st))).
  { vm_compute. intros [E | []]. discriminate E. }
  destruct (add_then_remove_bonus (60 * day) "maki_0001" "cred_c" st Hnew) as (_ & Ht & Hg).
  exact (conj Ht Hg).
Defined.

End LedgerAdminSpec.

(** * Credentials of a user: adding, finding, removing, migrating *)
Module CredentialAdminSpec.
Import UserDataManager UserDataAdmin Scenarios Measures Samples MoreSamples SyncSpec.

Lemma findCredentialByPath_find apiKey credPath st :
  findCredentialByPath apiKey credPath st
  = List.find (fun c => String.eqb (path c) credPath) (getUserCredentials apiKey st).
Proof.
  unfold findCredentialByPath, getUserCredentials. by destruct (users st !! apiKey).
Qed.

Lemma find_findIndex {A : Type} (f : A -> bool) (l : list A) :
  List.find f l = match findIndex f l with Some i => l !! i | None => None end.
Proof.
  induction l as [| x l IH]; simpl; [done |].
  destruct (f x); [done |]. rewrite IH. by destruct (findIndex f l).
Qed.

Lemma find_insert_found {A : Type} (f : A -> bool) (l : list A) x : forall i,
  findIndex f l = Some i -> f x = true -> List.find f (<[i := x]> l) = Some x.
Proof.
  induction l as [| y l IH]; intros i Hi Hx; simpl in *; [done |].
  destruct (f y) eqn:Hy.
  - injection Hi as <-. simpl. by rewrite Hx.
  - destruct (findIndex f l) as [j |] eqn:Hj; [| done].
    injection Hi as <-. simpl. rewrite Hy. by apply IH.
Qed.

Lemma find_snoc_new {A : Type} (f : A -> bool) (l : list A) x :
  findIndex f l = None -> f x = true -> List.find f (l ++ [x]) = Some x.
Proof.
  induction l as [| y l IH]; intros Hi Hx; simpl in *; [by rewrite Hx |].
  destruct (f y); [done |].
  destruct (findIndex f l); [done |]. by apply IH.
Qed.

Lemma findIndex_None {A : Type} (f : A -> bool) (l : list A) :
  findIndex f l = None <-> forall x, In x l -> f x = false.
Proof.
  induction l as [| y l IH]; simpl; [by split |].
  destruct (f y) eqn:Hy.
  - split; [done |]. intros H. specialize (H y (or_introl eq_refl)). congruence.
  - destruct (findIndex f l).
    + split; [done |]. intros H. exfalso.
      assert (Some n = None) as E by (apply IH; intros x Hx; apply H; by right).
      discriminate E.
    + split; [| done]. intros _ x [<- | Hx]; [done |]. by apply IH.
Qed.

Lemma getUserCredentials_stored apiKey u st :
  getUserCredentials apiKey (markDirty (setUser apiKey u st)) = credentials u.
Proof. unfold getUserCredentials. cbn. by rewrite lookup_insert_eq. Qed.

Lemma grantsOf_stored apiKey u st :
  grantsOf apiKey (markDirty (setUser apiKey u st)) = default [] (credentialBonuses u).
Proof. unfold grantsOf. cbn. by rewrite lookup_insert_eq. Qed.

(** X17.  A credential just added is the one [findCredentialByPath] finds
    under its path.  When the user already had a credential with that path,
    it is overwritten in place and keeps its [id] and [addedAt]; otherwise
    the new credential is appended with the fresh id and the current time.
    The user's grants are not touched. *)
Theorem addUserCredential_then_find (now : Z) (freshId apiKey : string)
    (info : CredentialInfo) (st : UserDataStore) :
  let out := addUserCredential now freshId apiKey info st in
  findCredentialByPath apiKey (infoPath info) (snd out) = Some (fst out)
  /\ path (fst out) = infoPath info
  /\ match findCredentialByPath apiKey (infoPath info) st with
     | Some old =>
       credId (fst out) = credId old /\ addedAt (fst out) = addedAt old
       /\ length (getUserCredentials apiKey (snd out))
          = length (getUserCredentials apiKey st)
     | None =>
       credId (fst out) = freshId /\ addedAt (fst out) = now
       /\ getUserCredentials apiKey (snd out) = getUserCredentials apiKey st ++ [fst out]
     end
  /\ grantsOf apiKey (snd out) = grantsOf apiKey st.
Proof.
  intros out. subst out.
  rewrite !findCredentialByPath_find.
  unfold addUserCredential.
  pose proof (ensureUserData_spec now apiKey st) as (Hu & Hb & Hc & _ & _).
  destruct (ensureUserData now apiKey st) as [u st1]. cbn [fst snd] in Hu, Hb, Hc.
  rewrite Hc.
  set (f := fun c => String.eqb (path c) (infoPath info)).
  destruct (findIndex f (getUserCredentials apiKey st)) as [i |] eqn:Hi.
  - destruct (CredentialSpec.findIndex_Some _ _ _ Hi) as (old & Hold & _).
    rewrite (find_findIndex f (getUserCredentials apiKey st)), Hi, Hold. cbn [fst snd].
    rewrite getUserCredentials_stored, grantsOf_stored.
    cbn [credentials credentialBonuses withCredentials]. rewrite Hb.
    split; [apply find_insert_found; [done | apply String.eqb_refl] |].
    split; [done |]. split; [| done].
    split; [done |]. split; [done |]. apply length_insert.
  - rewrite (find_findIndex f (getUserCredentials apiKey st)), Hi. cbn [fst snd].
    rewrite getUserCredentials_stored, grantsOf_stored.
    cbn [credentials credentialBonuses withCredentials]. rewrite Hb.
    split; [apply find_snoc_new; [done | apply String.eqb_refl] |].
    done.
Qed.

(** X18.  [removeUserCredential] answers [true] exactly when the user holds
    a credential with that id, and then the list is one shorter; on [false]
    nothing changes.  In both cases the bonus ledger stays as it is: the
    grant of a removed credential is still there after the call. *)
Theorem removeUserCredential_effect (apiKey cid : string) (st : UserDataStore) :
  let out := removeUserCredential apiKey cid st in
  (fst out = true <-> exists c, In c (getUserCredentials apiKey st) /\ credId c = cid)
  /\ (fst out = false -> snd out = st)
  /\ length (getUserCredentials apiKey (snd out))
     = (length (getUserCredentials apiKey st) - if fst out then 1 else 0)%nat
  /\ grantsOf apiKey (snd out) = grantsOf apiKey st.
Proof.
  intros out. subst out. unfold removeUserCredential.
  destruct (users st !! apiKey) as [u |] eqn:Hu; cbn [fst snd].
  - assert (Hg : getUserCredentials apiKey st = credentials u)
      by (unfold getUserCredentials; by rewrite Hu).
    assert (Hl : grantsOf apiKey st = default [] (credentialBonuses u))
      by (unfold grantsOf; by rewrite Hu).
    set (f := fun c => String.eqb (credId c) cid).
    destruct (findIndex f (credentials u)) as [i |] eqn:Hi; cbn [fst snd]; rewrite ?Hg.
    + destruct (CredentialSpec.findIndex_Some _ _ _ Hi) as (c & Hc & Hfc).
      split; [split; [intros _ | done] |].
      { exists c. split; [| by apply String.eqb_eq].
        apply list_elem_of_In, list_elem_of_lookup. by exists i. }
      split; [done |].
      rewrite getUserCredentials_stored, grantsOf_stored, Hl.
      cbn [credentials credentialBonuses withCredentials].
      split; [| done]. rewrite length_delete by done. lia.
    + split; [split; [done |] |].
      { intros (c & Hc & Hid).
        pose proof (proj1 (findIndex_None f _) Hi c Hc) as Hf.
        subst f. simpl in Hf. apply String.eqb_neq in Hf. done. }
      split; [done |]. split; [lia | done].
  - assert (Hg : getUserCredentials apiKey st = [])
      by (unfold getUserCredentials; by rewrite Hu).
    rewrite Hg. split; [split; [done | by intros (c & [] & _)] |].
    split; done.
Qed.

(** X19.  [migrateUserCredentials] answers [true] exactly when the old key
    has data, and [false] changes nothing.  After a move the old key has no
    data, whatever the new key is: migrating a key onto itself erases its
    data.  For a different new key, the credentials and grants of the old
    key are now those of the new key (what the new key held is replaced),
    and all other users are as before. *)
Theorem migrateUserCredentials_moves (now : Z) (oldApiKey newApiKey : string)
    (st : UserDataStore) :
  let out := migrateUserCredentials now oldApiKey newApiKey st in
  (fst out = true <-> is_Some (users st !! oldApiKey))
  /\ (fst out = false -> snd out = st)
  /\ (fst out = true ->
      users (snd out) !! oldApiKey = None
      /\ (oldApiKey <> newApiKey ->
          getUserCredentials newApiKey (snd out) = getUserCredentials oldApiKey st
          /\ grantsOf newApiKey (snd out) = grantsOf oldApiKey st)
      /\ (forall other, other <> oldApiKey -> other <> newApiKey ->
            users (snd out) !! other = users st !! other)).
Proof.
  intros out. subst out. unfold migrateUserCredentials.
  destruct (users st !! oldApiKey) as [u |] eqn:Hu; cbn [fst snd].
  - split; [split; [by eexists | done] |]. split; [done |]. intros _.
    cbn [users markDirty].
    split; [apply lookup_delete_eq |]. split.
    + intros Hne. unfold getUserCredentials, grantsOf. cbn [users markDirty].
      rewrite lookup_delete_ne by done. rewrite lookup_insert_eq, Hu. done.
    + intros other H1 H2. rewrite lookup_delete_ne by done. by rewrite lookup_insert_ne.
  - split; [split; [done | by intros [? ?]] |]. split; done.
Qed.

(** X20.  [isCredentialPathUsed] reports an owner only if that user holds a
    credential with the path, and reports none only if no user does. *)
Theorem isCredentialPathUsed_owner (credPath : string) (st : UserDataStore) :
  match isCredentialPathUsed credPath st with
  | Some owner =>
    exists u c, users st !! owner = Some u /\ In c (credentials u) /\ path c = credPath
  | None =>
    forall apiKey u c, users st !! apiKey = Some u -> In c (credentials u) ->
      path c <> credPath
  end.
Proof.
  unfold isCredentialPathUsed.
  destruct (List.find _ (map_to_list (users st))) as [[owner u] |] eqn:Hf; simpl.
  - apply find_some in Hf as [Hin Hex]. simpl in Hex.
    apply existsb_exists in Hex as (c & Hc & Hp). apply String.eqb_eq in Hp.
    exists u, c. split; [| done].
    apply elem_of_map_to_list. by apply list_elem_of_In.
  - intros apiKey u c Hu Hc Hp.
    assert (In (apiKey, u) (map_to_list (users st))) as Hin
      by (apply list_elem_of_In; by apply elem_of_map_to_list).
    pose proof (find_none _ _ Hf _ Hin) as Hnone. simpl in Hnone.
    assert (existsb (fun c => String.eqb (path c) credPath) (credentials u) = true) as Ht.
    { apply existsb_exists. exists c. split; [done |]. by apply String.eqb_eq. }
    congruence.
Qed.

End CredentialAdminSpec.

(** * The health check of one user's credentials *)
Module HealthSyncSpec.
Import KeyManager UserDataManager UserDataAdmin HealthSync Scenarios Measures Samples
  MoreSamples SyncSpec UserDataSpec.

Lemma syncBonusRemaining_final now apiKey creds st :
  let out := syncCredentialBonuses now apiKey creds st in
  syncBonusRemaining (fst out)
  = calculateBonusRemaining now apiKey (Some (healthyIdsOf creds)) (snd out).
Proof.
  intros out. subst out. unfold syncCredentialBonuses.
  destruct (ensureUserData now apiKey st) as [u st1].
  destruct (addMissingBonuses now creds _) as [bs1 a].
  destruct (removeUnhealthyBonuses _ bs1) as [bs2 r].
  done.
Qed.

Lemma sumOf_ext_In {A : Type} (f g : A -> Z) (l : list A) :
  (forall x, In x l -> f x = g x) -> sumOf f l = sumOf g l.
Proof.
  unfold sumOf. induction l as [| x l IH]; intros H; simpl; [done |].
  rewrite (H x) by (by left). rewrite IH; [done |]. intros y Hy. apply H. by right.
Qed.

Lemma healthyIdsOf_results (health : Credential -> option bool) (cs : list Credential) x :
  x ∈ healthyIdsOf
        (map (fun c => {| healthId := credId c; isHealthy := health c;
                          healthAddedAt := Some (addedAt c) |}) cs)
  <-> exists c, In c cs /\ credId c = x /\ health c = Some true.
Proof.
  rewrite healthyIdsOf_elem. split.
  - intros (h & Hin & Hh & Hid). apply in_map_iff in Hin as (c & <- & Hc).
    by exists c.
  - intros (c & Hc & Hid & Hh). eexists. split; [apply in_map_iff; by exists c |]. done.
Qed.

(** X21.  [checkUserCredentialsHealth], run on its own, leaves the ledger
    and the cache in agreement.  Every grant the user has afterwards is
    unexpired and belongs to a credential the user holds and that was
    reported healthy; and when the key is stored, its cached
    [bonusRemaining] is the total that [calculateBonusRemaining] computes on
    the new ledger, with or without the health filter. *)
Theorem checkUserCredentialsHealth_agreement (health : Credential -> option bool)
    (now : Z) (apiKey : string) (ks : KeyStore) (us : UserDataStore) :
  let out := checkUserCredentialsHealth health now apiKey ks us in
  let ks' := snd (fst out) in
  let us' := snd out in
  (forall b, In b (grantsOf apiKey us') ->
     isBonusExpired us' now b = false
     /\ exists c, In c (getUserCredentials apiKey us)
                  /\ credId c = credentialId b /\ health c = Some true)
  /\ (forall k, keys ks !! apiKey = Some k ->
        keys ks' !! apiKey
        = Some (withBonusRemaining (Some (calculateBonusRemaining now apiKey None us')) k))
  /\ (keys ks !! apiKey = None -> ks' = ks).
Proof.
  intros out ks' us'. subst out ks' us'. unfold checkUserCredentialsHealth.
  set (results := map _ (getUserCredentials apiKey us)).
  pose proof (syncBonusRemaining_final now apiKey results us) as Hrem.
  pose proof (syncCredentialBonuses_spec now apiKey results us) as (_ & _ & _ & Hcfg & _ & _).
  pose proof (syncCredentialBonuses_grants now apiKey results us) as Hgrants.
  destruct (syncCredentialBonuses now apiKey results us) as [bonusSync us1].
  cbn [fst snd] in Hrem, Hcfg, Hgrants.
  assert (Hall : forall b, In b (grantsOf apiKey us1) ->
            isBonusExpired us1 now b = false
            /\ credentialId b ∈ healthyIdsOf results).
  { intros b Hb. destruct (Hgrants b Hb) as [Hid Hexp].
    split; [by rewrite (LedgerSpec.isBonusExpired_config us us1) | done]. }
  assert (Hsame : calculateBonusRemaining now apiKey (Some (healthyIdsOf results)) us1
                  = calculateBonusRemaining now apiKey None us1).
  { rewrite !calculateBonusRemaining_sum. apply sumOf_ext_In.
    intros b Hb. destruct (Hall b Hb) as [_ Hid].
    unfold bonusContribution. by rewrite (bool_decide_eq_true_2 _ Hid). }
  assert (Hpos : 0 <= calculateBonusRemaining now apiKey None us1).
  { rewrite calculateBonusRemaining_sum. apply sumOf_nonneg, bonusContribution_nonneg. }
  unfold updateBonusRemaining.
  destruct (keys ks !! apiKey) as [k |] eqn:Hk; cbn [fst snd].
  - split; [| split; [| done]].
    + intros b Hb. destruct (Hall b Hb) as [Hexp Hid]. split; [done |].
      by apply healthyIdsOf_results in Hid.
    + intros k0 [= <-]. cbn. rewrite lookup_insert_eq. do 2 f_equal.
      rewrite Hrem, Hsame. f_equal. by apply Z.max_r.
  - split; [| split; [done | done]].
    intros b Hb. destruct (Hall b Hb) as [Hexp Hid]. split; [done |].
    by apply healthyIdsOf_results in Hid.
Qed.

End HealthSyncSpec.

(** * SimpleMutex under concurrent calls, whatever the ledger holds *)
Module MutexSpec.
Import UserDataManager Scenarios Concurrency Interleavings Measures Samples ConcurrencySpec.

Lemma countIf_insert (f : Phase -> bool) (l : list Phase) p p' : forall t,
  l !! t = Some p ->
  (countIf f (<[t := p']> l) + (if f p then 1 else 0)
   = countIf f l + (if f p' then 1 else 0))%nat.
Proof.
  unfold countIf. induction l as [| x l IH]; intros [| t] H; simpl in *; try done.
  - injection H as ->. destruct (f p), (f p'); simpl; lia.
  - specialize (IH t H). destruct (f x); simpl; lia.
Qed.

Lemma MutexInv_initial N st : MutexInv N (initial N st).
Proof.
  constructor; simpl.
  - apply length_replicate.
  - intros n. split; [by intros ?%elem_of_nil |].
    intros H. apply lookup_replicate in H as [H _]. discriminate.
  - constructor.
  - done.
  - by apply countIf_replicate_false.
Qed.

Lemma MutexInv_step apiKey N t now w w' :
  MutexInv N w -> step apiKey t now w = Some w' ->
  MutexInv N w' /\ (totalWeight w' < totalWeight w)%nat.
Proof.
  intros [Hlen Hq Hnd Hfree Hcount] Hs. unfold step in Hs.
  destruct (tasks w !! t) as [[| | | result | result] |] eqn:Ht; try done.
  - (* [acquire()] *)
    assert (Hnotin : t ∉ waiting (bonusMutex w)) by (rewrite Hq, Ht; congruence).
    unfold acquire in Hs. destruct (locked (bonusMutex w)) eqn:Hl; injection Hs as <-.
    + split.
      * constructor; simpl.
        -- by rewrite length_insert.
        -- intros n. rewrite (lookup_insert_phase _ t n NotStarted) by done.
           rewrite elem_of_app, list_elem_of_singleton, Hq.
           destruct (decide (t = n)) as [<- | Hne]; [split; [done | by right] |].
           split; [intros [H | ->]; [done | congruence] | by left].
        -- apply NoDup_app. split; [done |]. split; [| apply NoDup_singleton].
           intros x Hx ->%list_elem_of_singleton. done.
        -- congruence.
        -- rewrite (countIf_insert_same holdsLock _ t NotStarted) by done.
           rewrite Hcount. by rewrite ?Hl.
      * unfold totalWeight. simpl.
        pose proof (totalWeight_insert (tasks w) t NotStarted Waiting Ht). simpl in *. lia.
    + split.
      * constructor; simpl.
        -- by rewrite length_insert.
        -- intros n. rewrite (lookup_insert_phase _ t n NotStarted) by done.
           rewrite Hq. destruct (decide (t = n)) as [<- | Hne]; [| done].
           rewrite Ht. split; congruence.
        -- done.
        -- done.
        -- rewrite (countIf_insert_more holdsLock _ t NotStarted) by done.
           rewrite Hcount. by rewrite ?Hl.
      * unfold totalWeight. simpl.
        pose proof (totalWeight_insert (tasks w) t NotStarted Acquired Ht). simpl in *. lia.
  - (* the body *)
    destruct (consumeBonusBody now apiKey (store w)) as [result st]. injection Hs as <-.
    split.
    + constructor; simpl.
      * by rewrite length_insert.
      * intros n. rewrite (lookup_insert_phase _ t n Acquired) by done.
        rewrite Hq. destruct (decide (t = n)) as [<- | Hne]; [| done].
        rewrite Ht. split; congruence.
      * done.
      * done.
      * by rewrite (countIf_insert_same holdsLock _ t Acquired).
    + unfold totalWeight. simpl.
      pose proof (totalWeight_insert (tasks w) t Acquired (Ran result) Ht). simpl in *. lia.
  - (* [release()] *)
    pose proof (countIf_insert holdsLock (tasks w) (Ran result) (Returned result) t Ht)
      as Hless. simpl in Hless.
    assert (Hl : locked (bonusMutex w) = true).
    { destruct (locked (bonusMutex w)); [done |]. rewrite Hcount in Hless. lia. }
    rewrite Hl in Hcount.
    unfold release in Hs.
    destruct (waiting (bonusMutex w)) as [| next rest] eqn:Hwait; injection Hs as <-.
    + split.
      * constructor; simpl.
        -- by rewrite length_insert.
        -- intros n. rewrite (lookup_insert_phase _ t n (Ran result)) by done.
           split; [by intros ?%elem_of_nil |].
           destruct (decide (t = n)); [done |]. intros H%Hq. by apply elem_of_nil in H.
        -- constructor.
        -- done.
        -- lia.
      * unfold totalWeight. simpl.
        pose proof (totalWeight_insert (tasks w) t (Ran result) (Returned result) Ht).
        simpl in *. lia.
    + assert (Hnext : tasks w !! next = Some Waiting) by (apply Hq; left).
      assert (Hne : t <> next) by (intros ->; congruence).
      assert (Hnext' : <[t := Returned result]> (tasks w) !! next = Some Waiting)
        by (by rewrite list_lookup_insert_ne).
      apply NoDup_cons in Hnd as [Hnotin Hnd].
      split.
      * constructor; simpl.
        -- by rewrite !length_insert.
        -- intros n. rewrite (lookup_insert_phase _ next n Waiting) by done.
           rewrite (lookup_insert_phase _ t n (Ran result)) by done.
           destruct (decide (next = n)) as [<- | Hn].
           { split; [done | congruence]. }
           destruct (decide (t = n)) as [<- | Hn'].
           { split; [| done]. intros Hin. assert (t ∈ next :: rest) as H%Hq by (by right).
             congruence. }
           rewrite <- Hq. rewrite elem_of_cons.
           split; [by right | intros [-> | ?]; done].
        -- done.
        -- intros E. congruence.
        -- rewrite Hl.
           rewrite (countIf_insert_more holdsLock _ next Waiting) by done. lia.
      * unfold totalWeight. simpl.
        pose proof (totalWeight_insert (tasks w) t (Ran result) (Returned result) Ht).
        pose proof (totalWeight_insert _ next Waiting Acquired Hnext').
        simpl in *. lia.
Qed.

Lemma MutexInv_run apiKey N schedule : forall w,
  MutexInv N w -> MutexInv N (run apiKey schedule w).
Proof.
  induction schedule as [| [t now] rest IH]; intros w Hinv; simpl; [done |].
  apply IH. destruct (step apiKey t now w) as [w' |] eqn:Hs; simpl; [| done].
  by destruct (MutexInv_step apiKey N t now w w' Hinv Hs).
Qed.

Lemma countIf_zero (f : Phase -> bool) (l : list Phase) t p :
  countIf f l = 0%nat -> l !! t = Some p -> f p = false.
Proof.
  unfold countIf. revert t. induction l as [| x l IH]; intros [| t] H Ht; simpl in *; try done.
  - injection Ht as ->. by destruct (f p).
  - destruct (f x); [done |]. by apply (IH t).
Qed.

Lemma countIf_pos (f : Phase -> bool) (l : list Phase) :
  (0 < countIf f l)%nat -> exists t p, l !! t = Some p /\ f p = true.
Proof.
  unfold countIf. induction l as [| x l IH]; simpl; [lia |].
  destruct (f x) eqn:Hx; [by exists 0%nat, x |].
  intros H. destruct (IH H) as (t & p & Ht & Hp). by exists (S t), p.
Qed.

Lemma MutexInv_progress apiKey N now w :
  MutexInv N w -> allReturned w = false -> exists t w', step apiKey t now w = Some w'.
Proof.
  intros [Hlen Hq Hnd Hfree Hcount] Hall.
  apply forallb_false_lookup in Hall as (t & p & Ht & Hp).
  destruct (locked (bonusMutex w)) eqn:Hl.
  - destruct (countIf_pos holdsLock (tasks w)) as (t0 & p0 & Ht0 & Hp0); [lia |].
    exists t0. apply (step_defined apiKey t0 now w p0 Ht0). by right.
  - exists t. apply (step_defined apiKey t now w p Ht).
    destruct p as [| | | result | result]; try (by right); try (by left).
    exfalso. apply Hq in Ht. rewrite (Hfree eq_refl) in Ht. by apply elem_of_nil in Ht.
Qed.

Lemma MutexInv_completion apiKey N (now : Z) : forall n w,
  (totalWeight w <= n)%nat -> MutexInv N w ->
  exists more, allReturned (run apiKey more w) = true.
Proof.
  induction n as [| n IH]; intros w Hw Hinv.
  - destruct (allReturned w) eqn:Hall; [by exists [] |].
    destruct (MutexInv_progress apiKey N now w Hinv Hall) as (t & w' & Hs).
    destruct (MutexInv_step apiKey N t now w w' Hinv Hs) as [_ Hlt]. lia.
  - destruct (allReturned w) eqn:Hall; [by exists [] |].
    destruct (MutexInv_progress apiKey N now w Hinv Hall) as (t & w' & Hs).
    destruct (MutexInv_step apiKey N t now w w' Hinv Hs) as [Hinv' Hlt].
    destruct (IH w' ltac:(lia) Hinv') as (more & Hmore).
    exists ((t, now) :: more). simpl. by rewrite Hs.
Qed.

(** X22.  Mutual exclusion.  However [N] concurrent calls of
    [consumeBonus] are interleaved, and whatever the store holds, at most
    one call stands between its [acquire()] and its [release()]; no call
    does while the mutex is unlocked, and then no call waits either; and no
    call is queued twice. *)
Theorem mutex_mutual_exclusion (apiKey : string) (N : nat) (st : UserDataStore)
    (schedule : list (nat * Z)) :
  let w := run apiKey schedule (initial N st) in
  (countIf holdsLock (tasks w) <= 1)%nat
  /\ (locked (bonusMutex w) = false ->
      forall t p, tasks w !! t = Some p -> holdsLock p = false /\ p <> Waiting)
  /\ NoDup (waiting (bonusMutex w))
  /\ length (tasks w) = N.
Proof.
  intros w.
  destruct (MutexInv_run apiKey N schedule _ (MutexInv_initial N st))
    as [Hlen Hq Hnd Hfree Hcount].
  fold w in Hlen, Hq, Hnd, Hfree, Hcount.
  split; [rewrite Hcount; destruct (locked (bonusMutex w)); lia |].
  split; [| done].
  intros Hl t p Ht. rewrite Hl in Hcount.
  split; [by apply (countIf_zero holdsLock (tasks w) t) |].
  intros ->. apply Hq in Ht. rewrite (Hfree Hl) in Ht. by apply elem_of_nil in Ht.
Qed.

(** X23.  No deadlock.  In every world reached by [N] concurrent calls,
    whatever the store holds, some call can take a turn unless all have
    returned; every turn taken brings the calls closer to the end; and the
    schedule can be continued so that all calls return. *)
Theorem mutex_no_deadlock (apiKey : string) (N : nat) (st : UserDataStore)
    (schedule : list (nat * Z)) (now : Z) :
  let w := run apiKey schedule (initial N st) in
  (allReturned w = false -> exists t w', step apiKey t now w = Some w')
  /\ (forall t w', step apiKey t now w = Some w' -> (totalWeight w' < totalWeight w)%nat)
  /\ exists more, allReturned (run apiKey (schedule ++ more) (initial N st)) = true.
Proof.
  intros w.
  pose proof (MutexInv_run apiKey N schedule _ (MutexInv_initial N st)) as Hinv.
  fold w in Hinv.
  split; [by apply (MutexInv_progress apiKey N) |].
  split; [intros t w' Hs; by destruct (MutexInv_step apiKey N t now w w' Hinv Hs) |].
  destruct (MutexInv_completion apiKey N now (totalWeight w) w (le_n _) Hinv) as (more & Hmore).
  exists more. by rewrite run_app.
Qed.

End MutexSpec.

(** * Authentication: by potluck key, and by the configured key *)
Module AuthSpec.
Import KeyManager KeyAdmin PotluckAuth DefaultAuth Measures Samples MoreSamples.







(** The text after a prefix. *)
Lemma substring_all (s : string) : String.substring 0 (String.length s) s = s.
Proof. induction s as [| a s IH]; simpl; [done | by rewrite IH]. Qed.

Lemma prefix_split (p : string) : forall h,
  String.prefix p h = true ->
  h = (p ++ String.substring (String.length p) (String.length h - String.length p) h)%string.
Proof.
  induction p as [| a p IH]; intros h H; simpl.
  - by rewrite Nat.sub_0_r, substring_all.
  - destruct h as [| b h]; simpl in H; [done |].
    destruct (Ascii.ascii_dec a b) as [<- | ?]; [| done].
    pose proof (IH h H) as E.
    change (String a h
            = String a (p ++ String.substring (String.length p)
                               (String.length h - String.length p) h)).
    by rewrite <- E.
Qed.

Lemma substring_after (p k : string) :
  String.substring (String.length p) (String.length (p ++ k) - String.length p)
    (p ++ k)%string = k.
Proof.
  induction p as [| a p IH]; simpl; [by rewrite Nat.sub_0_r, substring_all | done].
Qed.

Lemma bearerIs_spec (authHeader : option string) (k : string) :
  bearerIs authHeader (Some k) = true <-> authHeader = Some ("Bearer " ++ k)%string.
Proof.
  unfold bearerIs. destruct authHeader as [h |]; [| done].
  split.
  - destruct (negb (String.eqb h "") && String.prefix "Bearer " h) eqn:Hc; [| done].
    apply andb_true_iff in Hc as [_ Hp]. intros Hk%String.eqb_eq.
    f_equal. rewrite <- Hk. exact (prefix_split _ _ Hp).
  - intros [= ->].
    change (negb (String.eqb ("Bearer " ++ k) "")) with true.
    rewrite KeyAdminSpec.prefix_append. cbn [andb].
    apply String.eqb_eq. apply (substring_after "Bearer " k).
Qed.

(** X25.  [isAuthorized] with a configured key [k] accepts a request exactly
    when one of its four sources carries [k]: the [Authorization] header as
    [Bearer k], the [key] query parameter, the [x-goog-api-key] header or
    the [x-api-key] header.  With no key configured ([undefined]), a request
    is accepted exactly when it lacks one of these two headers; a Bearer
    token or a query parameter never matches. *)
Theorem isAuthorized_sources (req : Request) (k : string) :
  (isAuthorized req (Some k) = true
   <-> authorization req = Some ("Bearer " ++ k)%string \/ queryKey req = Some k
       \/ xGoogApiKey req = Some k \/ xApiKey req = Some k)
  /\ (isAuthorized req None = true <-> xGoogApiKey req = None \/ xApiKey req = None).
Proof.
  assert (Hh : forall h : option string, headerIs h (Some k) = true <-> h = Some k).
  { intros [h |]; simpl; [| done]. rewrite String.eqb_eq. split; [by intros -> | by intros [= ->]]. }
  assert (Hq : forall q : option string, queryIs q (Some k) = true <-> q = Some k).
  { intros [q |]; simpl; [| done]. rewrite String.eqb_eq. split; [by intros -> | by intros [= ->]]. }
  split.
  - unfold isAuthorized. rewrite <- bearerIs_spec, <- Hq, <- !Hh.
    destruct (bearerIs _ _), (queryIs _ _), (headerIs (xGoogApiKey req) _),
      (headerIs (xApiKey req) _); intuition discriminate.
  - unfold isAuthorized.
    assert (bearerIs (authorization req) None = false) as ->.
    { unfold bearerIs. destruct (authorization req) as [h |]; [| done]. by destruct (_ && _). }
    assert (queryIs (queryKey req) None = false) as -> by (by destruct (queryKey req)).
    destruct (xGoogApiKey req), (xApiKey req); simpl; intuition discriminate.
Qed.

End AuthSpec.

(** * Regenerating a key: the user route and the administration route *)
Module RoutesSpec.
Import KeyManager UserDataManager KeyAdmin UserDataAdmin HealthSync Routes Scenarios
  Measures Samples MoreSamples SyncSpec UserDataSpec.







End RoutesSpec.
